(** * Dividend announcement tools: merger, pattern miner and predictor

    A shallow embedding of [Dividend_predictor.py], of the dividend
    updater ([dividend_updater_backup_2025_06_08_1000.py]) and of the name
    fixer ([fix_company_names.py]), followed by the properties of the
    specification that concern them and by further properties of the code.

    Modelling conventions.
    - A Python [str] is the list of its Unicode code points ([pystr]).
    - A pandas data frame is the list of its rows, a column a record field;
      a missing cell (NaN, NaT) is [None].
    - The amounts that the updater reads are Python floats: IEEE 754
      binary64 values ([pyfloat]), with their infinities and their NaN, and
      with the rounding of their subtraction.
    - The dividends and scores of the predictor, floats in the program too,
      are modelled as exact rationals ([Q]), compared with [==]; there the
      IEEE special values are outside the model.
    - [datetime.date] values are records of year, month and day.  Their
      order is the order of their proleptic Gregorian ordinals
      ([toordinal], as in CPython's [_ymd2ord]); [date_order_lexicographic]
      shows that on calendar dates this is the field-wise order Python
      compares with.
    - The dates that pandas holds are modelled as calendar dates too.  Years
      before 1000, which [%Y] writes differently from one platform to
      another, and years outside the range of pandas timestamps (1677 to
      2262) are outside the model.
    - [datetime.now()] is the explicit argument [today].
    - [print] is modelled, where a property needs it, by a list of typed
      messages returned next to the result.
    - Python's [float] reader is a parameter ([py_float]) of the parser. *)

From Stdlib Require Import ZArith QArith Qround Qminmax Qabs Lqa List Lia.
From Stdlib Require Import String Ascii DecimalString Permutation Bool.
From Stdlib Require Import SpecFloat.
From stdpp Require Import gmap.
From Stdlib Require Import Sorted.
Import ListNotations.

Local Open Scope Z_scope.

(** ** Python strings *)

Definition pystr := list N.

(** An ASCII literal as a Python string. *)
Definition str (s : string) : pystr :=
  List.map N_of_ascii (list_ascii_of_string s).

Definition pystr_eqb (a b : pystr) : bool := bool_decide (a = b).

(** [str.isspace] on one code point; the class [\s] of [re] on [str]
    patterns is the same set. *)
Definition isspace (c : N) : bool :=
  ((9 <=? c) && (c <=? 13) || (28 <=? c) && (c <=? 32) || (c =? 133)
   || (c =? 160) || (c =? 5760) || (8192 <=? c) && (c <=? 8202)
   || (c =? 8232) || (c =? 8233) || (c =? 8239) || (c =? 8287)
   || (c =? 12288))%N.

Fixpoint lstrip (s : pystr) : pystr :=
  match s with
  | c :: s' => if isspace c then lstrip s' else s
  | [] => []
  end.

Definition rstrip (s : pystr) : pystr := rev (lstrip (rev s)).

(** [s.strip()] *)
Definition strip (s : pystr) : pystr := rstrip (lstrip s).

(** [s.split(sep)] for a one-character separator. *)
Fixpoint split (sep : N) (s : pystr) : list pystr :=
  match s with
  | [] => [[]]
  | c :: s' =>
      if (c =? sep)%N then [] :: split sep s'
      else match split sep s' with
           | p :: ps => (c :: p) :: ps
           | [] => [[c]]
           end
  end.

(** [s.startswith(p)] *)
Fixpoint startswith (p s : pystr) : bool :=
  match p, s with
  | [], _ => true
  | a :: p', b :: s' => (a =? b)%N && startswith p' s'
  | _ :: _, [] => false
  end.

(** [p in s] *)
Fixpoint contains (p s : pystr) : bool :=
  startswith p s ||
  match s with
  | [] => false
  | _ :: s' => contains p s'
  end.

Definition has_char (c : N) (s : pystr) : bool :=
  existsb (fun x => (x =? c)%N) s.

Fixpoint take_while (f : N -> bool) (s : pystr) : pystr :=
  match s with
  | c :: s' => if f c then c :: take_while f s' else []
  | [] => []
  end.

Fixpoint drop_while (f : N -> bool) (s : pystr) : pystr :=
  match s with
  | c :: s' => if f c then drop_while f s' else s
  | [] => []
  end.

Definition lparen : N := 40.
Definition rparen : N := 41.
Definition not_lparen (c : N) : bool := negb (c =? lparen)%N.
Definition not_rparen (c : N) : bool := negb (c =? rparen)%N.

(** [str(n)] for an integer. *)
Definition str_of_Z (z : Z) : pystr :=
  str (NilZero.string_of_int (Z.to_int z)).

(** [sep.join(l)] *)
Fixpoint join (sep : pystr) (l : list pystr) : pystr :=
  match l with
  | [] => []
  | [x] => x
  | x :: l' => x ++ sep ++ join sep l'
  end.

(** ** The regular expressions of the updater *)

(** [re.sub(r'\s+', '', name)]: every whitespace character goes. *)
Definition re_sub_spaces (s : pystr) : pystr :=
  List.filter (fun c => negb (isspace c)) s.

(** Length of the match of [[^\)]+\)] at the start of [s], if any: one or
    more characters other than a closing parenthesis, then one. *)
Definition paren_body_len (s : pystr) : option nat :=
  let body := take_while not_rparen s in
  match body, drop_while not_rparen s with
  | _ :: _, _ :: _ => Some (S (length body))
  | _, _ => None
  end.

(** [re.sub(r'\([^\)]+\)', '', name)], scanning left to right: at an opening
    parenthesis where the pattern matches, the match is dropped ([skip]
    counts the characters still to drop); elsewhere the character stays. *)
Fixpoint re_sub_parens_from (skip : nat) (s : pystr) : pystr :=
  match s with
  | [] => []
  | c :: s' =>
      match skip with
      | S k => re_sub_parens_from k s'
      | O =>
          if (c =? lparen)%N then
            match paren_body_len s' with
            | Some n => re_sub_parens_from n s'
            | None => c :: re_sub_parens_from O s'
            end
          else c :: re_sub_parens_from O s'
      end
  end.

Definition re_sub_parens (s : pystr) : pystr := re_sub_parens_from O s.

(** [re.match(r'^([^(]+)', company)]: group 1, the longest prefix free of
    opening parentheses, which must not be empty. *)
Definition re_match_name (s : pystr) : option pystr :=
  match take_while not_lparen s with
  | [] => None
  | g => Some g
  end.

(** [re.match(r'^([^(]+)\s*\(([^)]+)\)', company_full)]: groups 1 and 2.
    Group 1 is greedy and holds no opening parenthesis, so it runs up to the
    first one; group 2 runs up to the first closing parenthesis after it. *)
Definition re_match_company (s : pystr) : option (pystr * pystr) :=
  match take_while not_lparen s, drop_while not_lparen s with
  | (_ :: _) as g1, _ :: rest =>
      match take_while not_rparen rest, drop_while not_rparen rest with
      | (_ :: _) as g2, _ :: _ => Some (g1, g2)
      | _, _ => None
      end
  | _, _ => None
  end.

(** ** Calendar dates ([datetime.date]) *)

Record date := mk_date { year : Z; month : Z; day : Z }.

Definition is_leap (y : Z) : bool :=
  (y mod 4 =? 0) && (negb (y mod 100 =? 0) || (y mod 400 =? 0)).

Definition days_in_month (y m : Z) : Z :=
  if (m =? 2) && is_leap y then 29
  else nth (Z.to_nat m) [0; 31; 28; 31; 30; 31; 30; 31; 31; 30; 31; 30; 31] 0.

Definition days_before_year (y : Z) : Z :=
  let y' := y - 1 in y' * 365 + y' / 4 - y' / 100 + y' / 400.

Definition days_before_month (y m : Z) : Z :=
  nth (Z.to_nat m) [0; 0; 31; 59; 90; 120; 151; 181; 212; 243; 273; 304; 334] 0
  + (if (2 <? m) && is_leap y then 1 else 0).

Definition toordinal (d : date) : Z :=
  days_before_year (year d) + days_before_month (year d) (month d) + day d.

Definition valid_ymd (y m d : Z) : bool :=
  (1 <=? y) && (y <=? 9999) && (1 <=? m) && (m <=? 12)
  && (1 <=? d) && (d <=? days_in_month y m).

Definition valid_date (d : date) : bool := valid_ymd (year d) (month d) (day d).

(** [datetime(y, m, d).date()]; [None] is the [ValueError] of an impossible
    date. *)
Definition make_date (y m d : Z) : option date :=
  if valid_ymd y m d then Some (mk_date y m d) else None.

(** [date.max.toordinal()], and the largest [timedelta(days=...)]. *)
Definition max_ordinal : Z := 3652059.
Definition max_delta_days : Z := 999999999.

(** Ordinal of [d + timedelta(days=n)]; [None] is the [OverflowError] of a
    date out of range. *)
Definition add_days (d : date) (n : Z) : option Z :=
  let o := toordinal d + n in
  if (Z.abs n <=? max_delta_days) && (1 <=? o) && (o <=? max_ordinal)
  then Some o else None.

(** Python's field-wise comparison of dates. *)
Definition date_lex_le (a b : date) : Prop :=
  year a < year b \/
  (year a = year b /\ (month a < month b \/ (month a = month b /\ day a <= day b))).

Definition date_lex_lt (a b : date) : Prop :=
  year a < year b \/
  (year a = year b /\ (month a < month b \/ (month a = month b /\ day a < day b))).

(** *** [strptime] and [strftime] with the format [%d.%m.%Y] *)

(** The class [[0-9]] and the value of its characters. *)
Definition is_digit (c : N) : bool := ((48 <=? c) && (c <=? 57))%N.
Definition digit_val (c : N) : Z := Z.of_N c - 48.

Definition digits_val (s : pystr) : Z :=
  fold_left (fun acc c => acc * 10 + digit_val c) s 0.

(** The class [\d] of [re] on [str] patterns is wider: it holds the decimal
    digits of every script (the category Nd of Unicode), and [int] reads
    them all.  They come in runs of ten code points, the digits 0 to 9 of
    one script in order; these are the first code points of the runs
    (Unicode 14.0). *)
Definition decimal_runs : list N :=
  [ 48; 1632; 1776; 1984; 2406; 2534; 2662; 2790; 2918; 3046; 3174; 3302;
    3430; 3558; 3664; 3792; 3872; 4160; 4240; 6112; 6160; 6470; 6608; 6784;
    6800; 6992; 7088; 7232; 7248; 42528; 43216; 43264; 43472; 43504; 43600;
    44016; 65296; 66720; 68912; 69734; 69872; 69942; 70096; 70384; 70736;
    70864; 71248; 71360; 71472; 71904; 72016; 72784; 73040; 73120; 92768;
    92864; 93008; 120782; 120792; 120802; 120812; 120822; 123200; 123632;
    125264; 130032 ]%N.

(** The value of a decimal digit; [None] for any other character. *)
Definition decimal_value (c : N) : option Z :=
  match List.find (fun b => (b <=? c) && (c <? b + 10))%N decimal_runs with
  | Some b => Some (Z.of_N (c - b))
  | None => None
  end.

Definition is_decimal (c : N) : bool :=
  match decimal_value c with
  | Some _ => true
  | None => false
  end.

Definition decimal_val (c : N) : Z :=
  match decimal_value c with
  | Some v => v
  | None => 0
  end.

(** [int(s)] on a string of decimal digits. *)
Definition int_of_digits (s : pystr) : Z :=
  fold_left (fun acc c => acc * 10 + decimal_val c) s 0.

(** The day directive: [3[0-1]|[1-2]\d|0[1-9]|[1-9]| [1-9]]. *)
Definition parse_day (s : pystr) : option Z :=
  match s with
  | [a; b] =>
      if (((a =? 51) && ((b =? 48) || (b =? 49)))
          || (((a =? 49) || (a =? 50)) && is_decimal b)
          || (((a =? 48) || (a =? 32)) && is_digit b && negb (b =? 48)))%N
      then Some (int_of_digits (List.filter is_decimal s)) else None
  | [a] => if (is_digit a && negb (a =? 48))%N then Some (digit_val a) else None
  | _ => None
  end.

(** The month directive: [1[0-2]|0[1-9]|[1-9]]. *)
Definition parse_month (s : pystr) : option Z :=
  match s with
  | [a; b] =>
      if (((a =? 49) && (48 <=? b) && (b <=? 50))
          || ((a =? 48) && is_digit b && negb (b =? 48)))%N
      then Some (digits_val s) else None
  | [a] => if (is_digit a && negb (a =? 48))%N then Some (digit_val a) else None
  | _ => None
  end.

(** The year directive: [\d\d\d\d]. *)
Definition parse_year (s : pystr) : option Z :=
  match s with
  | [a; b; c; d] =>
      if forallb is_decimal s then Some (int_of_digits s) else None
  | _ => None
  end.

(** [datetime.strptime(s, '%d.%m.%Y')]; [None] is its [ValueError]. *)
Definition strptime (s : pystr) : option date :=
  match split 46 s with
  | [ds; ms; ys] =>
      match parse_day ds, parse_month ms, parse_year ys with
      | Some d, Some m, Some y => make_date y m d
      | _, _, _ => None
      end
  | _ => None
  end.

Definition digit_char (z : Z) : N := Z.to_N (48 + z mod 10).

Definition pad2 (z : Z) : pystr := [digit_char (z / 10); digit_char z].

Definition pad4 (z : Z) : pystr :=
  [digit_char (z / 1000); digit_char (z / 100); digit_char (z / 10); digit_char z].

(** [d.strftime('%d.%m.%Y')] *)
Definition strftime (d : date) : pystr :=
  pad2 (day d) ++ [46%N] ++ pad2 (month d) ++ [46%N] ++ pad4 (year d).

(** [d.strftime('%Y-%m-%d')] *)
Definition strftime_iso (d : date) : pystr :=
  pad4 (year d) ++ [45%N] ++ pad2 (month d) ++ [45%N] ++ pad2 (day d).

(** ** Numbers *)

Fixpoint Qsum (l : list Q) : Q :=
  match l with
  | [] => 0%Q
  | x :: l' => (x + Qsum l')%Q
  end.

(** [Series.mean()] *)
Definition mean (l : list Q) : Q :=
  (Qsum l / inject_Z (Z.of_nat (length l)))%Q.

(** Nearest integer, ties to the even one. *)
Definition round_half_even (q : Q) : Z :=
  let f := Qfloor q in
  match (q - inject_Z f ?= 1 # 2)%Q with
  | Lt => f
  | Gt => f + 1
  | Eq => if Z.even f then f else f + 1
  end.

(** [round(q, 1)] *)
Definition py_round1 (q : Q) : Q :=
  (inject_Z (round_half_even (q * 10)) / 10)%Q.

(** [max(l)] on a list of integers (taken as [0] on the empty list, where
    Python raises). *)
Definition list_max (l : list Z) : Z :=
  match l with
  | [] => 0
  | x :: l' => fold_left Z.max l' x
  end.

(** ** Python floats ([float]): IEEE 754 binary64 *)

(** A float is zero, an infinity, NaN or a signed mantissa with an exponent,
    in the one form the format has for each value; the operations are those
    of the standard, rounding to nearest, ties to even. *)
Definition pyfloat : Type := spec_float.

Definition float_prec : Z := 53.
Definition float_emax : Z := 1024.

Definition float_zero : pyfloat := S754_zero false.
Definition float_nan : pyfloat := S754_nan.

(** [float(z)] for an integer. *)
Definition float_of_Z (z : Z) : pyfloat :=
  binary_normalize float_prec float_emax z 0 false.

(** [a - b], [a / b], [abs(a)], [a < b] and [a <= b]; a comparison with NaN
    is false. *)
Definition float_sub (a b : pyfloat) : pyfloat := SFsub float_prec float_emax a b.
Definition float_div (a b : pyfloat) : pyfloat := SFdiv float_prec float_emax a b.
Definition float_abs (a : pyfloat) : pyfloat := SFabs a.
Definition float_lt (a b : pyfloat) : bool := SFltb a b.
Definition float_le (a b : pyfloat) : bool := SFleb a b.

(** The literal [0.01]: the float nearest to one hundredth,
    5764607523034235 / 2^59. *)
Definition float_0_01 : pyfloat := S754_finite false 5764607523034235 (-59).

(** A float that is a number: not NaN and not an infinity. *)
Definition is_finite (a : pyfloat) : bool :=
  match a with
  | S754_zero _ | S754_finite _ _ _ => true
  | S754_infinity _ | S754_nan => false
  end.

(** ** The predictor ([Dividend_predictor.py]) *)

Module Predictor.

Definition RECENT_ANNOUNCEMENT_WINDOW : Z := 60.

(** A row of the historical data frame: the company, the ex-dividend date
    ([NaT] when it could not be read) and the dividend.  The other columns
    are not read by the predictor. *)
Record row := mk_row { company : pystr; ex_date : option date; dividend : Q }.

Definition frame := list row.

(** The dictionary of one pattern. *)
Record pattern := mk_pattern {
  pat_month : Z;
  pat_day : Z;
  frequency : nat;
  last_year : Z;
  avg_dividend : Q;
  years : list Z
}.

(** The dictionary of one prediction. *)
Record prediction := mk_prediction {
  pred_company : pystr;
  predicted_ex_date : date;
  days_until : Z;
  pred_frequency : nat;
  last_occurrence : Z;
  pred_avg_dividend : Q;
  confidence : Q;
  pattern_years : pystr
}.

(** [Series.unique()]: the values in order of first appearance. *)
Fixpoint unique (l : list pystr) : list pystr :=
  match l with
  | [] => []
  | x :: l' => x :: List.filter (fun y => negb (pystr_eqb x y)) (unique l')
  end.

(** [list.sort()] on dates: stable insertion in increasing order. *)
Fixpoint insert_date (d : date) (l : list date) : list date :=
  match l with
  | [] => [d]
  | x :: l' =>
      if toordinal d <? toordinal x then d :: l else x :: insert_date d l'
  end.

Definition sort_dates (l : list date) : list date :=
  fold_left (fun acc d => insert_date d acc) l [].

(** [month_day_patterns[key].append(y)] on a [defaultdict(list)], which
    keeps its keys in insertion order. *)
Fixpoint md_append (key : Z * Z) (y : Z) (m : list (Z * Z * list Z))
  : list (Z * Z * list Z) :=
  match m with
  | [] => [(key, [y])]
  | (k, ys) :: m' =>
      if (fst k =? fst key) && (snd k =? snd key) then (k, ys ++ [y]) :: m'
      else (k, ys) :: md_append key y m'
  end.

Definition group_by_month_day (dates : list date) : list (Z * Z * list Z) :=
  fold_left (fun acc d => md_append (month d, day d) (year d) acc) dates [].

(** The rows whose ex-dividend date has the given month and day. *)
Definition on_month_day (m d : Z) (r : row) : bool :=
  match ex_date r with
  | Some dt => (month dt =? m) && (day dt =? d)
  | None => false
  end.

Definition make_pattern (company_data : frame) (g : Z * Z * list Z) : pattern :=
  let '(m, d, ys) := g in
  {| pat_month := m;
     pat_day := d;
     frequency := length ys;
     last_year := list_max ys;
     avg_dividend :=
       mean (List.map dividend (List.filter (on_month_day m d) company_data));
     years := ys |}.

Definition analyze_company_pattern_with_freq
  (company_data : frame) (company_name : pystr) (min_frequency : Z)
  : option (list pattern) :=
  let historical_dates := sort_dates (omap ex_date company_data) in
  if Z.of_nat (length historical_dates) <? min_frequency then None
  else
    let month_day_patterns := group_by_month_day historical_dates in
    let frequent_patterns :=
      flat_map
        (fun g => if (2 <=? length (snd g))%nat
                  then [make_pattern company_data g] else [])
        month_day_patterns in
    match frequent_patterns with
    | [] => None
    | _ => Some frequent_patterns
    end.

(** [d[key] = value] on a dictionary kept as an association list in
    insertion order. *)
Fixpoint dict_set {V} (key : pystr) (v : V) (m : list (pystr * V))
  : list (pystr * V) :=
  match m with
  | [] => [(key, v)]
  | (k, w) :: m' =>
      if pystr_eqb k key then (k, v) :: m' else (k, w) :: dict_set key v m'
  end.

Fixpoint dict_get {V} (key : pystr) (m : list (pystr * V)) : option V :=
  match m with
  | [] => None
  | (k, w) :: m' => if pystr_eqb k key then Some w else dict_get key m'
  end.

(** The rows of the recent-announcement selection: ex-dividend date on or
    after the cutoff. *)
Definition is_recent (recent_cutoff : Z) (r : row) : bool :=
  match ex_date r with
  | Some d => recent_cutoff <=? toordinal d
  | None => false
  end.

(** [company_data.sort_values(ex_date)]: by date, missing dates last.  (The
    order pandas leaves among equal dates is not fixed; rows are kept in
    their order here.) *)
Definition date_cell_lt (a b : option date) : bool :=
  match a, b with
  | Some x, Some y => toordinal x <? toordinal y
  | Some _, None => true
  | None, _ => false
  end.

Fixpoint insert_row (r : row) (l : frame) : frame :=
  match l with
  | [] => [r]
  | x :: l' =>
      if date_cell_lt (ex_date r) (ex_date x) then r :: l
      else x :: insert_row r l'
  end.

Definition sort_values (l : frame) : frame :=
  fold_left (fun acc r => insert_row r acc) l [].

(** One turn of the loop over the companies. *)
Definition analyze_company (df : frame) (min_frequency recent_cutoff : Z)
  (company_patterns : list (pystr * list pattern)) (c : pystr)
  : list (pystr * list pattern) :=
  let company_data := List.filter (fun r => pystr_eqb (company r) c) df in
  if Z.of_nat (length company_data) <? min_frequency then company_patterns
  else
    let recent_announcements :=
      List.filter (is_recent recent_cutoff) company_data in
    match recent_announcements with
    | _ :: _ => company_patterns
    | [] =>
        let company_data := sort_values company_data in
        match analyze_company_pattern_with_freq company_data c min_frequency with
        | Some ((_ :: _) as patterns) => dict_set c patterns company_patterns
        | _ => company_patterns
        end
    end.

(** [None] is the [OverflowError] of a cutoff before the first date. *)
Definition analyze_dividend_patterns (df : frame) (min_frequency : Z)
  (today : date) : option (list (pystr * list pattern)) :=
  match add_days today (- RECENT_ANNOUNCEMENT_WINDOW) with
  | None => None
  | Some recent_cutoff =>
      Some (fold_left (analyze_company df min_frequency recent_cutoff)
                      (unique (List.map company df)) [])
  end.

(** [frequency_score], [recency_score] and the value before rounding are
    the local variables of [calculate_confidence]. *)
Definition frequency_score (p : pattern) : Q :=
  Qmin (inject_Z (Z.of_nat (frequency p)) / 5) 1.

Definition recency_score (p : pattern) (predicted_year : Z) : Q :=
  let years_since_last := predicted_year - last_year p in
  Qmax 0 (1 - inject_Z (years_since_last - 1) * (2 # 10)).

Definition raw_confidence (p : pattern) (predicted_year : Z) : Q :=
  ((frequency_score p * (7 # 10) + recency_score p predicted_year * (3 # 10))
   * 100)%Q.

Definition calculate_confidence (p : pattern) (predicted_year : Z) : Q :=
  py_round1 (raw_confidence p predicted_year).

(** The body of the innermost loop: the predictions one pattern yields in
    one candidate year, none when the date does not exist or falls outside
    the window. *)
Definition predict_year (today : date) (end_date : Z) (c : pystr)
  (p : pattern) (y : Z) : list prediction :=
  match make_date y (pat_month p) (pat_day p) with
  | None => []
  | Some predicted_date =>
      if (toordinal today <=? toordinal predicted_date)
         && (toordinal predicted_date <=? end_date)
      then
        [ {| pred_company := c;
             predicted_ex_date := predicted_date;
             days_until := toordinal predicted_date - toordinal today;
             pred_frequency := frequency p;
             last_occurrence := last_year p;
             pred_avg_dividend := avg_dividend p;
             confidence := calculate_confidence p y;
             pattern_years := join (str ", ") (List.map str_of_Z (years p)) |} ]
      else []
  end.

(** The order of the sort key [(days_until, -confidence)]. *)
Definition key_le (a b : prediction) : bool :=
  (days_until a <? days_until b)
  || ((days_until a =? days_until b)
      && Qle_bool (- confidence a) (- confidence b)).

(** [list.sort(key=...)]: stable insertion in increasing key order. *)
Fixpoint insert_prediction (x : prediction) (l : list prediction)
  : list prediction :=
  match l with
  | [] => [x]
  | y :: l' => if key_le x y then x :: l else y :: insert_prediction x l'
  end.

Definition sort_predictions (l : list prediction) : list prediction :=
  fold_right insert_prediction [] l.

(** The predictions before the final sort, in loop order. *)
Definition candidate_predictions (today : date) (end_date : Z)
  (company_patterns : list (pystr * list pattern)) : list prediction :=
  flat_map
    (fun cp =>
       flat_map
         (fun p =>
            flat_map (predict_year today end_date (fst cp) p)
                     [year today; year today + 1])
         (snd cp))
    company_patterns.

(** [None] is the [OverflowError] of a window end after the last date. *)
Definition predict_upcoming_announcements
  (company_patterns : list (pystr * list pattern)) (prediction_days : Z)
  (today : date) : option (list prediction) :=
  match add_days today prediction_days with
  | None => None
  | Some end_date =>
      Some (sort_predictions
              (candidate_predictions today end_date company_patterns))
  end.

(** The two steps in [main], one after the other. *)
Definition pipeline (df : frame) (min_frequency prediction_days : Z)
  (today : date) : option (list prediction) :=
  match analyze_dividend_patterns df min_frequency today with
  | None => None
  | Some company_patterns =>
      predict_upcoming_announcements company_patterns prediction_days today
  end.




(** *** Notions the properties are stated with *)

(** The patterns of a result, none for [None]. *)
Definition patterns_of (r : option (list pattern)) : list pattern :=
  default [] r.

Definition is_month_day (m d : Z) (p : pattern) : bool :=
  (pat_month p =? m) && (pat_day p =? d).

Definition date_on (m d : Z) (dt : date) : bool :=
  (month dt =? m) && (day dt =? d).

(** How many rows of the frame fall on the month and day. *)
Definition occurrences (m d : Z) (company_data : frame) : nat :=
  length (List.filter (on_month_day m d) company_data).

(** In how many different years the frame has a row on the month and day. *)
Definition distinct_years (m d : Z) (company_data : frame) : nat :=
  length (nodup Z.eq_dec
            (List.map year (List.filter (date_on m d) (omap ex_date company_data)))).

(** The years recorded for a month and day in the grouping. *)
Definition md_years (m d : Z) (groups : list (Z * Z * list Z)) : list Z :=
  match List.find (fun g => (fst (fst g) =? m) && (snd (fst g) =? d)) groups with
  | Some g => snd g
  | None => []
  end.

Definition key_of (g : Z * Z * list Z) : Z * Z := fst g.

(** The company, pattern and candidate year of every turn of the innermost
    loop of [predict_upcoming_announcements], in loop order. *)
Definition candidates (today : date)
  (company_patterns : list (pystr * list pattern))
  : list (pystr * pattern * Z) :=
  flat_map
    (fun cp =>
       flat_map
         (fun p => List.map (fun y => (fst cp, p, y)) [year today; year today + 1])
         (snd cp))
    company_patterns.

(** The month and day of the pattern exist in the candidate year. *)
Definition exists_in_year (t : pystr * pattern * Z) : bool :=
  valid_ymd (snd t) (pat_month (snd (fst t))) (pat_day (snd (fst t))).

Definition predict_candidate (today : date) (end_date : Z)
  (t : pystr * pattern * Z) : list prediction :=
  predict_year today end_date (fst (fst t)) (snd (fst t)) (snd t).

(** The pattern was last seen on a date before the cutoff. *)
Definition last_seen_before (cutoff : Z) (p : pattern) : Prop :=
  exists dt, month dt = pat_month p /\ day dt = pat_day p
             /\ year dt = last_year p /\ toordinal dt < cutoff.

(** The turn of a company in the loop of the miner leaves an entry under
    its name. *)
Definition has_patterns (df : frame) (min_frequency cutoff : Z) (c : pystr)
  : bool :=
  match dict_get c (analyze_company df min_frequency cutoff [] c) with
  | Some _ => true
  | None => false
  end.

(** The patterns of the result, each with its company, in loop order. *)
Definition company_pattern_pairs (company_patterns : list (pystr * list pattern))
  : list (pystr * pattern) :=
  flat_map (fun cp => List.map (pair (fst cp)) (snd cp)) company_patterns.

(** The order of [datetime.date] values. *)
Definition ordinal_le (a b : date) : Prop := toordinal a <= toordinal b.

(** The order of the final sort: sooner first, and among predictions for the
    same day the more confident first. *)
Definition sooner_or_surer (a b : prediction) : Prop :=
  days_until a < days_until b
  \/ (days_until a = days_until b /\ (confidence b <= confidence a)%Q).

End Predictor.

(** ** The updater ([dividend_updater_backup_2025_06_08_1000.py]) *)

Module Updater.

(** A row of either data frame, with the seven columns of the CSV file.
    The ex-dividend date is text; [None] is a missing cell. *)
Record row := mk_row {
  company : pystr;
  ex_date : option pystr;
  dividend : pyfloat;
  kind : pystr;
  payment_date : pystr;
  yield : pystr;
  comfortable_date : pystr
}.

(** What the parser prints about a line. *)
Inductive message :=
| InvalidAmount (company : pystr) (dividend : pyfloat)
| PaymentBeforeExDate (company payment_date ex_date : pystr)
| InvalidDateFormat (company : pystr)
| DuplicateInFile (company ex_date : pystr)
| Parsed (company : pystr).

(** What becomes of one line before the duplicate check: passed over without
    a trace, passed over with a warning, or a validated entry. *)
Inductive outcome :=
| Skip
| Warn (m : message)
| Candidate (r : row).

(** Why [is_duplicate_entry] answers yes: ["exact match"], or ["same amount
    and date"] with the company of the stored row. *)
Inductive reason :=
| ExactMatch
| SameAmountAndDate (existing : pystr).

(** The words of header lines. *)
Definition word_company : pystr := [1495; 1489; 1512; 1492]%N.
Definition word_day : pystr := [1497; 1493; 1501]%N.
Definition word_in_may : pystr := [1489; 1502; 1488; 1497]%N.
Definition word_in_june : pystr := [1489; 1497; 1493; 1504; 1497]%N.
Definition word_in_april : pystr := [1489; 1488; 1508; 1512; 1497; 1500]%N.

Definition pipe : N := 124.
Definition newline : N := 10.

Definition normalize_company_name (name : pystr) : pystr :=
  let name := re_sub_spaces name in
  let name := re_sub_parens name in
  strip name.

(** [parts[i]] where the index is known to be in range. *)
Definition part (i : nat) (parts : list pystr) : pystr := nth i parts [].

(** The table cells of a line: split at the pipes, stripped, without an
    empty first and an empty last cell. *)
Definition cells (line : pystr) : list pystr :=
  let parts := List.map strip (split pipe line) in
  let parts :=
    match parts with
    | [] :: parts' => parts'
    | _ => parts
    end in
  match last parts with
  | Some [] => removelast parts
  | _ => parts
  end.

(** The company as it is stored: ["Name (CODE)"] when the cell has that
    shape, the cell itself otherwise. *)
Definition company_with_acronym (company_full : pystr) : pystr :=
  if has_char lparen company_full && has_char rparen company_full then
    match re_match_company company_full with
    | Some (g1, g2) => strip g1 ++ str " (" ++ strip g2 ++ str ")"
    | None => company_full
    end
  else company_full.

(** The key of the within-file duplicate check.  The program joins the
    company, the ex-dividend date as written and the amount as it prints
    with underscores into one string; neither a validated date nor a printed
    amount holds an underscore, and two floats print alike exactly when they
    are the same value (every NaN prints as [nan]), so two such strings are
    equal exactly when the three parts are. *)
Definition key := (pystr * option pystr * pyfloat)%type.

Definition entry_key (r : row) : key :=
  (company r, ex_date r, dividend r).

#[global] Instance pyfloat_eq_dec : EqDecision pyfloat.
Proof. unfold pyfloat. solve_decision. Defined.

Definition pyfloat_code (a : pyfloat) : bool + bool + (unit + bool * positive * Z) :=
  match a with
  | S754_zero s => inl (inl s)
  | S754_infinity s => inl (inr s)
  | S754_nan => inr (inl tt)
  | S754_finite s m e => inr (inr (s, m, e))
  end.

Definition pyfloat_of_code (c : bool + bool + (unit + bool * positive * Z))
  : pyfloat :=
  match c with
  | inl (inl s) => S754_zero s
  | inl (inr s) => S754_infinity s
  | inr (inl _) => S754_nan
  | inr (inr (s, m, e)) => S754_finite s m e
  end.

#[global] Program Instance pyfloat_countable : Countable pyfloat :=
  inj_countable' pyfloat_code pyfloat_of_code _.
Next Obligation. by intros []. Qed.

Record state := mk_state {
  seen_entries : gset key;
  entries : list row;
  messages : list message
}.

Section Parser.

(** [float(s)]; [None] is its [ValueError]. *)
Variable py_float : pystr -> option pyfloat.

(** The first checks of the loop body of [parse_md_file]: the cells of a
    line that can hold an entry; [None] for the lines that are passed over
    (blank lines, headers, separators, lines with too few cells or without a
    company). *)
Definition entry_cells (line : pystr) : option (list pystr) :=
  let line := strip line in
  if bool_decide (line = []) || contains word_company line
     || (contains word_day line
         && (contains word_in_may line || contains word_in_june line
             || contains word_in_april line))
  then None
  else if contains (str "--") line || negb (startswith [pipe] line) then None
  else
    let parts := cells line in
    if (length parts <? 6)%nat then None
    else if bool_decide (strip (part 1 parts) = []) then None
    else Some parts.

(** The rest of the loop body up to the duplicate check (the [try] block):
    the fields are taken from the cells and validated. *)
Definition parse_entry (parts : list pystr) : outcome :=
  let company_full := strip (part 1 parts) in
  let company_with_acronym := company_with_acronym company_full in
  let ex_date := strip (part 2 parts) in
  let dividend_str := strip (part 3 parts) in
  let payment_date := strip (part 5 parts) in
  let yield_str :=
    if (6 <? length parts)%nat then strip (part 6 parts) else [] in
  if bool_decide (dividend_str = []) || bool_decide (ex_date = [])
     || bool_decide (payment_date = [])
  then Skip
  else
    match py_float dividend_str with
    | None => Skip
    | Some dividend =>
        if float_le dividend float_zero
        then Warn (InvalidAmount company_with_acronym dividend)
        else
          match strptime ex_date with
          | None => Warn (InvalidDateFormat company_with_acronym)
          | Some ex_date_dt =>
              match strptime payment_date with
              | None => Warn (InvalidDateFormat company_with_acronym)
              | Some payment_date_dt =>
                  if toordinal payment_date_dt <? toordinal ex_date_dt
                  then Warn (PaymentBeforeExDate company_with_acronym
                               payment_date ex_date)
                  else
                    Candidate
                      {| company := company_with_acronym;
                         ex_date := Some ex_date;
                         dividend := dividend;
                         kind := [];
                         payment_date := payment_date;
                         yield := yield_str;
                         comfortable_date := strftime_iso ex_date_dt |}
              end
          end
    end.

Definition parse_line (line : pystr) : outcome :=
  match entry_cells line with
  | None => Skip
  | Some parts => parse_entry parts
  end.

(** The duplicate check and the bookkeeping that end the loop body. *)
Definition add_candidate (st : state) (r : row) : state :=
  if bool_decide (entry_key r ∈ seen_entries st)
  then {| seen_entries := seen_entries st;
          entries := entries st;
          messages :=
            messages st
            ++ [DuplicateInFile (company r) (default [] (ex_date r))] |}
  else {| seen_entries := seen_entries st ∪ {[entry_key r]};
          entries := entries st ++ [r];
          messages := messages st ++ [Parsed (company r)] |}.

Definition parse_step (st : state) (line : pystr) : state :=
  match parse_line line with
  | Skip => st
  | Warn m =>
      {| seen_entries := seen_entries st;
         entries := entries st;
         messages := messages st ++ [m] |}
  | Candidate r => add_candidate st r
  end.

(** The loop of [parse_md_file] over the lines of the file. *)
Definition parse_lines (lines : list pystr) : state :=
  fold_left parse_step lines (mk_state ∅ [] []).

Definition parse_md_lines (content : pystr) : state :=
  parse_lines (split newline content).

(** The entries and their number, as the function returns them. *)
Definition parse_md_file (content : pystr) : list row * nat :=
  let st := parse_md_lines content in (entries st, length (entries st)).

End Parser.

(** [a == b] on two cells of text: a missing cell equals nothing. *)
Definition cell_eqb (a b : option pystr) : bool :=
  match a, b with
  | Some x, Some y => pystr_eqb x y
  | _, _ => false
  end.

(** [abs(a - b) < 0.01], in floats: the difference is rounded, and it is
    compared with the float of [0.01]. *)
Definition within_tolerance (a b : pyfloat) : bool :=
  float_lt (float_abs (float_sub a b)) float_0_01.

(** The company of the new row as it is compared: the part before the first
    opening parenthesis when there is one, normalized. *)
Definition normalized_new (r : row) : pystr :=
  let company :=
    match re_match_name (company r) with
    | Some g => strip g
    | None => company r
    end in
  normalize_company_name company.

Definition is_exact_match (r : row) (e : row) : bool :=
  pystr_eqb (normalize_company_name (company e)) (normalized_new r)
  && cell_eqb (ex_date e) (ex_date r)
  && within_tolerance (dividend e) (dividend r).

Definition is_duplicate_entry (r : row) (df_csv : list row)
  : bool * option reason :=
  let exact_matches := List.filter (is_exact_match r) df_csv in
  match exact_matches with
  | _ :: _ => (true, Some ExactMatch)
  | [] =>
      let date_matches :=
        List.filter (fun e => cell_eqb (ex_date e) (ex_date r)) df_csv in
      match
        List.find
          (fun existing =>
             within_tolerance (dividend existing) (dividend r)
             && pystr_eqb (normalize_company_name (company existing))
                          (normalized_new r))
          date_matches
      with
      | Some existing => (true, Some (SameAmountAndDate (company existing)))
      | None => (false, None)
      end
  end.

(** [pd.to_datetime(col, format='%d.%m.%Y').dt.strftime('%d.%m.%Y')]: the
    date rewritten with two-digit day and month, a cell that is not a date
    becoming a missing one. *)
Definition consistent_date (c : option pystr) : option pystr :=
  match c with
  | Some s => option_map strftime (strptime s)
  | None => None
  end.

Definition with_consistent_date (r : row) : row :=
  {| company := company r;
     ex_date := consistent_date (ex_date r);
     dividend := dividend r;
     kind := kind r;
     payment_date := payment_date r;
     yield := yield r;
     comfortable_date := comfortable_date r |}.

(** The sort key of the updated frame: the date of the row, missing last. *)
Definition sort_date (r : row) : option Z :=
  match ex_date r with
  | Some s => option_map toordinal (strptime s)
  | None => None
  end.

Definition sort_date_lt (a b : option Z) : bool :=
  match a, b with
  | Some x, Some y => x <? y
  | Some _, None => true
  | None, _ => false
  end.

Fixpoint insert_row (r : row) (l : list row) : list row :=
  match l with
  | [] => [r]
  | x :: l' =>
      if sort_date_lt (sort_date r) (sort_date x) then r :: l
      else x :: insert_row r l'
  end.

(** [df.sort_values('sort_date')]  (The order pandas leaves among equal
    dates is not fixed; rows are kept in their order here.) *)
Definition sort_values (l : list row) : list row :=
  fold_left (fun acc r => insert_row r acc) l [].

(** The loop over the new rows: each goes to the duplicates, with the
    reason, or to the new entries. *)
Definition classify (df_csv : list row)
  (acc : list (row * option reason) * list row) (new_row : row)
  : list (row * option reason) * list row :=
  let '(is_dup, why) := is_duplicate_entry new_row df_csv in
  if is_dup then (fst acc ++ [(new_row, why)], snd acc)
  else (fst acc, snd acc ++ [new_row]).

(** What a run leaves behind: the rows reported as already in the CSV file,
    the rows added, and the rows of the CSV file after the run. *)
Record run := mk_run {
  duplicates : list (row * option reason);
  new_entries : list row;
  csv_file : list row
}.

(** [df_csv] is the frame read from the CSV file, the blank first row of
    the file apart. *)
Definition update_csv_file (py_float : pystr -> option pyfloat)
  (df_csv : list row) (content : pystr) : run :=
  let '(df_new, total_md_entries) := parse_md_file py_float content in
  match df_new with
  | [] => mk_run [] [] df_csv
  | _ =>
      let df_csv' := List.map with_consistent_date df_csv in
      let df_new := List.map with_consistent_date df_new in
      let '(duplicates, new_entries_list) :=
        fold_left (classify df_csv') df_new ([], []) in
      match new_entries_list with
      | [] => mk_run duplicates [] df_csv
      | _ =>
          mk_run duplicates new_entries_list
                 (sort_values (df_csv' ++ new_entries_list))
      end
  end.

(** *** Notions the properties are stated with *)

(** The order of the rewritten file: by date, the rows without a date
    last. *)
Definition date_not_after (a b : row) : Prop :=
  match sort_date a, sort_date b with
  | Some x, Some y => x <= y
  | _, None => True
  | None, Some _ => False
  end.

(** A date cell as the rewritten file holds it: missing, or a calendar date
    with two-digit day and month and four-digit year. *)
Definition canonical_date_cell (c : option pystr) : Prop :=
  match c with
  | Some s => exists d, valid_date d = true /\ s = strftime d
  | None => True
  end.

End Updater.

(** ** The name fixer ([fix_company_names.py]) *)

Module Fixer.

Import Updater.

Definition star : N := 42.
Definition lbracket : N := 91.
Definition rbracket : N := 93.
Definition not_star (c : N) : bool := negb (c =? star)%N.
Definition not_rbracket (c : N) : bool := negb (c =? rbracket)%N.

(** What follows the literal [p] at the start of [s], if [s] starts with
    it. *)
Fixpoint after_prefix (p s : pystr) : option pystr :=
  match p, s with
  | [], _ => Some s
  | a :: p', b :: s' => if (a =? b)%N then after_prefix p' s' else None
  | _ :: _, [] => None
  end.

(** [re.match(r'\*\*([^*]+)\*\*\s*\(\[([^\]]+)\]', company_name)]: groups 1
    and 2.  Each greedy part is followed by a character it cannot hold, so
    it runs as far as it can. *)
Definition re_match_markdown (company_name : pystr) : option (pystr * pystr) :=
  match after_prefix [star; star] company_name with
  | None => None
  | Some s1 =>
      match take_while not_star s1 with
      | [] => None
      | g1 =>
          match after_prefix [star; star] (drop_while not_star s1) with
          | None => None
          | Some s2 =>
              match after_prefix [lparen; lbracket] (lstrip s2) with
              | None => None
              | Some s3 =>
                  match take_while not_rbracket s3,
                        drop_while not_rbracket s3 with
                  | (_ :: _) as g2, _ :: _ => Some (g1, g2)
                  | _, _ => None
                  end
              end
          end
      end
  end.

(** [new_name] of the loop body, when the name has the markdown shape. *)
Definition new_name (company_name : pystr) : option pystr :=
  match re_match_markdown company_name with
  | Some (g1, g2) =>
      let clean_company := strip g1 in
      let acronym := strip g2 in
      Some (clean_company ++ str " (" ++ acronym ++ str ")")
  | None => None
  end.

(** [df.at[idx, company] = new_name] *)
Definition set_company (new_name : pystr) (r : row) : row :=
  {| company := new_name;
     ex_date := ex_date r;
     dividend := dividend r;
     kind := kind r;
     payment_date := payment_date r;
     yield := yield r;
     comfortable_date := comfortable_date r |}.

(** The loop body: the rows so far and [changes_made]. *)
Definition fix_row (acc : list row * nat) (r : row) : list row * nat :=
  match new_name (company r) with
  | Some n => (fst acc ++ [set_company n r], S (snd acc))
  | None => (fst acc ++ [r], snd acc)
  end.

(** The frame after the loop and the number of changes.  [df] is the frame
    read from the CSV file, the blank first row of the file apart. *)
Definition fix_company_names_in_csv (df : list row) : list row * nat :=
  fold_left fix_row df ([], 0%nat).

(** What is written back to the file: nothing when no name changed. *)
Definition saved_file (df : list row) : option (list row) :=
  let '(fixed, changes_made) := fix_company_names_in_csv df in
  if (0 <? changes_made)%nat then Some fixed else None.

(** *** Notions the properties are stated with *)

(** One row after the loop. *)
Definition fix_one (r : row) : row :=
  match new_name (company r) with
  | Some n => set_company n r
  | None => r
  end.

Definition has_markdown (r : row) : bool :=
  match new_name (company r) with
  | Some _ => true
  | None => false
  end.

(** The company cell of an update file written in markdown: the name in
    bold, and in a parenthesis the acronym as a link. *)
Definition markdown_cell (name acr link : pystr) : pystr :=
  str "**" ++ name ++ str "** ([" ++ acr ++ str "](" ++ link ++ str "))".

(** The company that the updater makes of such a cell: its second group
    ends at the first closing parenthesis, and is stripped. *)
Definition stored_markdown (name acr link : pystr) : pystr :=
  str "**" ++ name ++ str "** ([" ++ acr ++ str "]"
  ++ rstrip (lparen :: link) ++ str ")".

End Fixer.

(** ** Data of the examples *)

(** A reader of [nan], [inf] and plain decimal numerals, [12], [1.5],
    [-0.25]: the part of [float] that the examples use.  A numeral of at
    most fifteen digits is the quotient of two integers that are floats
    themselves, and the division rounds it as [float] does. *)
Definition split_sign (s : pystr) : bool * pystr :=
  match s with
  | 45%N :: s' => (true, s')
  | 43%N :: s' => (false, s')
  | _ => (false, s)
  end.

Definition decimal_float (s : pystr) : option pyfloat :=
  let '(neg, body) := split_sign s in
  let signed (x : pyfloat) := if neg then SFopp x else x in
  if pystr_eqb body (str "nan") then Some float_nan
  else if pystr_eqb body (str "inf") then Some (signed (S754_infinity false))
  else
    match split 46 body with
    | [ip] =>
        if forallb is_digit ip && negb (bool_decide (ip = []))
        then Some (signed (float_of_Z (digits_val ip))) else None
    | [ip; fp] =>
        if forallb is_digit ip && forallb is_digit fp
           && negb (bool_decide (ip ++ fp = []))
        then Some (signed (float_div (float_of_Z (digits_val (ip ++ fp)))
                             (float_of_Z (10 ^ Z.of_nat (length fp)))))
        else None
    | _ => None
    end.

Definition alpha : pystr := str "Alpha (ALP)".
Definition beta : pystr := str "Beta (BET)".

Definition date_2024_03_01 : date := mk_date 2024 3 1.

(** The scenario of the specification: two dividends of Alpha, on 15 March
    of 2022 and of 2023. *)
Definition alpha_history : Predictor.frame :=
  [ Predictor.mk_row alpha (Some (mk_date 2022 3 15)) 1;
    Predictor.mk_row alpha (Some (mk_date 2023 3 15)) (12 # 10) ].

(** The same history with a dividend eleven days before 1 March 2024. *)
Definition alpha_recent : Predictor.row :=
  Predictor.mk_row alpha (Some (mk_date 2024 2 19)) (13 # 10).

(** The same history with a dividend dated after 1 March 2024. *)
Definition alpha_future : Predictor.row :=
  Predictor.mk_row alpha (Some (mk_date 2024 6 1)) (13 # 10).

(** Two rows of one company on the same day of the same year. *)
Definition same_day_twice : Predictor.frame :=
  [ Predictor.mk_row alpha (Some (mk_date 2022 3 15)) 1;
    Predictor.mk_row alpha (Some (mk_date 2022 3 15)) 2 ].

(** A pattern seen five times, last in 2024. *)
Definition five_times_2024 : Predictor.pattern :=
  Predictor.mk_pattern 3 15 5 2024 1 [2020; 2021; 2022; 2023; 2024].

(** The pattern of the scenario: 15 March, seen in 2022 and 2023. *)
Definition alpha_march_15 : Predictor.pattern :=
  Predictor.mk_pattern 3 15 2 2023 (11 # 10) [2022; 2023].

(** A pattern on 29 February next to one on 1 March. *)
Definition leap_day_patterns : list (pystr * list Predictor.pattern) :=
  [ (alpha, [ Predictor.mk_pattern 2 29 2 2020 1 [2016; 2020];
              Predictor.mk_pattern 3 1 2 2022 1 [2021; 2022] ]) ].

Definition date_2023_02_20 : date := mk_date 2023 2 20.

(** A stored row of Beta and a new row of Alpha with its date and amount. *)
Definition beta_stored : Updater.row :=
  Updater.mk_row beta (Some (str "15.03.2024")) (float_of_Z 1) []
                 (str "20.03.2024") [] (str "2024-03-15").

Definition alpha_new : Updater.row :=
  Updater.mk_row alpha (Some (str "15.03.2024")) (float_of_Z 1) []
                 (str "20.03.2024") [] (str "2024-03-15").

(** Lines of an update file. *)
Definition line_alpha_alp : pystr :=
  str "| |Alpha (ALP)|15.03.2024|1.5|x|20.03.2024|3%|".
Definition line_alpha_xyz : pystr :=
  str "| |Alpha (XYZ)|15.03.2024|1.5|x|20.03.2024|3%|".
Definition line_alpha_short_date : pystr :=
  str "| |Alpha (ALP)|15.3.2024|1.5|x|20.03.2024|3%|".
Definition line_no_ex_date : pystr :=
  str "| |Alpha (ALP)||1.5|x|20.03.2024|3%|".
Definition line_open_paren : pystr :=
  str "| |Alpha (|15.03.2024|1.5|x|20.03.2024|3%|".

Definition line_nan : pystr :=
  str "| |Alpha (ALP)|15.03.2024|nan|x|20.03.2024|3%|".

Definition cells_no_ex_date : list pystr :=
  [ []; alpha; []; str "1.5"; str "x"; str "20.03.2024"; str "3%" ].

Definition cells_zero_amount : list pystr :=
  [ []; alpha; str "15.03.2024"; str "0.0"; str "x"; str "20.03.2024";
    str "3%" ].

(** A new row of Alpha named as a markdown cell is stored. *)
Definition alpha_starred : Updater.row :=
  Updater.mk_row (str "**Alpha** ([ALP](x)") (Some (str "15.03.2024"))
                 (float_of_Z 1) [] (str "20.03.2024") [] (str "2024-03-15").

(** The parts of a markdown cell, and a line with that cell. *)
Definition name_alpha : pystr := str "Alpha".
Definition code_alp : pystr := str "ALP".
Definition link_alp : pystr := str "https://example.org/alp".

Definition line_markdown : pystr :=
  str "| |**Alpha** ([ALP](https://example.org/alp))|15.03.2024|1.5|x|20.03.2024|3%|".

(** ** Properties *)

(** *** Calendar arithmetic *)

Lemma days_before_year_succ y :
  days_before_year (y + 1)
  = days_before_year y + 365 + (if is_leap y then 1 else 0).
Proof.
  unfold days_before_year, is_leap.
  replace (y + 1 - 1) with y by lia.
  destruct (y mod 4 =? 0) eqn:E4; destruct (y mod 100 =? 0) eqn:E100;
    destruct (y mod 400 =? 0) eqn:E400; cbn [andb orb negb];
    rewrite ?Z.eqb_eq, ?Z.eqb_neq in *;
    Z.div_mod_to_equations; lia.
Qed.

Lemma days_before_year_mono y1 y2 :
  y1 < y2 -> days_before_year y1 + 365 * (y2 - y1) <= days_before_year y2.
Proof.
  intros H.
  assert (G : forall n, 0 <= n ->
            days_before_year y1 + 365 * n <= days_before_year (y1 + n)).
  { apply natlike_ind.
    - replace (y1 + 0) with y1 by lia. lia.
    - intros n Hn IH. replace (y1 + Z.succ n) with (y1 + n + 1) by lia.
      rewrite days_before_year_succ. destruct (is_leap (y1 + n)); lia. }
  specialize (G (y2 - y1) ltac:(lia)).
  replace (y1 + (y2 - y1)) with y2 in G by lia. exact G.
Qed.

Ltac month_cases m :=
  let H := fresh in
  assert (H : m = 1 \/ m = 2 \/ m = 3 \/ m = 4 \/ m = 5 \/ m = 6 \/ m = 7
              \/ m = 8 \/ m = 9 \/ m = 10 \/ m = 11 \/ m = 12) by lia;
  repeat (destruct H as [H|H]); subst m.

Lemma days_before_month_next y m :
  1 <= m <= 11 ->
  days_before_month y (m + 1) = days_before_month y m + days_in_month y m.
Proof.
  intros H. unfold days_before_month, days_in_month.
  month_cases m; try lia; destruct (is_leap y); reflexivity.
Qed.

Lemma days_in_month_bounds y m : 1 <= m <= 12 -> 28 <= days_in_month y m <= 31.
Proof.
  intros H. unfold days_in_month.
  month_cases m; destruct (is_leap y); cbv - [Z.le]; lia.
Qed.

Lemma days_before_month_mono y m1 m2 :
  1 <= m1 -> m1 < m2 -> m2 <= 12 ->
  days_before_month y m1 + days_in_month y m1 <= days_before_month y m2.
Proof.
  intros H1 H12 H2.
  assert (G : forall n, 0 <= n -> m1 + 1 + n <= 12 ->
            days_before_month y m1 + days_in_month y m1
            <= days_before_month y (m1 + 1 + n)).
  { apply (natlike_ind (fun n => m1 + 1 + n <= 12 -> _)).
    - intros _. replace (m1 + 1 + 0) with (m1 + 1) by lia.
      rewrite days_before_month_next by lia. lia.
    - intros n Hn IH Hle.
      replace (m1 + 1 + Z.succ n) with (m1 + 1 + n + 1) by lia.
      rewrite days_before_month_next by lia.
      pose proof (days_in_month_bounds y (m1 + 1 + n) ltac:(lia)). lia. }
  specialize (G (m2 - m1 - 1) ltac:(lia) ltac:(lia)).
  replace (m1 + 1 + (m2 - m1 - 1)) with m2 in G by lia. exact G.
Qed.

Lemma days_before_month_december y :
  days_before_month y 12 + 31 = 365 + (if is_leap y then 1 else 0).
Proof. unfold days_before_month. cbn. destruct (is_leap y); reflexivity. Qed.

Lemma days_before_month_nonneg y m : 0 <= days_before_month y m.
Proof.
  unfold days_before_month.
  destruct ((2 <? m) && is_leap y);
  (destruct (Z.to_nat m) as [|[|[|[|[|[|[|[|[|[|[|[|[|n]]]]]]]]]]]]];
   cbn [nth]; try lia; destruct n; cbn; lia).
Qed.

Lemma valid_date_bounds d :
  valid_date d = true ->
  1 <= year d <= 9999 /\ 1 <= month d <= 12
  /\ 1 <= day d <= days_in_month (year d) (month d).
Proof.
  unfold valid_date, valid_ymd. rewrite !andb_true_iff, !Z.leb_le. tauto.
Qed.

Lemma day_of_year_bounds d :
  valid_date d = true ->
  1 <= days_before_month (year d) (month d) + day d
    <= 365 + (if is_leap (year d) then 1 else 0).
Proof.
  intros H. apply valid_date_bounds in H as (_ & Hm & Hd).
  pose proof (days_before_month_nonneg (year d) (month d)).
  split; [lia|]. rewrite <- days_before_month_december.
  destruct (Z.eq_dec (month d) 12) as [E|E].
  - rewrite E in *. unfold days_in_month in Hd. cbn in Hd.
    change (Z.to_nat 12) with 12%nat in Hd. cbn in Hd. lia.
  - pose proof (days_before_month_mono (year d) (month d) 12
                  ltac:(lia) ltac:(lia) ltac:(lia)).
    lia.
Qed.

Lemma toordinal_lex_lt a b :
  valid_date a = true -> valid_date b = true ->
  date_lex_lt a b -> toordinal a < toordinal b.
Proof.
  intros Ha Hb H. unfold toordinal.
  pose proof (day_of_year_bounds a Ha) as Da.
  pose proof (day_of_year_bounds b Hb) as Db.
  apply valid_date_bounds in Ha as (_ & Hma & Hda).
  apply valid_date_bounds in Hb as (_ & Hmb & Hdb).
  destruct H as [H|[E [H|[E2 H]]]].
  - pose proof (days_before_year_succ (year a)) as S.
    destruct (Z.eq_dec (year a + 1) (year b)) as [E|E].
    + rewrite <- E in *. lia.
    + pose proof (days_before_year_mono (year a + 1) (year b) ltac:(lia)). lia.
  - rewrite <- E in *.
    pose proof (days_before_month_mono (year a) (month a) (month b)
                  ltac:(lia) H ltac:(lia)).
    lia.
  - rewrite <- E, <- E2. lia.
Qed.

(** On calendar dates the order of the ordinals is the field-wise order of
    year, month and day. *)
Lemma date_order_lexicographic a b :
  valid_date a = true -> valid_date b = true ->
  (toordinal a <= toordinal b <-> date_lex_le a b).
Proof.
  intros Ha Hb. split.
  - intros H. destruct (Z_lt_le_dec (year a) (year b)) as [Hy|Hy]; [now left|].
    destruct (Z.eq_dec (year a) (year b)) as [Ey|Ny].
    + right. split; [exact Ey|].
      destruct (Z_lt_le_dec (month a) (month b)) as [Hm|Hm]; [now left|].
      destruct (Z.eq_dec (month a) (month b)) as [Em|Nm].
      * right. split; [exact Em|].
        destruct (Z_le_gt_dec (day a) (day b)) as [Hd|Hd]; [exact Hd|].
        assert (L : date_lex_lt b a) by (right; split; [lia|right; split; lia]).
        pose proof (toordinal_lex_lt b a Hb Ha L). lia.
      * assert (L : date_lex_lt b a) by (right; split; [lia|left; lia]).
        pose proof (toordinal_lex_lt b a Hb Ha L). lia.
    + assert (L : date_lex_lt b a) by (left; lia).
      pose proof (toordinal_lex_lt b a Hb Ha L). lia.
  - intros [H|[E [H|[E2 H]]]].
    + apply Z.lt_le_incl, toordinal_lex_lt; trivial. now left.
    + apply Z.lt_le_incl, toordinal_lex_lt; trivial.
      right. split; [exact E|now left].
    + unfold toordinal. rewrite E, E2. lia.
Qed.

(** The same month and day in a later year is a later date. *)
Lemma toordinal_year_mono y1 y2 m d :
  y1 <= y2 -> toordinal (mk_date y1 m d) <= toordinal (mk_date y2 m d).
Proof.
  intros H. unfold toordinal. cbn [year month day].
  destruct (Z.eq_dec y1 y2) as [->|Hne]; [lia|].
  pose proof (days_before_year_mono y1 y2 ltac:(lia)).
  assert (days_before_month y1 m <= days_before_month y2 m + 1).
  { unfold days_before_month. destruct (_ && _), (_ && _); lia. }
  lia.
Qed.

Lemma add_days_Some d n o : add_days d n = Some o -> o = toordinal d + n.
Proof. unfold add_days. destruct (_ && _); congruence. Qed.

(** *** Dates as text *)

Lemma digit_char_is_digit z : is_digit (digit_char z) = true.
Proof.
  unfold is_digit, digit_char.
  pose proof (Z.mod_pos_bound z 10 ltac:(lia)) as H.
  apply andb_true_iff. split; apply N.leb_le; lia.
Qed.

Lemma digit_val_digit_char z : digit_val (digit_char z) = z mod 10.
Proof.
  unfold digit_val, digit_char.
  pose proof (Z.mod_pos_bound z 10 ltac:(lia)) as H. lia.
Qed.

Lemma is_digit_not_dot c : is_digit c = true -> (c =? 46)%N = false.
Proof.
  unfold is_digit. rewrite andb_true_iff, !N.leb_le, N.eqb_neq. lia.
Qed.

Lemma split_digits_dot a rest :
  forallb is_digit a = true -> split 46 (a ++ 46%N :: rest) = a :: split 46 rest.
Proof.
  induction a as [|c a IH]; intros H; [reflexivity|].
  cbn [forallb] in H. apply andb_true_iff in H as [Hc Ha].
  cbn [app split]. rewrite (is_digit_not_dot c Hc), (IH Ha). reflexivity.
Qed.

Lemma split_digits a : forallb is_digit a = true -> split 46 a = [a].
Proof.
  induction a as [|c a IH]; intros H; [reflexivity|].
  cbn [forallb] in H. apply andb_true_iff in H as [Hc Ha].
  cbn [split]. rewrite (is_digit_not_dot c Hc), (IH Ha). reflexivity.
Qed.

Lemma decimal_value_digit_char z : decimal_value (digit_char z) = Some (z mod 10).
Proof.
  unfold digit_char. pose proof (Z.mod_pos_bound z 10 ltac:(lia)) as H.
  assert (E : z mod 10 = 0 \/ z mod 10 = 1 \/ z mod 10 = 2 \/ z mod 10 = 3
              \/ z mod 10 = 4 \/ z mod 10 = 5 \/ z mod 10 = 6 \/ z mod 10 = 7
              \/ z mod 10 = 8 \/ z mod 10 = 9) by lia.
  repeat (destruct E as [E|E]); rewrite E; reflexivity.
Qed.

Lemma digit_char_is_decimal z : is_decimal (digit_char z) = true.
Proof. unfold is_decimal. now rewrite decimal_value_digit_char. Qed.

Lemma decimal_val_digit_char z : decimal_val (digit_char z) = z mod 10.
Proof. unfold decimal_val. now rewrite decimal_value_digit_char. Qed.

Lemma pad2_digits z : forallb is_digit (pad2 z) = true.
Proof. unfold pad2. cbn [forallb]. now rewrite !digit_char_is_digit. Qed.

Lemma pad4_digits z : forallb is_digit (pad4 z) = true.
Proof. unfold pad4. cbn [forallb]. now rewrite !digit_char_is_digit. Qed.

Lemma parse_year_pad4 y : 0 <= y <= 9999 -> parse_year (pad4 y) = Some y.
Proof.
  intros H. unfold parse_year, pad4. cbn [forallb].
  rewrite !digit_char_is_decimal. cbn [andb]. f_equal.
  unfold int_of_digits. cbn [fold_left]. rewrite !decimal_val_digit_char.
  Z.div_mod_to_equations. lia.
Qed.

Lemma parse_day_pad2 d : 1 <= d <= 31 -> parse_day (pad2 d) = Some d.
Proof.
  intros H.
  destruct d as [|p|p]; try lia.
  do 5 (try (destruct p as [p|p|]; try lia; try reflexivity)).
Qed.

Lemma parse_month_pad2 m : 1 <= m <= 12 -> parse_month (pad2 m) = Some m.
Proof.
  intros H.
  destruct m as [|p|p]; try lia.
  do 4 (try (destruct p as [p|p|]; try lia; try reflexivity)).
Qed.

(** A date written with [%d.%m.%Y] reads back as itself. *)
Lemma strptime_strftime d : valid_date d = true -> strptime (strftime d) = Some d.
Proof.
  intros Hv. pose proof (valid_date_bounds d Hv) as (Hy & Hm & Hd).
  pose proof (days_in_month_bounds (year d) (month d) Hm).
  unfold strptime, strftime. cbn [app].
  change (pad2 (day d) ++ 46%N :: pad2 (month d) ++ 46%N :: pad4 (year d))
    with (pad2 (day d) ++ 46%N :: (pad2 (month d) ++ 46%N :: pad4 (year d))).
  rewrite (split_digits_dot _ _ (pad2_digits _)),
    (split_digits_dot _ _ (pad2_digits _)), (split_digits _ (pad4_digits _)).
  rewrite parse_day_pad2, parse_month_pad2, parse_year_pad4 by lia.
  unfold make_date. unfold valid_date in Hv. rewrite Hv. now destruct d.
Qed.

Lemma strptime_valid s d : strptime s = Some d -> valid_date d = true.
Proof.
  unfold strptime.
  destruct (split 46 s) as [|ds [|ms [|ys [|]]]]; try discriminate.
  destruct (parse_day ds), (parse_month ms), (parse_year ys); try discriminate.
  unfold make_date. destruct (valid_ymd _ _ _) eqn:E; [|discriminate].
  intros H. injection H as <-. exact E.
Qed.

(** *** Strings and lists *)

Lemma pystr_eqb_eq a b : pystr_eqb a b = true <-> a = b.
Proof. unfold pystr_eqb. apply bool_decide_eq_true. Qed.

Lemma pystr_eqb_neq a b : pystr_eqb a b = false <-> a <> b.
Proof. unfold pystr_eqb. apply bool_decide_eq_false. Qed.

Lemma pystr_eqb_refl a : pystr_eqb a a = true.
Proof. now apply pystr_eqb_eq. Qed.

Lemma filter_length_perm {A} (f : A -> bool) l l' :
  Permutation l l' -> length (List.filter f l) = length (List.filter f l').
Proof.
  induction 1; simpl; try congruence.
  - destruct (f x); simpl; congruence.
  - destruct (f x), (f y); simpl; congruence.
Qed.

Lemma filter_nil_forall {A} (f : A -> bool) l :
  List.filter f l = [] -> forall x, In x l -> f x = false.
Proof.
  induction l as [|y l IH]; simpl; [tauto|].
  destruct (f y) eqn:E; [discriminate|]. intros H x [<-|Hx]; auto.
Qed.

Lemma existsb_filter {A} (f : A -> bool) l :
  existsb f l = match List.filter f l with [] => false | _ => true end.
Proof.
  induction l as [|y l IH]; simpl; [reflexivity|].
  destruct (f y); simpl; [reflexivity|exact IH].
Qed.

Lemma flat_map_filter_nil {A B} (f : A -> list B) (keep : A -> bool) l :
  (forall x, keep x = false -> f x = []) ->
  flat_map f (List.filter keep l) = flat_map f l.
Proof.
  intros H. induction l as [|x l IH]; [reflexivity|].
  cbn [List.filter flat_map]. destruct (keep x) eqn:E.
  - cbn [flat_map]. now rewrite IH.
  - now rewrite (H x E), IH.
Qed.

(** *** Rounding *)

Lemma round_half_even_inject_Z (n : Z) : round_half_even (inject_Z n) = n.
Proof.
  unfold round_half_even. rewrite Qfloor_Z.
  assert (H : (inject_Z n - inject_Z n ?= 1 # 2)%Q = Lt).
  { rewrite <- Qlt_alt. ring_simplify (inject_Z n - inject_Z n)%Q. reflexivity. }
  now rewrite H.
Qed.

#[global] Instance round_half_even_proper : Proper (Qeq ==> eq) round_half_even.
Proof.
  intros a b Hab. unfold round_half_even.
  rewrite (Qfloor_comp _ _ Hab).
  assert (H : (a - inject_Z (Qfloor b) ?= 1 # 2)%Q
              = (b - inject_Z (Qfloor b) ?= 1 # 2)%Q).
  { apply Qcompare_comp; [now rewrite Hab | reflexivity]. }
  now rewrite H.
Qed.

#[global] Instance py_round1_proper : Proper (Qeq ==> Qeq) py_round1.
Proof. intros a b Hab. unfold py_round1. now rewrite Hab. Qed.

(** Rounding to one decimal leaves a whole number as it is. *)
Lemma py_round1_integer (q : Q) (n : Z) :
  (q == inject_Z n -> py_round1 q == q)%Q.
Proof.
  intros H. unfold py_round1.
  assert (E : (q * 10 == inject_Z (n * 10))%Q).
  { rewrite H, inject_Z_mult. reflexivity. }
  rewrite E, round_half_even_inject_Z, inject_Z_mult, H. field.
Qed.

(** The result of rounding has one decimal: ten times it is whole. *)
Lemma py_round1_one_decimal (q : Q) :
  (py_round1 q * 10 == inject_Z (round_half_even (q * 10)))%Q.
Proof. unfold py_round1. field. Qed.

Lemma Qdiv_5 (q : Q) : (q / 5 == q * (1 # 5))%Q.
Proof. field. Qed.

(** *** The confidence score *)

Import Predictor.

Lemma frequency_score_cases p :
  ((Z.of_nat (frequency p) < 5)%Z
   /\ frequency_score p == inject_Z (Z.of_nat (frequency p)) / 5
   \/ (5 <= Z.of_nat (frequency p))%Z /\ frequency_score p == 1)%Q.
Proof.
  unfold frequency_score.
  destruct (Z_lt_le_dec (Z.of_nat (frequency p)) 5) as [H|H]; [left|right];
    split; trivial.
  - apply Q.min_l. rewrite Zlt_Qlt in H. change (inject_Z 5) with 5%Q in H.
    rewrite Qdiv_5. lra.
  - apply Q.min_r. rewrite Zle_Qle in H. change (inject_Z 5) with 5%Q in H.
    rewrite Qdiv_5. lra.
Qed.

Lemma recency_score_cases p y :
  ((y - last_year p - 1 < 5)%Z
   /\ recency_score p y == 1 - inject_Z (y - last_year p - 1) * (2 # 10)
   \/ (5 <= y - last_year p - 1)%Z /\ recency_score p y == 0)%Q.
Proof.
  unfold recency_score.
  destruct (Z_lt_le_dec (y - last_year p - 1) 5) as [H|H]; [left|right];
    split; trivial.
  - apply Q.max_r. rewrite Zlt_Qlt in H. change (inject_Z 5) with 5%Q in H. lra.
  - apply Q.max_l. rewrite Zle_Qle in H. change (inject_Z 5) with 5%Q in H. lra.
Qed.

(** Before rounding the confidence is a whole number: 14 points for each
    occurrence up to five, and 36 points less 6 for each year since the last
    one, never less than none. *)
Lemma raw_confidence_integer p y :
  (raw_confidence p y ==
   inject_Z (14 * Z.min (Z.of_nat (frequency p)) 5
             + Z.max 0 (36 - 6 * (y - last_year p))))%Q.
Proof.
  unfold raw_confidence.
  replace (36 - 6 * (y - last_year p))%Z
    with (30 + (-6) * (y - last_year p - 1))%Z by lia.
  destruct (frequency_score_cases p) as [[Hf Ef]|[Hf Ef]];
  destruct (recency_score_cases p y) as [[Hr Er]|[Hr Er]]; rewrite Ef, Er;
  [ rewrite Z.min_l, Z.max_r by lia | rewrite Z.min_l, Z.max_l by lia
  | rewrite Z.min_r, Z.max_r by lia | rewrite Z.min_r, Z.max_l by lia ];
  rewrite ?inject_Z_plus, ?inject_Z_mult;
  change (inject_Z 14) with 14%Q; change (inject_Z 0) with 0%Q;
  change (inject_Z 30) with 30%Q; change (inject_Z (-6)) with (-6)%Q;
  change (inject_Z 5) with 5%Q;
  generalize (inject_Z (Z.of_nat (frequency p)));
  generalize (inject_Z (y - last_year p - 1)); intros; field.
Qed.

Lemma calculate_confidence_raw p y :
  (calculate_confidence p y == raw_confidence p y)%Q.
Proof.
  unfold calculate_confidence.
  apply (py_round1_integer _ _ (raw_confidence_integer p y)).
Qed.

Lemma recency_score_nonneg p y : (0 <= recency_score p y)%Q.
Proof. unfold recency_score. apply Q.le_max_l. Qed.

Lemma frequency_score_bounds p : (0 <= frequency_score p <= 1)%Q.
Proof.
  destruct (frequency_score_cases p) as [[H E]|[H E]]; rewrite E; [|lra].
  pose proof (Zle_0_nat (frequency p)) as H0.
  rewrite Zlt_Qlt in H. rewrite Zle_Qle in H0.
  change (inject_Z 5) with 5%Q in H. change (inject_Z 0) with 0%Q in H0.
  rewrite Qdiv_5. lra.
Qed.

(** The confidence is never negative, whatever the pattern and the year. *)
Lemma calculate_confidence_nonneg p y : (0 <= calculate_confidence p y)%Q.
Proof.
  rewrite calculate_confidence_raw. unfold raw_confidence.
  pose proof (frequency_score_bounds p). pose proof (recency_score_nonneg p y).
  lra.
Qed.

(** After the last year of the pattern the confidence is at most 100. *)
Lemma calculate_confidence_le_100 p y :
  last_year p < y -> (calculate_confidence p y <= 100)%Q.
Proof.
  intros H. rewrite calculate_confidence_raw. unfold raw_confidence.
  pose proof (frequency_score_bounds p) as Hf.
  assert (Hr : (recency_score p y <= 1)%Q); [|lra].
  destruct (recency_score_cases p y) as [[H1 E]|[H1 E]]; rewrite E; [|lra].
  assert (Hy : (0 <= y - last_year p - 1)%Z) by lia.
  rewrite Zle_Qle in Hy. change (inject_Z 0) with 0%Q in Hy. lra.
Qed.

(** C6, as stated, fails: for a pattern last seen in the candidate year the
    recency score is 1.2, above 1.0, and with five occurrences the confidence
    is 106, above 100.  The floor [max(0, ...)] bounds the score from below
    only. *)
Lemma confidence_above_100 :
  (recency_score five_times_2024 2024 == 12 # 10
   /\ ~ recency_score five_times_2024 2024 <= 1
   /\ calculate_confidence five_times_2024 2024 == 106
   /\ ~ calculate_confidence five_times_2024 2024 <= 100)%Q.
Proof. repeat split; vm_compute; congruence. Qed.

(** C6 (amended).  For every pattern and every candidate year later than the
    last year of the pattern, the confidence is
    [round((0.7 * min(frequency / 5, 1)
            + 0.3 * max(0, 1 - (candidateYear - last_year - 1) * 0.2)) * 100, 1)],
    the recency score lies between 0 and 1, and the confidence lies between
    0 and 100 and has one decimal. *)
Theorem confidence_formula_and_range (p : pattern) (candidate_year : Z) :
  (last_year p < candidate_year)%Z ->
  let frequencyScore := Qmin (inject_Z (Z.of_nat (frequency p)) / 5) 1 in
  let recencyScore :=
    Qmax 0 (1 - inject_Z (candidate_year - last_year p - 1) * (2 # 10)) in
  (calculate_confidence p candidate_year
   == py_round1 (((7 # 10) * frequencyScore + (3 # 10) * recencyScore) * 100)
   /\ 0 <= recencyScore <= 1
   /\ 0 <= calculate_confidence p candidate_year <= 100
   /\ exists n : Z, calculate_confidence p candidate_year * 10 == inject_Z n)%Q.
Proof.
  intros Hlast frequencyScore recencyScore.
  change frequencyScore with (frequency_score p).
  change recencyScore with (recency_score p candidate_year).
  assert (Hr : (0 <= recency_score p candidate_year <= 1)%Q).
  { split; [apply recency_score_nonneg|].
    destruct (recency_score_cases p candidate_year) as [[H E]|[H E]];
      rewrite E; [|lra].
    assert (H0 : (0 <= candidate_year - last_year p - 1)%Z) by lia.
    rewrite Zle_Qle in H0. change (inject_Z 0) with 0%Q in H0. lra. }
  split; [|split; [exact Hr|split]].
  - unfold calculate_confidence. apply py_round1_proper.
    unfold raw_confidence. ring.
  - split; [apply calculate_confidence_nonneg|].
    rewrite calculate_confidence_raw. unfold raw_confidence.
    pose proof (frequency_score_bounds p). lra.
  - eexists. unfold calculate_confidence. apply py_round1_one_decimal.
Qed.

Lemma confidence_formula_and_range_witness :
  (last_year alpha_march_15 < 2024)%Z
  /\ (0 <= calculate_confidence alpha_march_15 2024 <= 100)%Q.
Proof.
  split; [reflexivity|].
  apply (confidence_formula_and_range alpha_march_15 2024).
  reflexivity.
Defined.

(** *** The pattern miner *)

Lemma insert_date_perm d l : Permutation (insert_date d l) (d :: l).
Proof.
  induction l as [|x l IH]; simpl; [reflexivity|].
  destruct (toordinal d <? toordinal x); [reflexivity|].
  rewrite IH. apply perm_swap.
Qed.

Lemma sort_dates_perm l : Permutation (sort_dates l) l.
Proof.
  unfold sort_dates.
  assert (G : forall acc,
            Permutation (fold_left (fun acc d => insert_date d acc) l acc)
                        (acc ++ l)).
  { induction l as [|d l IH]; intros acc; simpl.
    - now rewrite app_nil_r.
    - rewrite IH, insert_date_perm. apply Permutation_middle. }
  apply (G []).
Qed.

Lemma md_years_append m d k y groups :
  md_years m d (md_append k y groups) =
  if (fst k =? m) && (snd k =? d) then md_years m d groups ++ [y]
  else md_years m d groups.
Proof.
  unfold md_years. induction groups as [|[k' ys] groups IH]; simpl.
  - destruct ((fst k =? m) && (snd k =? d)); reflexivity.
  - destruct ((fst k' =? fst k) && (snd k' =? snd k)) eqn:E; simpl.
    + apply andb_true_iff in E as [E1 E2]. apply Z.eqb_eq in E1, E2.
      rewrite E1, E2.
      destruct ((fst k =? m) && (snd k =? d)); reflexivity.
    + destruct ((fst k' =? m) && (snd k' =? d)) eqn:E'; [|apply IH].
      destruct ((fst k =? m) && (snd k =? d)) eqn:E''; [|reflexivity].
      apply andb_true_iff in E' as [E1 E2]. apply Z.eqb_eq in E1, E2.
      apply andb_true_iff in E'' as [E3 E4]. apply Z.eqb_eq in E3, E4.
      rewrite E1, E2, E3, E4, !Z.eqb_refl in E. discriminate.
Qed.

(** The years grouped under a month and day are those of the dates that
    fall on it, in the order of the dates. *)
Lemma md_years_group m d dates :
  md_years m d (group_by_month_day dates)
  = List.map year (List.filter (date_on m d) dates).
Proof.
  unfold group_by_month_day.
  assert (G : forall acc,
    md_years m d
      (fold_left (fun acc dt => md_append (month dt, day dt) (year dt) acc)
                 dates acc)
    = md_years m d acc ++ List.map year (List.filter (date_on m d) dates)).
  { induction dates as [|dt dates IH]; intros acc; simpl.
    - now rewrite app_nil_r.
    - rewrite IH, md_years_append. unfold date_on at 2. simpl.
      destruct ((month dt =? m) && (day dt =? d)); simpl;
        [now rewrite <- app_assoc|reflexivity]. }
  apply (G []).
Qed.

Lemma md_append_keys k y groups :
  List.map key_of (md_append k y groups) =
  if existsb (fun g => (fst (fst g) =? fst k) && (snd (fst g) =? snd k)) groups
  then List.map key_of groups else List.map key_of groups ++ [k].
Proof.
  induction groups as [|[k' ys] groups IH]; simpl; [reflexivity|].
  destruct ((fst k' =? fst k) && (snd k' =? snd k)); simpl; [reflexivity|].
  rewrite IH. destruct (existsb _ groups); reflexivity.
Qed.

Lemma md_append_NoDup k y groups :
  NoDup (List.map key_of groups) ->
  NoDup (List.map key_of (md_append k y groups)).
Proof.
  intros H. rewrite md_append_keys.
  destruct (existsb _ groups) eqn:E; [exact H|].
  apply NoDup_app; repeat split; [exact H | | apply NoDup_singleton].
  intros x Hx Hx2. apply list_elem_of_singleton in Hx2 as ->.
  apply list_elem_of_In, in_map_iff in Hx as [g [Hg Hin]].
  assert (existsb (fun g => (fst (fst g) =? fst k) && (snd (fst g) =? snd k))
                  groups = true).
  { apply existsb_exists. exists g. split; [exact Hin|].
    unfold key_of in Hg. rewrite Hg, !Z.eqb_refl. reflexivity. }
  congruence.
Qed.

(** A month and day is the key of one group at most. *)
Lemma group_by_month_day_NoDup dates :
  NoDup (List.map key_of (group_by_month_day dates)).
Proof.
  unfold group_by_month_day.
  assert (G : forall acc, NoDup (List.map key_of acc) ->
    NoDup (List.map key_of
      (fold_left (fun acc dt => md_append (month dt, day dt) (year dt) acc)
                 dates acc))).
  { induction dates as [|dt dates IH]; intros acc Hacc; simpl; [exact Hacc|].
    apply IH, md_append_NoDup, Hacc. }
  apply G. constructor.
Qed.

Lemma md_years_absent m d groups :
  (m, d) ∉ List.map key_of groups -> md_years m d groups = [].
Proof.
  unfold md_years.
  induction groups as [|[[m2 d2] ys] groups IH]; simpl; [reflexivity|].
  intros H. destruct ((m2 =? m) && (d2 =? d)) eqn:E.
  - apply andb_true_iff in E as [E1 E2]. apply Z.eqb_eq in E1, E2. subst.
    exfalso. apply H. left.
  - apply IH. intros Hin. apply H. now right.
Qed.

Lemma frequent_count m d company_data groups :
  NoDup (List.map key_of groups) ->
  length (List.filter (is_month_day m d)
            (flat_map (fun g => if (2 <=? length (snd g))%nat
                                then [make_pattern company_data g] else [])
                      groups))
  = if (2 <=? length (md_years m d groups))%nat then 1%nat else 0%nat.
Proof.
  induction groups as [|[[m2 d2] ys] groups IH]; intros Hnd; [reflexivity|].
  cbn [flat_map List.map] in *.
  apply NoDup_cons in Hnd as [Hnotin Hnd].
  rewrite List.filter_app, length_app, (IH Hnd).
  unfold md_years at 2. cbn [List.find fst snd key_of] in *.
  assert (Hp : is_month_day m d (make_pattern company_data (m2, d2, ys))
               = (m2 =? m) && (d2 =? d)) by reflexivity.
  destruct ((m2 =? m) && (d2 =? d)) eqn:E.
  - apply andb_true_iff in E as [E1 E2]. apply Z.eqb_eq in E1, E2. subst m2 d2.
    rewrite md_years_absent by exact Hnotin. cbn [snd].
    destruct (2 <=? length ys)%nat; cbn [List.filter length]; [|reflexivity].
    rewrite Hp. reflexivity.
  - fold (md_years m d groups).
    destruct (2 <=? length ys)%nat; cbn [List.filter length]; [|reflexivity].
    rewrite Hp. reflexivity.
Qed.

Lemma filter_omap_dates m d (company_data : frame) :
  length (List.filter (date_on m d) (omap ex_date company_data))
  = occurrences m d company_data.
Proof.
  unfold occurrences. induction company_data as [|r l IH]; [reflexivity|].
  cbn [List.filter]. unfold on_month_day at 1.
  change (omap ex_date (r :: l))
    with (match ex_date r with
          | Some y => y :: omap ex_date l
          | None => omap ex_date l
          end).
  destruct (ex_date r) as [dt|]; [|exact IH].
  cbn [List.filter]. unfold date_on at 1.
  destruct ((month dt =? m) && (day dt =? d)); cbn [length]; congruence.
Qed.

(** C1, as stated, fails: two rows of a company on 15 March 2022 are a
    group with one distinct year, and the miner makes a pattern of it. *)
Lemma one_year_group_is_retained :
  distinct_years 3 15 same_day_twice = 1%nat
  /\ exists p,
       analyze_company_pattern_with_freq same_day_twice alpha 2 = Some [p]
       /\ pat_month p = 3 /\ pat_day p = 15 /\ frequency p = 2%nat
       /\ years p = [2022; 2022].
Proof.
  split; [reflexivity|].
  eexists. split; [vm_compute; reflexivity|]. repeat split.
Qed.

(** C1 (amended).  For every frame of a company and every minFrequency, the
    miner makes no pattern when the frame has fewer than minFrequency dated
    rows, and otherwise makes, for every month and day, exactly one pattern
    when at least two dated rows fall on it (rows, not years: two rows on
    one date count twice) and none when fewer do. *)
Theorem one_pattern_per_repeated_month_day
  (company_data : frame) (company_name : pystr) (min_frequency m d : Z) :
  length (List.filter (is_month_day m d)
            (patterns_of (analyze_company_pattern_with_freq
                            company_data company_name min_frequency)))
  = if Z.of_nat (length (omap ex_date company_data)) <? min_frequency
    then 0%nat
    else if (2 <=? occurrences m d company_data)%nat then 1%nat else 0%nat.
Proof.
  unfold analyze_company_pattern_with_freq.
  rewrite (Permutation_length (sort_dates_perm _)).
  destruct (Z.of_nat (length (omap ex_date company_data)) <? min_frequency);
    [reflexivity|].
  pose proof (frequent_count m d company_data _
                (group_by_month_day_NoDup
                   (sort_dates (omap ex_date company_data)))) as H.
  rewrite md_years_group, length_map,
    (filter_length_perm _ _ _ (sort_dates_perm _)), filter_omap_dates in H.
  destruct (flat_map _ _) eqn:E; simpl in *; exact H.
Qed.

(** When no two rows of the company have the same date, the rows on a month
    and day are as many as the different years among them, and the amended
    statement is the stated one. *)
Lemma occurrences_distinct_years (company_data : frame) (m d : Z) :
  List.NoDup (omap ex_date company_data) ->
  occurrences m d company_data = distinct_years m d company_data.
Proof.
  intros Hnd. unfold distinct_years. rewrite <- filter_omap_dates.
  rewrite nodup_fixed_point; [now rewrite length_map|].
  induction (omap ex_date company_data) as [|dt dates IH]; [constructor|].
  inversion Hnd as [|? ? Hnotin Hnd']; subst.
  cbn [List.filter]. destruct (date_on m d dt) eqn:E; [|now apply IH].
  cbn [List.map]. constructor; [|now apply IH].
  intros Hin. apply in_map_iff in Hin as [dt' [Hy Hin]].
  apply filter_In in Hin as [Hin E'].
  unfold date_on in E, E'.
  apply andb_true_iff in E as [E1 E2]. apply andb_true_iff in E' as [E3 E4].
  apply Z.eqb_eq in E1, E2, E3, E4.
  apply Hnotin. replace dt with dt'; [exact Hin|].
  destruct dt, dt'. cbn in *. congruence.
Qed.

(** *** The scenario *)

(** C2.  With the two dividends of Alpha on 15 March 2022 and 2023 (1.0 and
    1.2), minFrequency 2, today 1 March 2024 and a horizon of 30 days, the
    miner followed by the predictor returns one prediction: Alpha,
    15.03.2024, 14 days ahead, frequency 2, last occurrence 2023, average
    dividend 1.1, confidence 58.0. *)
Theorem scenario_alpha :
  exists p,
    pipeline alpha_history 2 30 date_2024_03_01 = Some [p]
    /\ pred_company p = str "Alpha (ALP)"
    /\ predicted_ex_date p = mk_date 2024 3 15
    /\ strftime (predicted_ex_date p) = str "15.03.2024"
    /\ days_until p = 14
    /\ pred_frequency p = 2%nat
    /\ last_occurrence p = 2023
    /\ (pred_avg_dividend p == 11 # 10)%Q
    /\ (confidence p == 58)%Q.
Proof.
  eexists. split; [vm_compute; reflexivity|]. repeat split.
Qed.

(** *** Companies with a recent announcement *)

Lemma dict_get_set_ne {V} (k k2 : pystr) (v : V) m :
  k <> k2 -> dict_get k (dict_set k2 v m) = dict_get k m.
Proof.
  intros Hne. induction m as [|[k3 w] m IH]; simpl.
  - destruct (pystr_eqb k2 k) eqn:E; [|reflexivity].
    apply pystr_eqb_eq in E. congruence.
  - destruct (pystr_eqb k3 k2) eqn:E; simpl.
    + apply pystr_eqb_eq in E. subst k3.
      destruct (pystr_eqb k2 k) eqn:E2; [|reflexivity].
      apply pystr_eqb_eq in E2. congruence.
    + destruct (pystr_eqb k3 k); [reflexivity|exact IH].
Qed.

Lemma dict_get_None_keys {V} (k : pystr) (m : list (pystr * V)) :
  dict_get k m = None -> ~ In k (List.map fst m).
Proof.
  induction m as [|[k2 w] m IH]; simpl; [tauto|].
  destruct (pystr_eqb k2 k) eqn:E; [discriminate|].
  apply pystr_eqb_neq in E. intros H [H2|H2]; [congruence|]. now apply IH.
Qed.

(** The turn of one company leaves the entries of the others alone. *)
Lemma analyze_company_other df min_frequency cutoff acc c c2 :
  c <> c2 ->
  dict_get c (analyze_company df min_frequency cutoff acc c2) = dict_get c acc.
Proof.
  intros Hne. unfold analyze_company.
  destruct (Z.of_nat _ <? min_frequency); [reflexivity|].
  destruct (List.filter (is_recent cutoff) _); [|reflexivity].
  destruct (analyze_company_pattern_with_freq _ _ _) as [[|p ps]|];
    try reflexivity.
  now apply dict_get_set_ne.
Qed.

(** The turn of a company with a recent row changes nothing. *)
Lemma analyze_company_recent df min_frequency cutoff acc r :
  In r df -> is_recent cutoff r = true ->
  analyze_company df min_frequency cutoff acc (company r) = acc.
Proof.
  intros Hin Hrec. unfold analyze_company.
  destruct (Z.of_nat _ <? min_frequency); [reflexivity|].
  destruct (List.filter (is_recent cutoff) _) eqn:E; [|reflexivity].
  assert (H : In r (List.filter (is_recent cutoff)
                      (List.filter
                         (fun r0 => pystr_eqb (company r0) (company r)) df))).
  { apply filter_In. split; [|exact Hrec]. apply filter_In.
    split; [exact Hin|]. apply pystr_eqb_refl. }
  rewrite E in H. destruct H.
Qed.

Lemma recent_company_skipped df min_frequency cutoff r cs acc :
  In r df -> is_recent cutoff r = true ->
  dict_get (company r)
           (fold_left (analyze_company df min_frequency cutoff) cs acc)
  = dict_get (company r) acc.
Proof.
  intros Hin Hrec. revert acc.
  induction cs as [|c cs IH]; intros acc; simpl; [reflexivity|].
  rewrite IH. destruct (decide (company r = c)) as [<-|Hne].
  - now rewrite analyze_company_recent.
  - now apply analyze_company_other.
Qed.

(** A row is in the recent selection exactly when it has a date on or
    after the cutoff; nothing bounds the date from above. *)
Lemma is_recent_iff cutoff r :
  is_recent cutoff r = true <->
  exists d, ex_date r = Some d /\ cutoff <= toordinal d.
Proof.
  unfold is_recent. destruct (ex_date r) as [d|].
  - rewrite Z.leb_le.
    split; [intros H; exists d; auto|intros [d2 [E H]]; congruence].
  - split; [discriminate|intros [d [E _]]; discriminate].
Qed.

Lemma insert_prediction_perm x l : Permutation (insert_prediction x l) (x :: l).
Proof.
  induction l as [|y l IH]; simpl; [reflexivity|].
  destruct (key_le x y); [reflexivity|]. rewrite IH. apply perm_swap.
Qed.

Lemma sort_predictions_perm l : Permutation (sort_predictions l) l.
Proof.
  induction l as [|x l IH]; simpl; [reflexivity|].
  rewrite insert_prediction_perm. now constructor.
Qed.

Lemma predict_year_company today end_date c p y q :
  In q (predict_year today end_date c p y) -> pred_company q = c.
Proof.
  unfold predict_year. destruct (make_date _ _ _); [|intros []].
  destruct (_ && _); [|intros []]. intros [<-|[]]. reflexivity.
Qed.

(** Every prediction is for a company that has patterns. *)
Lemma candidate_predictions_company today end_date cps q :
  In q (candidate_predictions today end_date cps) ->
  In (pred_company q) (List.map fst cps).
Proof.
  unfold candidate_predictions. intros H.
  apply in_flat_map in H as [cp [Hcp H]].
  apply in_flat_map in H as [p [Hp H]].
  apply in_flat_map in H as [y [Hy H]].
  apply predict_year_company in H. rewrite H. now apply in_map.
Qed.

(** C7.  A company with a row whose ex-dividend date falls within the 60
    days before today has no patterns, and the miner followed by the
    predictor returns no prediction for it, whatever its other rows. *)
Theorem recent_company_yields_nothing
  (df : frame) (min_frequency prediction_days : Z) (today : date)
  (cutoff end_date : Z) (r : row) (d : date) :
  add_days today (- 60) = Some cutoff ->
  add_days today prediction_days = Some end_date ->
  In r df -> ex_date r = Some d ->
  toordinal today - 60 <= toordinal d <= toordinal today ->
  exists company_patterns predictions,
    analyze_dividend_patterns df min_frequency today = Some company_patterns
    /\ dict_get (company r) company_patterns = None
    /\ pipeline df min_frequency prediction_days today = Some predictions
    /\ forall p, In p predictions -> pred_company p <> company r.
Proof.
  intros Hcut Hend Hin Hd [Hlo _].
  assert (Hrec : is_recent cutoff r = true).
  { apply is_recent_iff. exists d. split; [exact Hd|].
    apply add_days_Some in Hcut. lia. }
  unfold pipeline, analyze_dividend_patterns, predict_upcoming_announcements.
  change (- RECENT_ANNOUNCEMENT_WINDOW) with (- 60). rewrite Hcut, Hend.
  eexists. eexists. split; [reflexivity|]. split.
  { now rewrite recent_company_skipped. }
  split; [reflexivity|].
  intros p Hp Heq.
  apply (Permutation_in _ (sort_predictions_perm _)) in Hp.
  apply candidate_predictions_company in Hp. rewrite Heq in Hp.
  revert Hp. apply dict_get_None_keys. now rewrite recent_company_skipped.
Qed.

Lemma recent_company_yields_nothing_witness :
  In alpha_recent (alpha_history ++ [alpha_recent])
  /\ toordinal date_2024_03_01 - 60 <= toordinal (mk_date 2024 2 19)
     <= toordinal date_2024_03_01
  /\ exists company_patterns predictions,
       analyze_dividend_patterns (alpha_history ++ [alpha_recent]) 2
                                 date_2024_03_01 = Some company_patterns
       /\ dict_get alpha company_patterns = None
       /\ pipeline (alpha_history ++ [alpha_recent]) 2 30 date_2024_03_01
          = Some predictions
       /\ forall p, In p predictions -> pred_company p <> alpha.
Proof.
  split; [simpl; tauto|]. split; [vm_compute; split; discriminate|].
  apply (recent_company_yields_nothing
           (alpha_history ++ [alpha_recent]) 2 30 date_2024_03_01
           738886 738976 alpha_recent (mk_date 2024 2 19)).
  - reflexivity.
  - reflexivity.
  - simpl; tauto.
  - reflexivity.
  - vm_compute; split; discriminate.
Defined.

(** C10.  A company with a row whose ex-dividend date is today or later has
    no patterns: the row is in the recent selection, which takes every date
    on or after today minus 60 days and has no upper bound. *)
Theorem future_record_excludes_company
  (df : frame) (min_frequency : Z) (today : date) (cutoff : Z)
  (r : row) (d : date) :
  add_days today (- 60) = Some cutoff ->
  In r df -> ex_date r = Some d -> toordinal today <= toordinal d ->
  is_recent cutoff r = true
  /\ exists company_patterns,
       analyze_dividend_patterns df min_frequency today = Some company_patterns
       /\ dict_get (company r) company_patterns = None.
Proof.
  intros Hcut Hin Hd Hle.
  assert (Hrec : is_recent cutoff r = true).
  { apply is_recent_iff. exists d. split; [exact Hd|].
    apply add_days_Some in Hcut. lia. }
  split; [exact Hrec|].
  unfold analyze_dividend_patterns.
  change (- RECENT_ANNOUNCEMENT_WINDOW) with (- 60). rewrite Hcut.
  eexists. split; [reflexivity|]. now rewrite recent_company_skipped.
Qed.

Lemma future_record_excludes_company_witness :
  In alpha_future (alpha_history ++ [alpha_future])
  /\ toordinal date_2024_03_01 <= toordinal (mk_date 2024 6 1)
  /\ exists company_patterns,
       analyze_dividend_patterns (alpha_history ++ [alpha_future]) 2
                                 date_2024_03_01 = Some company_patterns
       /\ dict_get alpha company_patterns = None.
Proof.
  split; [simpl; tauto|]. split; [vm_compute; discriminate|].
  apply (future_record_excludes_company
           (alpha_history ++ [alpha_future]) 2 date_2024_03_01 738886
           alpha_future (mk_date 2024 6 1)).
  - reflexivity.
  - simpl; tauto.
  - reflexivity.
  - vm_compute; discriminate.
Defined.

(** *** Impossible dates *)

Lemma candidate_predictions_candidates today end_date cps :
  candidate_predictions today end_date cps
  = flat_map (predict_candidate today end_date) (candidates today cps).
Proof.
  unfold candidate_predictions, candidates.
  induction cps as [|[c ps] cps IH]; [reflexivity|].
  cbn [flat_map]. rewrite flat_map_app, <- IH. f_equal. cbn [fst snd].
  clear IH. induction ps as [|p ps IH]; [reflexivity|].
  cbn [flat_map]. rewrite flat_map_app, <- IH. f_equal.
Qed.

Lemma predict_year_invalid today end_date c p y :
  make_date y (pat_month p) (pat_day p) = None ->
  predict_year today end_date c p y = [].
Proof. unfold predict_year. now intros ->. Qed.

(** C8.  Whatever the patterns, the predictor returns a result as soon as
    the end of the window is a date; a pattern whose month and day do not
    exist in a candidate year yields nothing for that year; and the result
    is the one obtained from the other pairs of pattern and year alone. *)
Theorem impossible_dates_are_skipped
  (company_patterns : list (pystr * list pattern)) (prediction_days : Z)
  (today : date) (end_date : Z) :
  add_days today prediction_days = Some end_date ->
  predict_upcoming_announcements company_patterns prediction_days today
  = Some (sort_predictions
            (flat_map (predict_candidate today end_date)
                      (List.filter exists_in_year
                                   (candidates today company_patterns))))
  /\ forall c p y, make_date y (pat_month p) (pat_day p) = None ->
                   predict_year today end_date c p y = [].
Proof.
  intros Hend. split; [|apply predict_year_invalid].
  unfold predict_upcoming_announcements. rewrite Hend. f_equal. f_equal.
  rewrite candidate_predictions_candidates. symmetry.
  apply flat_map_filter_nil. intros [[c p] y] H.
  unfold predict_candidate, exists_in_year in *. cbn [fst snd] in *.
  apply predict_year_invalid. unfold make_date. now rewrite H.
Qed.

Lemma impossible_dates_are_skipped_witness :
  make_date 2023 2 29 = None
  /\ add_days date_2023_02_20 30 = Some 738601
  /\ exists p,
       predict_upcoming_announcements leap_day_patterns 30 date_2023_02_20
       = Some [p]
       /\ predicted_ex_date p = mk_date 2023 3 1.
Proof.
  split; [reflexivity|]. split; [reflexivity|].
  destruct (impossible_dates_are_skipped leap_day_patterns 30 date_2023_02_20
              738601 eq_refl) as [E _].
  rewrite E. eexists. split; [vm_compute; reflexivity|reflexivity].
Defined.

(** *** The confidence of the predictions *)

Lemma fold_left_max_in l x : In (fold_left Z.max l x) (x :: l).
Proof.
  revert x. induction l as [|y l IH]; intros x; simpl; [now left|].
  destruct (IH (Z.max x y)) as [H|H]; [|right; now right].
  rewrite <- H.
  destruct (Z.max_spec x y) as [[_ E]|[_ E]]; rewrite E; [right|]; now left.
Qed.

Lemma list_max_in l : l <> [] -> In (list_max l) l.
Proof. destruct l as [|x l]; [congruence|]. intros _. apply fold_left_max_in. Qed.

Lemma md_years_present m d ys groups :
  NoDup (List.map key_of groups) -> In (m, d, ys) groups -> md_years m d groups = ys.
Proof.
  unfold md_years. induction groups as [|[[m2 d2] ys2] groups IH]; [intros _ []|].
  cbn [List.map key_of fst]. intros Hnd Hin. apply NoDup_cons in Hnd as [Hnotin Hnd].
  cbn [List.find fst snd].
  destruct Hin as [E|Hin].
  - injection E as -> -> ->. now rewrite !Z.eqb_refl.
  - destruct ((m2 =? m) && (d2 =? d)) eqn:E; [|now apply IH].
    apply andb_true_iff in E as [E1 E2]. apply Z.eqb_eq in E1, E2. subst.
    exfalso. apply Hnotin. apply list_elem_of_In.
    change (m, d) with (key_of (m, d, ys)). now apply in_map.
Qed.

Lemma in_omap_ex_date dt (company_data : frame) :
  In dt (omap ex_date company_data) -> exists r, In r company_data /\ ex_date r = Some dt.
Proof.
  intros H. apply list_elem_of_In, list_elem_of_omap in H as [r [Hr E]].
  exists r. split; [now apply list_elem_of_In|exact E].
Qed.

(** The last year of a mined pattern is the year of a row of the company on
    the month and day of the pattern. *)
Lemma pattern_last_year_row company_data name min_frequency ps p :
  analyze_company_pattern_with_freq company_data name min_frequency = Some ps ->
  In p ps ->
  exists r dt, In r company_data /\ ex_date r = Some dt
    /\ month dt = pat_month p /\ day dt = pat_day p /\ year dt = last_year p.
Proof.
  unfold analyze_company_pattern_with_freq.
  destruct (_ <? min_frequency); [discriminate|].
  set (dates := sort_dates (omap ex_date company_data)).
  destruct (flat_map _ _) as [|p0 ps0] eqn:E; [discriminate|].
  intros H. injection H as <-. rewrite <- E. clear E. intros Hp.
  apply in_flat_map in Hp as [[[m d] ys] [Hg Hp]]. cbn [snd] in Hp.
  destruct (2 <=? length ys)%nat eqn:L; [|destruct Hp].
  destruct Hp as [<-|[]]. cbn [make_pattern pat_month pat_day last_year].
  pose proof (md_years_present m d ys _ (group_by_month_day_NoDup dates) Hg) as Hy.
  rewrite md_years_group in Hy.
  assert (Hne : ys <> []) by (destruct ys; [discriminate|congruence]).
  pose proof (list_max_in ys Hne) as Hmax. rewrite <- Hy in Hmax at 2.
  apply in_map_iff in Hmax as [dt [Hyear Hdt]].
  apply filter_In in Hdt as [Hdt Hon].
  apply (Permutation_in _ (sort_dates_perm _)) in Hdt.
  apply in_omap_ex_date in Hdt as [r [Hr Er]].
  unfold date_on in Hon. apply andb_true_iff in Hon as [E1 E2].
  apply Z.eqb_eq in E1, E2.
  exists r, dt. auto.
Qed.

Lemma frame_insert_row_perm r l : Permutation (insert_row r l) (r :: l).
Proof.
  induction l as [|x l IH]; simpl; [reflexivity|].
  destruct (date_cell_lt _ _); [reflexivity|]. rewrite IH. apply perm_swap.
Qed.

Lemma frame_sort_values_perm l : Permutation (sort_values l) l.
Proof.
  unfold sort_values.
  assert (G : forall acc,
            Permutation (fold_left (fun acc r => insert_row r acc) l acc) (acc ++ l)).
  { induction l as [|r l IH]; intros acc; simpl.
    - now rewrite app_nil_r.
    - rewrite IH, frame_insert_row_perm. apply Permutation_middle. }
  apply (G []).
Qed.

Lemma dict_set_in {V} (k c : pystr) (v w : V) m :
  In (c, w) (dict_set k v m) -> In (c, w) m \/ w = v.
Proof.
  induction m as [|[k2 u] m IH]; simpl.
  - intros [E|[]]. right. congruence.
  - destruct (pystr_eqb k2 k); simpl.
    + intros [E|H]; [right; congruence|left; now right].
    + intros [E|H]; [left; now left|].
      destruct (IH H) as [H2|H2]; [left; now right|now right].
Qed.

Lemma analyze_company_before_cutoff df min_frequency cutoff acc c :
  (forall c0 ps, In (c0, ps) acc -> forall p, In p ps -> last_seen_before cutoff p) ->
  forall c0 ps, In (c0, ps) (analyze_company df min_frequency cutoff acc c) ->
  forall p, In p ps -> last_seen_before cutoff p.
Proof.
  intros Hacc c0 ps. unfold analyze_company.
  destruct (Z.of_nat _ <? min_frequency); [apply Hacc|].
  set (company_data := List.filter (fun r => pystr_eqb (company r) c) df).
  destruct (List.filter (is_recent cutoff) company_data) eqn:R; [|apply Hacc].
  destruct (analyze_company_pattern_with_freq _ _ _) as [[|p0 ps0]|] eqn:A;
    try apply Hacc.
  intros Hin p Hp. apply dict_set_in in Hin as [Hin| ->]; [now apply (Hacc c0 ps)|].
  destruct (pattern_last_year_row _ _ _ _ p A Hp) as (r & dt & Hr & Er & Em & Ed & Ey).
  apply (Permutation_in _ (frame_sort_values_perm _)) in Hr.
  pose proof (filter_nil_forall _ _ R r Hr) as Hnot.
  unfold is_recent in Hnot. rewrite Er in Hnot. apply Z.leb_gt in Hnot.
  exists dt. auto.
Qed.

Lemma mined_patterns_before_cutoff df min_frequency cutoff cs acc :
  (forall c0 ps, In (c0, ps) acc -> forall p, In p ps -> last_seen_before cutoff p) ->
  forall c0 ps,
    In (c0, ps) (fold_left (analyze_company df min_frequency cutoff) cs acc) ->
    forall p, In p ps -> last_seen_before cutoff p.
Proof.
  revert acc. induction cs as [|c cs IH]; intros acc Hacc; [exact Hacc|].
  simpl. apply IH. now apply analyze_company_before_cutoff.
Qed.

(** Every prediction of the miner followed by the predictor is for a
    candidate year after the last year of its pattern, so that its
    confidence lies between 0 and 100. *)
Theorem pipeline_confidence_range df min_frequency prediction_days today predictions :
  pipeline df min_frequency prediction_days today = Some predictions ->
  forall q, In q predictions -> (0 <= confidence q <= 100)%Q.
Proof.
  unfold pipeline, analyze_dividend_patterns, predict_upcoming_announcements.
  destruct (add_days today (- RECENT_ANNOUNCEMENT_WINDOW)) as [cutoff|] eqn:Hcut;
    [|discriminate].
  destruct (add_days today prediction_days) as [end_date|]; [|discriminate].
  intros H q Hq. injection H as <-.
  apply (Permutation_in _ (sort_predictions_perm _)) in Hq.
  unfold candidate_predictions in Hq.
  apply in_flat_map in Hq as [[c ps] [Hcp Hq]].
  apply in_flat_map in Hq as [p [Hp Hq]].
  apply in_flat_map in Hq as [y [Hy Hq]]. cbn [fst snd] in *.
  unfold predict_year in Hq.
  destruct (make_date y (pat_month p) (pat_day p)) as [pd|] eqn:Hpd; [|destruct Hq].
  destruct (_ && _) eqn:W; [|destruct Hq]. destruct Hq as [<-|[]].
  cbn [confidence]. split; [apply calculate_confidence_nonneg|].
  apply calculate_confidence_le_100.
  destruct (mined_patterns_before_cutoff df min_frequency cutoff _ []
              ltac:(intros ? ? []) c ps Hcp p Hp) as (dt & Em & Ed & Ey & Hlt).
  apply andb_true_iff in W as [W _]. apply Z.leb_le in W.
  apply add_days_Some in Hcut. unfold RECENT_ANNOUNCEMENT_WINDOW in Hcut.
  unfold make_date in Hpd. destruct (valid_ymd _ _ _); [|discriminate].
  injection Hpd as <-.
  destruct (Z_lt_le_dec (last_year p) y) as [Hly|Hly]; [exact Hly|exfalso].
  pose proof (toordinal_year_mono y (last_year p) (pat_month p) (pat_day p) Hly) as M.
  assert (Edt : dt = mk_date (last_year p) (pat_month p) (pat_day p)).
  { destruct dt. cbn in *. congruence. }
  rewrite <- Edt in M. lia.
Qed.

(** *** The miner, company by company *)

Lemma unique_In c l : In c (unique l) <-> In c l.
Proof.
  induction l as [|x l IH]; [reflexivity|]. cbn [unique]. split.
  - intros [<-|H]; [now left|]. apply filter_In in H as [H _]. right. now apply IH.
  - intros [<-|H]; [now left|].
    destruct (decide (x = c)) as [->|Hne]; [now left|].
    right. apply filter_In. split; [now apply IH|].
    apply negb_true_iff, pystr_eqb_neq, Hne.
Qed.

Lemma unique_NoDup l : List.NoDup (unique l).
Proof.
  induction l as [|x l IH]; [constructor|]. cbn [unique]. constructor.
  - intros H. apply filter_In in H as [_ H].
    apply negb_true_iff, pystr_eqb_neq in H. congruence.
  - now apply List.NoDup_filter.
Qed.

Lemma dict_get_set_eq {V} (k : pystr) (v : V) m : dict_get k (dict_set k v m) = Some v.
Proof.
  induction m as [|[k2 w] m IH]; simpl.
  - now rewrite pystr_eqb_refl.
  - destruct (pystr_eqb k2 k) eqn:E; simpl; rewrite E; [reflexivity|exact IH].
Qed.

Lemma analyze_never_empty company_data name min_frequency :
  analyze_company_pattern_with_freq company_data name min_frequency <> Some [].
Proof.
  unfold analyze_company_pattern_with_freq.
  destruct (_ <? _); [discriminate|]. destruct (flat_map _ _); discriminate.
Qed.

Lemma existsb_filter_nil {A} (f : A -> bool) l :
  existsb f l = false <-> List.filter f l = [].
Proof.
  rewrite existsb_filter. destruct (List.filter f l); split; congruence.
Qed.

(** What the turn of a company leaves under its own name. *)
Lemma analyze_company_own df min_frequency cutoff acc c :
  dict_get c (analyze_company df min_frequency cutoff acc c)
  = let company_data := List.filter (fun r => pystr_eqb (company r) c) df in
    if Z.of_nat (length company_data) <? min_frequency then dict_get c acc
    else if existsb (is_recent cutoff) company_data then dict_get c acc
    else match analyze_company_pattern_with_freq
                 (sort_values company_data) c min_frequency with
         | Some ps => Some ps
         | None => dict_get c acc
         end.
Proof.
  unfold analyze_company. cbv zeta.
  destruct (_ <? min_frequency); [reflexivity|].
  rewrite existsb_filter.
  destruct (List.filter (is_recent cutoff) _); [|reflexivity].
  destruct (analyze_company_pattern_with_freq _ _ _) as [[|p ps]|] eqn:A;
    [now apply analyze_never_empty in A| |reflexivity].
  apply dict_get_set_eq.
Qed.

Lemma fold_analyze_other df min_frequency cutoff cs acc c :
  ~ In c cs ->
  dict_get c (fold_left (analyze_company df min_frequency cutoff) cs acc)
  = dict_get c acc.
Proof.
  revert acc. induction cs as [|c2 cs IH]; intros acc H; [reflexivity|].
  cbn [fold_left]. rewrite IH by (intros Hin; apply H; now right).
  apply analyze_company_other. intros ->. apply H. now left.
Qed.

Lemma fold_analyze_own df min_frequency cutoff cs acc c :
  List.NoDup cs -> In c cs ->
  dict_get c (fold_left (analyze_company df min_frequency cutoff) cs acc)
  = dict_get c (analyze_company df min_frequency cutoff acc c).
Proof.
  revert acc. induction cs as [|c2 cs IH]; intros acc Hnd Hin; [destruct Hin|].
  inversion Hnd as [|? ? Hnotin Hnd']; subst. cbn [fold_left].
  destruct Hin as [->|Hin].
  - now apply fold_analyze_other.
  - rewrite (IH _ Hnd' Hin). rewrite !analyze_company_own. cbv zeta.
    assert (E : dict_get c (analyze_company df min_frequency cutoff acc c2)
                = dict_get c acc).
    { apply analyze_company_other. intros ->. contradiction. }
    now rewrite E.
Qed.

Lemma no_rows_no_patterns min_frequency c :
  (if Z.of_nat 0 <? min_frequency then None
   else analyze_company_pattern_with_freq (sort_values []) c min_frequency)
  = @None (list pattern).
Proof.
  unfold analyze_company_pattern_with_freq. cbn.
  destruct (_ <? min_frequency); reflexivity.
Qed.

Lemma filter_company_nil (df : frame) c :
  ~ In c (List.map company df) ->
  List.filter (fun r => pystr_eqb (company r) c) df = [].
Proof.
  intros H. induction df as [|r df IH]; [reflexivity|]. cbn [List.filter].
  assert (E : pystr_eqb (company r) c = false).
  { apply pystr_eqb_neq. intros E. apply H. rewrite <- E. now left. }
  rewrite E. apply IH. intros Hin. apply H. now right.
Qed.

Lemma mined_patterns_lookup df min_frequency cutoff c :
  dict_get c (fold_left (analyze_company df min_frequency cutoff)
                        (unique (List.map company df)) [])
  = let company_data := List.filter (fun r => pystr_eqb (company r) c) df in
    if Z.of_nat (length company_data) <? min_frequency then None
    else if existsb (is_recent cutoff) company_data then None
    else analyze_company_pattern_with_freq
           (sort_values company_data) c min_frequency.
Proof.
  destruct (decide (c ∈ List.map company df)) as [Hin|Hout];
    rewrite list_elem_of_In in *.
  - rewrite fold_analyze_own; [|apply unique_NoDup|now apply unique_In].
    rewrite analyze_company_own. cbv zeta.
    destruct (_ <? _); [reflexivity|]. destruct (existsb _ _); [reflexivity|].
    now destruct (analyze_company_pattern_with_freq _ _ _).
  - rewrite fold_analyze_other by (rewrite unique_In; exact Hout).
    cbv zeta. rewrite (filter_company_nil df c Hout). cbn [length existsb dict_get].
    symmetry. apply no_rows_no_patterns.
Qed.

Lemma dict_set_fresh {V} (k : pystr) (v : V) m :
  dict_get k m = None -> dict_set k v m = m ++ [(k, v)].
Proof.
  induction m as [|[k2 w] m IH]; simpl; [reflexivity|].
  destruct (pystr_eqb k2 k); [discriminate|]. intros H. now rewrite IH.
Qed.


Lemma analyze_company_keys df min_frequency cutoff acc c :
  dict_get c acc = None ->
  List.map fst (analyze_company df min_frequency cutoff acc c)
  = List.map fst acc ++ (if has_patterns df min_frequency cutoff c then [c] else []).
Proof.
  intros Hfresh. unfold has_patterns, analyze_company.
  destruct (_ <? min_frequency); [now rewrite app_nil_r|].
  destruct (List.filter (is_recent cutoff) _); [|now rewrite app_nil_r].
  destruct (analyze_company_pattern_with_freq _ _ _) as [[|p ps]|];
    try now rewrite app_nil_r.
  rewrite dict_get_set_eq, (dict_set_fresh _ _ _ Hfresh), List.map_app.
  reflexivity.
Qed.

Lemma fold_analyze_keys df min_frequency cutoff cs acc :
  List.NoDup cs -> (forall c, In c cs -> dict_get c acc = None) ->
  List.map fst (fold_left (analyze_company df min_frequency cutoff) cs acc)
  = List.map fst acc ++ List.filter (has_patterns df min_frequency cutoff) cs.
Proof.
  revert acc. induction cs as [|c cs IH]; intros acc Hnd Hfresh.
  - cbn. now rewrite app_nil_r.
  - inversion Hnd as [|? ? Hnotin Hnd']; subst. cbn [fold_left List.filter].
    rewrite IH; [|exact Hnd'|].
    + rewrite analyze_company_keys by (apply Hfresh; now left).
      rewrite <- app_assoc. f_equal.
      now destruct (has_patterns df min_frequency cutoff c).
    + intros c2 Hc2. rewrite analyze_company_other; [apply Hfresh; now right|].
      intros ->. contradiction.
Qed.


(** What the miner returns for a company depends on the rows of that company
    only: nothing when it has fewer rows than [min_frequency] (rows without
    a date included) or a row dated on or after the cutoff, and otherwise
    what [analyze_company_pattern_with_freq] finds in its rows sorted by
    date.  The rows of other companies, and the place of the company in the
    frame, play no part. *)
Theorem patterns_of_a_company_depend_on_its_rows
  (df : frame) (min_frequency : Z) (today : date) (cutoff : Z) (c : pystr) :
  add_days today (- 60) = Some cutoff ->
  exists company_patterns,
    analyze_dividend_patterns df min_frequency today = Some company_patterns
    /\ dict_get c company_patterns
       = let company_data := List.filter (fun r => pystr_eqb (company r) c) df in
         if Z.of_nat (length company_data) <? min_frequency then None
         else if existsb (is_recent cutoff) company_data then None
         else analyze_company_pattern_with_freq
                (sort_values company_data) c min_frequency.
Proof.
  intros Hcut. unfold analyze_dividend_patterns.
  change (- RECENT_ANNOUNCEMENT_WINDOW) with (- 60). rewrite Hcut.
  eexists. split; [reflexivity|]. apply mined_patterns_lookup.
Qed.

Lemma patterns_of_a_company_depend_on_its_rows_witness :
  add_days date_2024_03_01 (- 60) = Some 738886
  /\ exists company_patterns,
       analyze_dividend_patterns alpha_history 2 date_2024_03_01
       = Some company_patterns
       /\ option_map (List.map years) (dict_get alpha company_patterns)
          = Some [[2022; 2023]].
Proof.
  split; [reflexivity|].
  destruct (patterns_of_a_company_depend_on_its_rows
              alpha_history 2 date_2024_03_01 738886 alpha eq_refl)
    as (company_patterns & E & L).
  exists company_patterns. split; [exact E|]. rewrite L. reflexivity.
Defined.

(** Every entry of the result was made from the rows of one company, none of
    them recent. *)
Lemma analyze_company_values df min_frequency cutoff acc c c0 ps :
  In (c0, ps) (analyze_company df min_frequency cutoff acc c) ->
  In (c0, ps) acc
  \/ (List.filter (is_recent cutoff)
        (List.filter (fun r => pystr_eqb (company r) c) df) = []
      /\ ps <> []
      /\ analyze_company_pattern_with_freq
           (sort_values (List.filter (fun r => pystr_eqb (company r) c) df))
           c min_frequency = Some ps).
Proof.
  unfold analyze_company.
  destruct (_ <? min_frequency); [now left|].
  destruct (List.filter (is_recent cutoff) _) eqn:R; [|now left].
  destruct (analyze_company_pattern_with_freq _ _ _) as [[|p ps0]|] eqn:A;
    try now left.
  intros H. apply dict_set_in in H as [H| ->]; [now left|right].
  split; [reflexivity|]. split; [discriminate|reflexivity].
Qed.

Lemma fold_analyze_values df min_frequency cutoff cs acc c0 ps :
  In (c0, ps) (fold_left (analyze_company df min_frequency cutoff) cs acc) ->
  In (c0, ps) acc
  \/ exists c,
       List.filter (is_recent cutoff)
         (List.filter (fun r => pystr_eqb (company r) c) df) = []
       /\ ps <> []
       /\ analyze_company_pattern_with_freq
            (sort_values (List.filter (fun r => pystr_eqb (company r) c) df))
            c min_frequency = Some ps.
Proof.
  revert acc. induction cs as [|c cs IH]; intros acc H; [now left|].
  cbn [fold_left] in H. apply IH in H as [H|H]; [|now right].
  apply analyze_company_values in H as [H|H]; [now left|right; eauto].
Qed.


(** The result of the miner lists the companies that have patterns in the
    order of their first row in the frame, each once, and none with an empty
    list of patterns. *)
Theorem companies_in_order_of_first_appearance
  (df : frame) (min_frequency : Z) (today : date) (cutoff : Z) :
  add_days today (- 60) = Some cutoff ->
  exists company_patterns,
    analyze_dividend_patterns df min_frequency today = Some company_patterns
    /\ List.map fst company_patterns
       = List.filter (has_patterns df min_frequency cutoff)
                     (unique (List.map company df))
    /\ List.NoDup (List.map fst company_patterns)
    /\ forall c ps, In (c, ps) company_patterns -> ps <> [].
Proof.
  intros Hcut. unfold analyze_dividend_patterns.
  change (- RECENT_ANNOUNCEMENT_WINDOW) with (- 60). rewrite Hcut.
  eexists. split; [reflexivity|].
  assert (K := fold_analyze_keys df min_frequency cutoff
                 (unique (List.map company df)) [] (unique_NoDup _)
                 (fun c _ => eq_refl)).
  cbn [List.map app] in K. split; [exact K|]. split.
  - rewrite K. apply List.NoDup_filter, unique_NoDup.
  - intros c ps H. apply fold_analyze_values in H as [[]|(c1 & _ & H & _)].
    exact H.
Qed.

Lemma companies_in_order_of_first_appearance_witness :
  add_days date_2024_03_01 (- 60) = Some 738886
  /\ exists company_patterns,
       analyze_dividend_patterns alpha_history 2 date_2024_03_01
       = Some company_patterns
       /\ List.map fst company_patterns = [alpha].
Proof.
  split; [reflexivity|].
  destruct (companies_in_order_of_first_appearance
              alpha_history 2 date_2024_03_01 738886 eq_refl)
    as (company_patterns & E & K & _).
  exists company_patterns. split; [exact E|]. rewrite K. reflexivity.
Defined.



(** *** The patterns of a company *)

Lemma insert_date_sorted d l :
  StronglySorted ordinal_le l -> StronglySorted ordinal_le (insert_date d l).
Proof.
  induction 1 as [|x l Hs IH Hall]; cbn [insert_date].
  - repeat constructor.
  - destruct (toordinal d <? toordinal x) eqn:E.
    + apply Z.ltb_lt in E. constructor; [now constructor|].
      constructor; [unfold ordinal_le; lia|].
      apply Forall_forall. intros y Hy. rewrite Forall_forall in Hall.
      specialize (Hall y Hy). unfold ordinal_le in *. lia.
    + apply Z.ltb_ge in E. constructor; [exact IH|].
      apply Forall_forall. intros y Hy. apply list_elem_of_In in Hy.
      apply (Permutation_in _ (insert_date_perm d l)) in Hy.
      destruct Hy as [<-|Hy]; [exact E|].
      rewrite Forall_forall in Hall. apply Hall. now apply list_elem_of_In.
Qed.

Lemma sort_dates_sorted l : StronglySorted ordinal_le (sort_dates l).
Proof.
  unfold sort_dates.
  assert (G : forall acc, StronglySorted ordinal_le acc ->
            StronglySorted ordinal_le (fold_left (fun acc d => insert_date d acc) l acc)).
  { induction l as [|d l IH]; intros acc H; [exact H|].
    cbn [fold_left]. apply IH. now apply insert_date_sorted. }
  apply G. constructor.
Qed.

Lemma toordinal_year_strict y1 y2 m d :
  y1 < y2 -> toordinal (mk_date y1 m d) < toordinal (mk_date y2 m d).
Proof.
  intros H. unfold toordinal. cbn [year month day].
  pose proof (days_before_year_mono y1 y2 H).
  assert (days_before_month y1 m <= days_before_month y2 m + 1).
  { unfold days_before_month. destruct (_ && _), (_ && _); lia. }
  lia.
Qed.

Lemma filter_StronglySorted {A} (R : A -> A -> Prop) (f : A -> bool) l :
  StronglySorted R l -> StronglySorted R (List.filter f l).
Proof.
  induction 1 as [|x l Hs IH Hall]; cbn [List.filter]; [constructor|].
  destruct (f x); [|exact IH]. constructor; [exact IH|].
  apply Forall_forall. intros y Hy. rewrite Forall_forall in Hall.
  apply Hall. apply list_elem_of_In. apply list_elem_of_In in Hy.
  now apply filter_In in Hy.
Qed.

(** Dates on one month and day in the order of time have their years in
    ascending order. *)
Lemma years_ascending m d dates :
  StronglySorted ordinal_le dates ->
  StronglySorted Z.le (List.map year (List.filter (date_on m d) dates)).
Proof.
  intros H. apply (filter_StronglySorted _ (date_on m d)) in H.
  assert (Hon : forall x, In x (List.filter (date_on m d) dates) ->
                          month x = m /\ day x = d).
  { intros x Hx. apply filter_In in Hx as [_ Hx]. unfold date_on in Hx.
    apply andb_true_iff in Hx as [E1 E2]. now apply Z.eqb_eq in E1, E2. }
  induction H as [|x l Hs IH Hall]; cbn [List.map]; [constructor|].
  constructor; [apply IH; intros y Hy; apply Hon; now right|].
  apply Forall_forall. intros y Hy.
  apply list_elem_of_In, in_map_iff in Hy as [b [<- Hb]].
  rewrite Forall_forall in Hall.
  pose proof (Hall b (proj2 (list_elem_of_In _ _) Hb)) as Hle.
  destruct (Hon x (or_introl eq_refl)) as [Mx Dx].
  destruct (Hon b (or_intror Hb)) as [Mb Db].
  destruct (Z_le_gt_dec (year x) (year b)) as [Hy|Hy]; [exact Hy|exfalso].
  pose proof (toordinal_year_strict (year b) (year x) m d ltac:(lia)) as S.
  unfold ordinal_le in Hle. destruct x, b. cbn in *. subst. lia.
Qed.

Lemma fold_left_max_init l x : x <= fold_left Z.max l x.
Proof.
  revert x. induction l as [|z l IH]; intros x; cbn [fold_left]; [lia|].
  specialize (IH (Z.max x z)). lia.
Qed.

Lemma fold_left_max_ge l x y : In y (x :: l) -> y <= fold_left Z.max l x.
Proof.
  intros [->|H]; [apply fold_left_max_init|].
  revert x. induction l as [|z l IH]; intros x; [destruct H|].
  cbn [fold_left]. destruct H as [->|H]; [|now apply IH].
  pose proof (fold_left_max_init l (Z.max x y)). lia.
Qed.

Lemma list_max_ge l y : In y l -> y <= list_max l.
Proof. destruct l as [|x l]; [intros []|]. apply fold_left_max_ge. Qed.

Lemma pattern_of_group company_data name min_frequency p :
  In p (patterns_of (analyze_company_pattern_with_freq
                       company_data name min_frequency)) ->
  exists m d,
    let ys := List.map year (List.filter (date_on m d)
                               (sort_dates (omap ex_date company_data))) in
    p = make_pattern company_data (m, d, ys) /\ (2 <= length ys)%nat.
Proof.
  unfold analyze_company_pattern_with_freq.
  destruct (_ <? min_frequency); [intros []|].
  set (dates := sort_dates (omap ex_date company_data)).
  intros Hp.
  assert (Hp' : In p (flat_map
            (fun g => if (2 <=? length (snd g))%nat
                      then [make_pattern company_data g] else [])
            (group_by_month_day dates))).
  { destruct (flat_map _ _); [destruct Hp|exact Hp]. }
  clear Hp. apply in_flat_map in Hp' as [[[m d] ys] [Hg Hp]]. cbn [snd] in Hp.
  destruct (2 <=? length ys)%nat eqn:L; [|destruct Hp].
  destruct Hp as [<-|[]].
  pose proof (md_years_present m d ys _ (group_by_month_day_NoDup dates) Hg) as Hy.
  rewrite md_years_group in Hy. exists m, d. cbv zeta. rewrite Hy.
  split; [reflexivity|]. now apply Nat.leb_le.
Qed.


(** Every pattern of a company counts the dated rows on its month and day,
    at least two; its years are as many, in ascending order; its last year
    is the greatest of them; and its average dividend is the mean over the
    rows on its month and day. *)
Theorem mined_patterns_are_well_formed
  (company_data : frame) (company_name : pystr) (min_frequency : Z) :
  Forall
    (fun p =>
       frequency p = occurrences (pat_month p) (pat_day p) company_data
       /\ (2 <= frequency p)%nat
       /\ length (years p) = frequency p
       /\ StronglySorted Z.le (years p)
       /\ In (last_year p) (years p)
       /\ (forall y, In y (years p) -> y <= last_year p)
       /\ avg_dividend p
          = mean (List.map dividend
                    (List.filter (on_month_day (pat_month p) (pat_day p))
                                 company_data)))
    (patterns_of (analyze_company_pattern_with_freq
                    company_data company_name min_frequency)).
Proof.
  apply Forall_forall. intros p Hp. apply list_elem_of_In in Hp.
  apply pattern_of_group in Hp as (m & d & -> & Hlen). cbv zeta in Hlen.
  cbn [make_pattern frequency pat_month pat_day years last_year avg_dividend].
  set (ys := List.map year _) in *.
  assert (Hocc : length ys = occurrences m d company_data).
  { unfold ys. rewrite length_map,
      (filter_length_perm _ _ _ (sort_dates_perm _)). apply filter_omap_dates. }
  repeat split.
  - exact Hocc.
  - exact Hlen.
  - apply years_ascending, sort_dates_sorted.
  - apply list_max_in. intros E. rewrite E in Hlen. cbn in Hlen. lia.
  - apply list_max_ge.
Qed.

(** *** The order and the window of the predictions *)


Lemma key_le_true a b : key_le a b = true <-> sooner_or_surer a b.
Proof.
  unfold key_le, sooner_or_surer.
  rewrite orb_true_iff, andb_true_iff, Z.ltb_lt, Z.eqb_eq, Qle_bool_iff.
  split; (intros [H|[H1 H2]]; [now left|right; split; [exact H1|lra]]).
Qed.

Lemma key_le_total a b : key_le a b = false -> sooner_or_surer b a.
Proof.
  intros H. unfold sooner_or_surer.
  destruct (Z.lt_trichotomy (days_until a) (days_until b)) as [L|[E|G]].
  - assert (key_le a b = true) by (apply key_le_true; now left). congruence.
  - right. split; [lia|].
    destruct (Qlt_le_dec (confidence b) (confidence a)) as [Hq|Hq]; [|exact Hq].
    assert (key_le a b = true); [|congruence].
    apply key_le_true. right. split; [exact E|lra].
  - now left.
Qed.

Lemma sooner_or_surer_trans a b c :
  sooner_or_surer a b -> sooner_or_surer b c -> sooner_or_surer a c.
Proof.
  unfold sooner_or_surer. intros [H1|[H1 H2]] [H3|[H3 H4]].
  - left; lia.
  - left; lia.
  - left; lia.
  - right. split; [lia|lra].
Qed.

Lemma insert_prediction_sorted x l :
  StronglySorted sooner_or_surer l ->
  StronglySorted sooner_or_surer (insert_prediction x l).
Proof.
  induction 1 as [|y l Hs IH Hall]; cbn [insert_prediction].
  - repeat constructor.
  - destruct (key_le x y) eqn:E.
    + apply key_le_true in E. constructor; [now constructor|].
      constructor; [exact E|].
      apply Forall_forall. intros z Hz. rewrite Forall_forall in Hall.
      eapply sooner_or_surer_trans; [exact E|now apply Hall].
    + apply key_le_total in E. constructor; [exact IH|].
      apply Forall_forall. intros z Hz. apply list_elem_of_In in Hz.
      apply (Permutation_in _ (insert_prediction_perm x l)) in Hz.
      destruct Hz as [<-|Hz]; [exact E|].
      rewrite Forall_forall in Hall. apply Hall. now apply list_elem_of_In.
Qed.

Lemma sort_predictions_sorted l : StronglySorted sooner_or_surer (sort_predictions l).
Proof.
  induction l as [|x l IH]; cbn [sort_predictions fold_right]; [constructor|].
  now apply insert_prediction_sorted.
Qed.


(** The predictions come sorted: by the days until the predicted date, and
    among predictions for the same day by falling confidence.  The sort
    keeps every candidate, as often as it occurs. *)
Theorem predictions_are_sorted
  (company_patterns : list (pystr * list pattern)) (prediction_days : Z)
  (today : date) (end_date : Z) :
  add_days today prediction_days = Some end_date ->
  exists predictions,
    predict_upcoming_announcements company_patterns prediction_days today
    = Some predictions
    /\ StronglySorted sooner_or_surer predictions
    /\ Permutation predictions
         (candidate_predictions today end_date company_patterns).
Proof.
  intros Hend. unfold predict_upcoming_announcements. rewrite Hend.
  eexists. split; [reflexivity|]. split.
  - apply sort_predictions_sorted.
  - apply sort_predictions_perm.
Qed.

Lemma predictions_are_sorted_witness :
  add_days date_2023_02_20 30 = Some 738601
  /\ exists predictions,
       predict_upcoming_announcements leap_day_patterns 30 date_2023_02_20
       = Some predictions
       /\ StronglySorted sooner_or_surer predictions
       /\ Permutation predictions
            (candidate_predictions date_2023_02_20 738601 leap_day_patterns).
Proof.
  split; [reflexivity|].
  apply (predictions_are_sorted leap_day_patterns 30 date_2023_02_20 738601).
  reflexivity.
Defined.

(** The predictions of one pattern in one year. *)
Lemma predict_year_spec today end_date c p y q :
  In q (predict_year today end_date c p y) <->
  exists dt,
    make_date y (pat_month p) (pat_day p) = Some dt
    /\ toordinal today <= toordinal dt <= end_date
    /\ q = {| pred_company := c;
              predicted_ex_date := dt;
              days_until := toordinal dt - toordinal today;
              pred_frequency := frequency p;
              last_occurrence := last_year p;
              pred_avg_dividend := avg_dividend p;
              confidence := calculate_confidence p y;
              pattern_years := join (str ", ") (List.map str_of_Z (years p)) |}.
Proof.
  unfold predict_year. destruct (make_date _ _ _) as [dt|].
  - destruct (_ && _) eqn:W.
    + apply andb_true_iff in W as [W1 W2]. apply Z.leb_le in W1, W2. split.
      * intros [<-|[]]. exists dt. auto.
      * intros (dt2 & E & _ & ->). injection E as <-. now left.
    + split; [intros []|]. intros (dt2 & E & [W1 W2] & _). injection E as <-.
      apply Z.leb_le in W1, W2. rewrite W1, W2 in W. discriminate.
  - split; [intros []|]. intros (dt2 & E & _). discriminate.
Qed.

Lemma make_date_Some y m d dt :
  make_date y m d = Some dt ->
  dt = mk_date y m d /\ valid_date dt = true.
Proof.
  unfold make_date. destruct (valid_ymd y m d) eqn:E; [|discriminate].
  intros H. injection H as <-. split; [reflexivity|exact E].
Qed.


(** Every prediction is a calendar date of this year or the next, between
    today and the end of the window; [days_until] is its distance from
    today; and it repeats the month, day, frequency, last year and average
    dividend of a pattern of its company, with the confidence of that
    pattern for the predicted year. *)
Theorem predictions_fall_in_the_window
  (company_patterns : list (pystr * list pattern)) (prediction_days : Z)
  (today : date) (end_date : Z) :
  add_days today prediction_days = Some end_date ->
  exists predictions,
    predict_upcoming_announcements company_patterns prediction_days today
    = Some predictions
    /\ Forall
         (fun q =>
            0 <= days_until q <= prediction_days
            /\ toordinal (predicted_ex_date q) = toordinal today + days_until q
            /\ valid_date (predicted_ex_date q) = true
            /\ (year (predicted_ex_date q) = year today
                \/ year (predicted_ex_date q) = year today + 1)
            /\ exists ps p,
                 In (pred_company q, ps) company_patterns /\ In p ps
                 /\ month (predicted_ex_date q) = pat_month p
                 /\ day (predicted_ex_date q) = pat_day p
                 /\ pred_frequency q = frequency p
                 /\ last_occurrence q = last_year p
                 /\ pred_avg_dividend q = avg_dividend p
                 /\ confidence q
                    = calculate_confidence p (year (predicted_ex_date q)))
         predictions.
Proof.
  intros Hend. unfold predict_upcoming_announcements. rewrite Hend.
  eexists. split; [reflexivity|].
  apply add_days_Some in Hend.
  apply Forall_forall. intros q Hq. apply list_elem_of_In in Hq.
  apply (Permutation_in _ (sort_predictions_perm _)) in Hq.
  unfold candidate_predictions in Hq.
  apply in_flat_map in Hq as [[c ps] [Hcp Hq]].
  apply in_flat_map in Hq as [p [Hp Hq]].
  apply in_flat_map in Hq as [y [Hy Hq]]. cbn [fst snd] in *.
  apply predict_year_spec in Hq as (dt & Hdt & [W1 W2] & ->).
  apply make_date_Some in Hdt as [-> Hv].
  cbn [days_until predicted_ex_date pred_company pred_frequency last_occurrence
       pred_avg_dividend confidence year month day].
  split; [lia|]. split; [lia|]. split; [exact Hv|]. split.
  - destruct Hy as [<-|[<-|[]]]; auto.
  - exists ps, p. repeat split; assumption.
Qed.

Lemma predictions_fall_in_the_window_witness :
  add_days date_2023_02_20 30 = Some 738601
  /\ exists predictions,
       predict_upcoming_announcements leap_day_patterns 30 date_2023_02_20
       = Some predictions
       /\ Forall (fun q => 0 <= days_until q <= 30) predictions.
Proof.
  split; [reflexivity|].
  destruct (predictions_fall_in_the_window
              leap_day_patterns 30 date_2023_02_20 738601 eq_refl)
    as (predictions & E & H).
  exists predictions. split; [exact E|].
  apply Forall_forall. intros q Hq. rewrite Forall_forall in H.
  exact (proj1 (H q Hq)).
Defined.

Lemma predict_year_length today end_date c p y :
  (length (predict_year today end_date c p y) <= 1)%nat.
Proof.
  unfold predict_year. destruct (make_date _ _ _); [|cbn; lia].
  destruct (_ && _); cbn; lia.
Qed.

Lemma pattern_predictions_length today end_date c p y1 y2 :
  (length (flat_map (predict_year today end_date c p) [y1; y2]) <= 2)%nat.
Proof.
  cbn [flat_map]. rewrite !length_app. cbn [length].
  pose proof (predict_year_length today end_date c p y1).
  pose proof (predict_year_length today end_date c p y2). lia.
Qed.

Lemma flat_map_step {A B} (f : A -> list B) x l :
  flat_map f (x :: l) = f x ++ flat_map f l.
Proof. reflexivity. Qed.

Lemma candidate_predictions_length today end_date cps :
  (length (candidate_predictions today end_date cps)
   <= 2 * length (flat_map snd cps))%nat.
Proof.
  unfold candidate_predictions.
  induction cps as [|[c ps] cps IH]; [cbn; lia|].
  rewrite !flat_map_step, !length_app. cbn [fst snd].
  enough (length (flat_map
            (fun p => flat_map (predict_year today end_date c p)
                        [year today; (year today + 1)%Z]) ps)
          <= 2 * length ps)%nat by lia.
  clear. induction ps as [|p ps IH]; [cbn; lia|].
  rewrite flat_map_step, length_app. cbn beta.
  pose proof (pattern_predictions_length today end_date c p
                (year today) (year today + 1)).
  cbn [length]. lia.
Qed.


Lemma candidate_predictions_groups today end_date cps :
  candidate_predictions today end_date cps
  = concat
      (List.map
         (fun cp => flat_map (predict_year today end_date (fst cp) (snd cp))
                             [year today; (year today + 1)%Z])
         (company_pattern_pairs cps)).
Proof.
  unfold candidate_predictions, company_pattern_pairs.
  induction cps as [|[c ps] cps IH]; [reflexivity|].
  rewrite !flat_map_step, List.map_app, concat_app, IH. f_equal.
  cbn [fst snd]. clear. induction ps as [|p ps IH]; [reflexivity|].
  rewrite flat_map_step. cbn [List.map concat fst snd]. now rewrite IH.
Qed.

Lemma Forall2_map_self {A B} (R : A -> B -> Prop) (f : A -> B) l :
  (forall x, In x l -> R x (f x)) -> Forall2 R l (List.map f l).
Proof.
  induction l as [|x l IH]; intros H; cbn [List.map]; constructor.
  - apply H. now left.
  - apply IH. intros y Hy. apply H. now right.
Qed.

(** Every pattern whose month and day, this year or the next, is a calendar
    date within the window has its prediction in the result; and the result
    is made of one group of predictions for each pattern of each company,
    a group of at most two, all for that company on the month and day of
    that pattern. *)
Theorem no_prediction_is_lost
  (company_patterns : list (pystr * list pattern)) (prediction_days : Z)
  (today : date) (end_date : Z) :
  add_days today prediction_days = Some end_date ->
  exists predictions,
    predict_upcoming_announcements company_patterns prediction_days today
    = Some predictions
    /\ (forall c ps p y dt,
          In (c, ps) company_patterns -> In p ps ->
          y = year today \/ y = year today + 1 ->
          make_date y (pat_month p) (pat_day p) = Some dt ->
          toordinal today <= toordinal dt <= toordinal today + prediction_days ->
          exists q, In q predictions /\ pred_company q = c
                    /\ predicted_ex_date q = dt
                    /\ confidence q = calculate_confidence p y)
    /\ (exists groups,
          Permutation predictions (concat groups)
          /\ Forall2
               (fun cp g =>
                  (length g <= 2)%nat
                  /\ forall q, In q g ->
                       pred_company q = fst cp
                       /\ month (predicted_ex_date q) = pat_month (snd cp)
                       /\ day (predicted_ex_date q) = pat_day (snd cp)
                       /\ pred_frequency q = frequency (snd cp)
                       /\ last_occurrence q = last_year (snd cp))
               (company_pattern_pairs company_patterns) groups)
    /\ (length predictions
        <= 2 * length (company_pattern_pairs company_patterns))%nat.
Proof.
  intros Hend. unfold predict_upcoming_announcements. rewrite Hend.
  eexists. split; [reflexivity|].
  apply add_days_Some in Hend. split; [|split].
  - intros c ps p y dt Hcp Hp Hy Hdt W.
    eexists. split.
    + apply (Permutation_in _ (Permutation_sym (sort_predictions_perm _))).
      unfold candidate_predictions.
      apply in_flat_map. exists (c, ps). split; [exact Hcp|].
      apply in_flat_map. exists p. split; [exact Hp|].
      apply in_flat_map. exists y. split.
      * destruct Hy as [->| ->]; [now left|right; now left].
      * cbn [fst]. apply predict_year_spec. exists dt.
        split; [exact Hdt|]. split; [lia|reflexivity].
    + repeat split.
  - eexists. split.
    + rewrite sort_predictions_perm. rewrite candidate_predictions_groups.
      reflexivity.
    + apply Forall2_map_self. intros [c p] _. cbn [fst snd]. split.
      * apply pattern_predictions_length.
      * intros q Hq. apply in_flat_map in Hq as (y & _ & Hq).
        apply predict_year_spec in Hq as (dt & Hdt & _ & ->).
        apply make_date_Some in Hdt as [-> _]. repeat split.
  - rewrite (Permutation_length (sort_predictions_perm _)).
    rewrite candidate_predictions_groups.
    induction (company_pattern_pairs company_patterns) as [|[c p] l IH];
      [cbn; lia|].
    cbn [List.map concat fst snd]. rewrite length_app.
    pose proof (pattern_predictions_length today end_date c p
                  (year today) (year today + 1)).
    cbn [length] in *. lia.
Qed.

Lemma no_prediction_is_lost_witness :
  add_days date_2023_02_20 30 = Some 738601
  /\ exists predictions,
       predict_upcoming_announcements leap_day_patterns 30 date_2023_02_20
       = Some predictions
       /\ (length predictions <= 4)%nat.
Proof.
  split; [reflexivity|].
  destruct (no_prediction_is_lost
              leap_day_patterns 30 date_2023_02_20 738601 eq_refl)
    as (predictions & E & _ & _ & H).
  exists predictions. split; [exact E|exact H].
Defined.

(** *** The confidence as points, and the saved file *)



(** The confidence is a whole number of points: 14 for each occurrence up to
    five, and 36 less 6 for each year between the last occurrence and the
    predicted year, never less than nothing. *)
Theorem confidence_in_points (p : pattern) (predicted_year : Z) :
  (calculate_confidence p predicted_year
   == inject_Z (14 * Z.min (Z.of_nat (frequency p)) 5
                + Z.max 0 (36 - 6 * (predicted_year - last_year p))))%Q.
Proof.
  rewrite calculate_confidence_raw. apply raw_confidence_integer.
Qed.


(** The confidence grows with the frequency of the pattern and falls with
    the years since its last occurrence. *)
Theorem confidence_is_monotone (p1 p2 : pattern) (y1 y2 : Z) :
  (frequency p1 <= frequency p2)%nat ->
  y1 - last_year p1 >= y2 - last_year p2 ->
  (calculate_confidence p1 y1 <= calculate_confidence p2 y2)%Q.
Proof.
  intros Hf Hy.
  rewrite !calculate_confidence_raw, !raw_confidence_integer.
  rewrite <- Zle_Qle. lia.
Qed.

Lemma confidence_is_monotone_witness :
  (frequency alpha_march_15 <= frequency five_times_2024)%nat
  /\ 2025 - last_year alpha_march_15 >= 2025 - last_year five_times_2024
  /\ (calculate_confidence alpha_march_15 2025
      <= calculate_confidence five_times_2024 2025)%Q.
Proof.
  split; [cbn; lia|]. split; [cbn; lia|].
  apply (confidence_is_monotone alpha_march_15 five_times_2024 2025 2025);
    cbn; lia.
Defined.

Lemma pipeline_prediction_year df min_frequency cutoff today end_date q :
  toordinal today - 60 = cutoff ->
  In q (candidate_predictions today end_date
          (fold_left (analyze_company df min_frequency cutoff)
                     (unique (List.map company df)) [])) ->
  last_occurrence q < year (predicted_ex_date q).
Proof.
  intros Hcut Hq. unfold candidate_predictions in Hq.
  apply in_flat_map in Hq as [[c ps] [Hcp Hq]].
  apply in_flat_map in Hq as [p [Hp Hq]].
  apply in_flat_map in Hq as [y [Hy Hq]]. cbn [fst snd] in *.
  unfold predict_year in Hq.
  destruct (make_date y (pat_month p) (pat_day p)) as [pd|] eqn:Hpd; [|destruct Hq].
  destruct (_ && _) eqn:W; [|destruct Hq]. destruct Hq as [<-|[]].
  cbn [last_occurrence predicted_ex_date].
  destruct (mined_patterns_before_cutoff df min_frequency cutoff _ []
              ltac:(intros ? ? []) c ps Hcp p Hp) as (dt & Em & Ed & Ey & Hlt).
  apply andb_true_iff in W as [W _]. apply Z.leb_le in W.
  unfold make_date in Hpd. destruct (valid_ymd _ _ _); [|discriminate].
  injection Hpd as <-. cbn [year].
  destruct (Z_lt_le_dec (last_year p) y) as [Hly|Hly]; [exact Hly|exfalso].
  pose proof (toordinal_year_mono y (last_year p) (pat_month p) (pat_day p) Hly) as M.
  assert (Edt : dt = mk_date (last_year p) (pat_month p) (pat_day p)).
  { destruct dt. cbn in *. congruence. }
  rewrite <- Edt in M. lia.
Qed.


(** The miner followed by the predictor never predicts a date in a year in
    which the pattern has already occurred: the year of every prediction is
    after the last year of its pattern, and so its confidence is between 0
    and 100. *)
Theorem pipeline_predicts_after_the_last_occurrence
  (df : frame) (min_frequency prediction_days : Z) (today : date)
  (cutoff end_date : Z) :
  add_days today (- 60) = Some cutoff ->
  add_days today prediction_days = Some end_date ->
  exists predictions,
    pipeline df min_frequency prediction_days today = Some predictions
    /\ Forall (fun q => last_occurrence q < year (predicted_ex_date q)
                        /\ (0 <= confidence q <= 100)%Q)
              predictions.
Proof.
  intros Hcut Hend.
  destruct (pipeline df min_frequency prediction_days today) as [preds|] eqn:P.
  2:{ unfold pipeline, analyze_dividend_patterns, predict_upcoming_announcements in P.
      change (- RECENT_ANNOUNCEMENT_WINDOW) with (- 60) in P.
      rewrite Hcut, Hend in P. discriminate. }
  exists preds. split; [reflexivity|].
  apply Forall_forall. intros q Hq. apply list_elem_of_In in Hq.
  split; [|exact (pipeline_confidence_range _ _ _ _ _ P q Hq)].
  unfold pipeline, analyze_dividend_patterns, predict_upcoming_announcements in P.
  change (- RECENT_ANNOUNCEMENT_WINDOW) with (- 60) in P.
  rewrite Hcut, Hend in P. injection P as <-.
  apply (Permutation_in _ (sort_predictions_perm _)) in Hq.
  apply add_days_Some in Hcut.
  eapply pipeline_prediction_year; [|exact Hq]. lia.
Qed.

Lemma pipeline_predicts_after_the_last_occurrence_witness :
  add_days date_2024_03_01 (- 60) = Some 738886
  /\ add_days date_2024_03_01 30 = Some 738976
  /\ exists predictions,
       pipeline alpha_history 2 30 date_2024_03_01 = Some predictions
       /\ Forall (fun q => last_occurrence q < year (predicted_ex_date q)
                           /\ (0 <= confidence q <= 100)%Q)
                 predictions.
Proof.
  split; [reflexivity|]. split; [reflexivity|].
  apply (pipeline_predicts_after_the_last_occurrence
           alpha_history 2 30 date_2024_03_01 738886 738976); reflexivity.
Defined.




(** *** Duplicates of stored rows *)

Import Updater.

Lemma cell_eqb_true a b :
  cell_eqb a b = true <-> exists s, a = Some s /\ b = Some s.
Proof.
  destruct a as [x|], b as [y|]; simpl; try rewrite pystr_eqb_eq; split;
    try discriminate; try (intros [s [? ?]]; congruence).
  intros ->. eauto.
Qed.

Lemma is_exact_match_true r e :
  is_exact_match r e = true <->
  normalize_company_name (company e) = normalized_new r
  /\ (exists s, ex_date e = Some s /\ ex_date r = Some s)
  /\ within_tolerance (dividend e) (dividend r) = true.
Proof.
  unfold is_exact_match.
  rewrite !andb_true_iff, pystr_eqb_eq, cell_eqb_true. tauto.
Qed.

(** The float of [0.01] is the quotient of the floats 1 and 100. *)
Lemma float_0_01_is_a_hundredth :
  float_div (float_of_Z 1) (float_of_Z 100) = float_0_01.
Proof. reflexivity. Qed.

(** The tolerance is that of floats: 4.34 and 4.35 are a hundredth apart as
    numerals, and less than [0.01] apart once read and subtracted; 1.5 and
    1.51 are more than [0.01] apart. *)
Lemma one_cent_apart :
  exists a b c d,
    decimal_float (str "4.34") = Some a /\ decimal_float (str "4.35") = Some b
    /\ decimal_float (str "1.5") = Some c /\ decimal_float (str "1.51") = Some d
    /\ within_tolerance a b = true /\ within_tolerance c d = false.
Proof. do 4 eexists. repeat split. Qed.

(** The second check of [is_duplicate_entry] never finds a row: a row it
    would accept is an exact match. *)
Lemma is_duplicate_entry_exact r df_csv :
  is_duplicate_entry r df_csv
  = (if existsb (is_exact_match r) df_csv
     then (true, Some ExactMatch) else (false, None)).
Proof.
  unfold is_duplicate_entry. rewrite existsb_filter.
  destruct (List.filter (is_exact_match r) df_csv) eqn:E; [|reflexivity].
  destruct (List.find _ _) as [existing|] eqn:F; [|reflexivity].
  exfalso. apply find_some in F as [Hin Hp].
  apply filter_In in Hin as [Hin Hdate].
  apply andb_true_iff in Hp as [Htol Hname].
  pose proof (filter_nil_forall _ _ E existing Hin) as Hno.
  unfold is_exact_match in Hno. rewrite Hname, Hdate, Htol in Hno.
  discriminate.
Qed.

(** C3, as stated, fails: a stored row of another company with the date and
    the amount of the new row does not make the new row a duplicate. *)
Lemma other_company_is_no_duplicate :
  cell_eqb (ex_date beta_stored) (ex_date alpha_new) = true
  /\ within_tolerance (dividend beta_stored) (dividend alpha_new) = true
  /\ is_duplicate_entry alpha_new [beta_stored] = (false, None).
Proof. repeat split. Qed.

(** C3 (amended).  A new row whose company name normalizes alike as a new
    and as a stored name is a duplicate exactly when the store holds a row
    with the same normalized company name, the same ex-dividend date and an
    amount whose difference from its own, as floats, is less than 0.01.
    The second check, on the rows of that date, asks for the same normalized
    name too: it never finds a row the first one missed, and the reason is
    always "exact match". *)
Theorem duplicate_needs_same_normalized_name (r : row) (df_csv : list row) :
  normalized_new r = normalize_company_name (company r) ->
  (fst (is_duplicate_entry r df_csv) = true <->
   exists e,
     In e df_csv
     /\ normalize_company_name (company e)
        = normalize_company_name (company r)
     /\ (exists s, ex_date e = Some s /\ ex_date r = Some s)
     /\ within_tolerance (dividend e) (dividend r) = true)
  /\ (fst (is_duplicate_entry r df_csv) = true ->
      snd (is_duplicate_entry r df_csv) = Some ExactMatch)
  /\ (fst (is_duplicate_entry r df_csv) = false ->
      snd (is_duplicate_entry r df_csv) = None).
Proof.
  intros Hname. rewrite is_duplicate_entry_exact.
  destruct (existsb (is_exact_match r) df_csv) eqn:E; cbn [fst snd].
  - split; [|split; [reflexivity|discriminate]].
    split; [intros _|reflexivity].
    apply existsb_exists in E as (e & Hin & He).
    apply is_exact_match_true in He. rewrite Hname in He. eauto.
  - split; [|split; [discriminate|reflexivity]].
    split; [discriminate|]. intros (e & Hin & He).
    rewrite <- Hname in He. apply is_exact_match_true in He.
    assert (existsb (is_exact_match r) df_csv = true); [|congruence].
    apply existsb_exists. eauto.
Qed.

Lemma duplicate_needs_same_normalized_name_witness :
  normalized_new alpha_new = normalize_company_name (company alpha_new)
  /\ fst (is_duplicate_entry alpha_new [beta_stored; alpha_new]) = true.
Proof.
  split; [reflexivity|].
  apply (duplicate_needs_same_normalized_name
           alpha_new [beta_stored; alpha_new] eq_refl).
  exists alpha_new. split; [right; now left|]. split; [reflexivity|].
  split; [exists (str "15.03.2024"); split; reflexivity|reflexivity].
Defined.

(** *** Entries that lack a field *)

Lemma parse_step_skip py_float st line :
  parse_line py_float line = Skip -> parse_step py_float st line = st.
Proof. unfold parse_step. now intros ->. Qed.

(** C9, as stated, fails: a line without ex-dividend date leaves no entry
    and no message; nothing records that it was there. *)
Lemma empty_ex_date_leaves_no_trace :
  entry_cells line_no_ex_date = Some cells_no_ex_date
  /\ strip (part 2 cells_no_ex_date) = []
  /\ parse_line decimal_float line_no_ex_date = Skip
  /\ entries (parse_md_lines decimal_float line_no_ex_date) = []
  /\ messages (parse_md_lines decimal_float line_no_ex_date) = [].
Proof. repeat split. Qed.

(** An amount is at most zero when it is a zero, a negative number or the
    negative infinity; NaN is not. *)
Lemma float_le_zero a :
  float_le a float_zero = true <->
  match a with
  | S754_zero _ => True
  | S754_infinity s | S754_finite s _ _ => s = true
  | S754_nan => False
  end.
Proof.
  destruct a as [s|[|]| |[|] m e]; cbn; split; try easy.
Qed.

(** An entry whose amount reads as NaN passes the test [dividend <= 0] and
    is accepted. *)
Lemma nan_amount_is_accepted :
  exists r,
    parse_md_file decimal_float line_nan = ([r], 1%nat)
    /\ dividend r = float_nan
    /\ float_le (dividend r) float_zero = false.
Proof. eexists. repeat split. Qed.

(** C9 (amended).  An entry whose ex-dividend date, payment date or amount
    is empty, whose amount is not the text of a float, or whose amount is a
    float that is at most zero is never accepted.  It is passed over
    without any message when one of the three fields is empty or the amount
    is not the text of a float, and with the warning "invalid dividend
    amount" when the three are present and the amount is at most zero. *)
Theorem incomplete_entry_is_passed_over
  (py_float : pystr -> option pyfloat) (parts : list pystr) :
  let company := company_with_acronym (strip (part 1 parts)) in
  let ex_date := strip (part 2 parts) in
  let dividend_str := strip (part 3 parts) in
  let payment_date := strip (part 5 parts) in
  ex_date = [] \/ payment_date = [] \/ dividend_str = []
  \/ py_float dividend_str = None
  \/ (exists q, py_float dividend_str = Some q
                /\ float_le q float_zero = true) ->
  (forall r, parse_entry py_float parts <> Candidate r)
  /\ (ex_date = [] \/ payment_date = [] \/ dividend_str = []
      \/ py_float dividend_str = None -> parse_entry py_float parts = Skip)
  /\ (forall q, ex_date <> [] -> payment_date <> [] -> dividend_str <> [] ->
        py_float dividend_str = Some q -> float_le q float_zero = true ->
        parse_entry py_float parts = Warn (InvalidAmount company q)).
Proof.
  intros company ex_date dividend_str payment_date Hlack.
  unfold parse_entry.
  fold company ex_date dividend_str payment_date.
  split; [|split].
  - intros r.
    destruct (bool_decide (dividend_str = [])) eqn:E1;
    destruct (bool_decide (ex_date = [])) eqn:E2;
    destruct (bool_decide (payment_date = [])) eqn:E3; cbn [orb];
      try discriminate.
    apply bool_decide_eq_false in E1, E2, E3.
    destruct (py_float dividend_str) as [q|] eqn:F; [|discriminate].
    destruct Hlack as [H|[H|[H|[H|(q0 & Hq & H)]]]];
      try contradiction; try discriminate.
    injection Hq as <-. rewrite H. discriminate.
  - intros [H|[H|[H|H]]].
    + rewrite (bool_decide_eq_true_2 _ H). now rewrite orb_true_r.
    + rewrite (bool_decide_eq_true_2 _ H). now rewrite orb_true_r.
    + now rewrite (bool_decide_eq_true_2 _ H).
    + rewrite H. now destruct (_ || _).
  - intros q H1 H2 H3 F Hle.
    rewrite (bool_decide_eq_false_2 _ H1), (bool_decide_eq_false_2 _ H2),
      (bool_decide_eq_false_2 _ H3). cbn [orb]. rewrite F. now rewrite Hle.
Qed.

Lemma incomplete_entry_is_passed_over_witness :
  strip (part 2 cells_no_ex_date) = []
  /\ parse_entry decimal_float cells_no_ex_date = Skip
  /\ (exists q, decimal_float (strip (part 3 cells_zero_amount)) = Some q
                /\ float_le q float_zero = true)
  /\ forall r, parse_entry decimal_float cells_zero_amount <> Candidate r.
Proof.
  split; [reflexivity|]. split.
  - apply (incomplete_entry_is_passed_over decimal_float cells_no_ex_date).
    + left. reflexivity.
    + left. reflexivity.
  - split; [eexists; split; reflexivity|].
    apply (incomplete_entry_is_passed_over decimal_float cells_zero_amount).
    do 4 right. eexists. split; reflexivity.
Defined.

(** *** Duplicates within the update file *)

Lemma entry_key_eq r0 r :
  entry_key r0 = entry_key r <->
  company r0 = company r /\ ex_date r0 = ex_date r
  /\ dividend r0 = dividend r.
Proof.
  unfold entry_key. split.
  - intros H. now injection H.
  - intros [H1 [H2 H3]]. congruence.
Qed.

Lemma parse_lines_snoc py_float lines line :
  parse_lines py_float (lines ++ [line])
  = parse_step py_float (parse_lines py_float lines) line.
Proof. unfold parse_lines. now rewrite fold_left_app. Qed.

(** The keys seen so far are those of the validated entries so far. *)
Lemma seen_entries_spec py_float lines k :
  k ∈ seen_entries (parse_lines py_float lines) <->
  exists line r, In line lines /\ parse_line py_float line = Candidate r
                 /\ entry_key r = k.
Proof.
  induction lines as [|line lines IH] using rev_ind.
  - cbn. split; [set_solver|]. intros [line [r [[] _]]].
  - rewrite parse_lines_snoc. unfold parse_step at 1.
    destruct (parse_line py_float line) as [|m|r] eqn:P.
    + rewrite IH. split; intros [l [r [Hin H]]]; exists l, r; split; trivial.
      * apply in_or_app. now left.
      * apply in_app_or in Hin as [Hin|[<-|[]]]; [exact Hin|].
        destruct H; congruence.
    + cbn [seen_entries]. rewrite IH.
      split; intros [l [r [Hin H]]]; exists l, r; split; trivial.
      * apply in_or_app. now left.
      * apply in_app_or in Hin as [Hin|[<-|[]]]; [exact Hin|].
        destruct H; congruence.
    + unfold add_candidate. case_bool_decide as Hseen; cbn [seen_entries].
      * rewrite IH. split; intros [l [r2 [Hin H]]].
        -- exists l, r2. split; [apply in_or_app; now left|exact H].
        -- apply in_app_or in Hin as [Hin|[<-|[]]]; [now exists l, r2|].
           destruct H as [H1 H2]. rewrite P in H1. injection H1 as <-.
           subst k. apply IH, Hseen.
      * rewrite elem_of_union, elem_of_singleton, IH. split.
        -- intros [[l [r2 [Hin H]]]| ->].
           ++ exists l, r2. split; [apply in_or_app; now left|exact H].
           ++ exists line, r. split; [apply in_or_app; right; now left|auto].
        -- intros [l [r2 [Hin H]]].
           apply in_app_or in Hin as [Hin|[<-|[]]]; [left; now exists l, r2|].
           destruct H as [H1 H2]. rewrite P in H1. injection H1 as <-.
           now right.
Qed.

(** C4, as stated, fails: two entries of one file for the same normalized
    company name, the same ex-dividend date and the same amount are both
    kept when they differ in the acronym. *)
Lemma same_normalized_company_is_kept_twice :
  exists r1 r2,
    entries (parse_lines decimal_float [line_alpha_alp; line_alpha_xyz])
    = [r1; r2]
    /\ normalize_company_name (company r1) = normalize_company_name (company r2)
    /\ ex_date r1 = ex_date r2
    /\ dividend r1 = dividend r2
    /\ messages (parse_lines decimal_float [line_alpha_alp; line_alpha_xyz])
       = [Parsed (company r1); Parsed (company r2)].
Proof.
  do 2 eexists. split; [vm_compute; reflexivity|]. repeat split.
Qed.

(** C4 (amended).  Within one update file the validated entries are keyed by
    the company as it is stored (the name with its acronym, not the name
    normalized for the comparison with the store), the ex-dividend date and
    the amount.  An entry that has the company, the date as written and the
    amount of an earlier entry of the file is left out with the message
    "duplicate in MD file"; an entry that differs from every earlier entry
    in the company, in the calendar date or in the amount is kept. *)
Theorem within_file_duplicates
  (py_float : pystr -> option pyfloat) (lines : list pystr) (line : pystr)
  (r : row) :
  parse_line py_float line = Candidate r ->
  let st := parse_lines py_float lines in
  let st' := parse_lines py_float (lines ++ [line]) in
  ((exists line0 r0,
      In line0 lines /\ parse_line py_float line0 = Candidate r0
      /\ company r0 = company r /\ ex_date r0 = ex_date r
      /\ dividend r0 = dividend r) ->
     entries st' = entries st
     /\ messages st'
        = messages st ++ [DuplicateInFile (company r) (default [] (ex_date r))])
  /\ ((forall line0 r0,
        In line0 lines -> parse_line py_float line0 = Candidate r0 ->
        company r0 <> company r
        \/ consistent_date (ex_date r0) <> consistent_date (ex_date r)
        \/ dividend r0 <> dividend r) ->
     entries st' = entries st ++ [r]
     /\ messages st' = messages st ++ [Parsed (company r)]).
Proof.
  intros P st st'.
  unfold st'. rewrite parse_lines_snoc. fold st. unfold parse_step. rewrite P.
  unfold add_candidate. split; intros H.
  - rewrite bool_decide_eq_true_2; [now cbn|].
    unfold st. apply seen_entries_spec.
    destruct H as (l & r0 & Hin & H1 & H2). exists l, r0.
    split; [exact Hin|]. split; [exact H1|]. now apply entry_key_eq.
  - rewrite bool_decide_eq_false_2; [now cbn|].
    unfold st. rewrite seen_entries_spec. intros (l & r0 & Hin & H1 & H2).
    apply entry_key_eq in H2 as (E1 & E2 & E3).
    destruct (H l r0 Hin H1) as [N|[N|N]]; [now apply N| |now apply N].
    apply N. now rewrite E2.
Qed.

(** The same line twice is kept once; the line of another acronym is kept
    next to the first. *)
Lemma within_file_duplicates_witness :
  exists r r2,
    parse_line decimal_float line_alpha_alp = Candidate r
    /\ parse_line decimal_float line_alpha_xyz = Candidate r2
    /\ entries (parse_lines decimal_float [line_alpha_alp; line_alpha_alp])
       = entries (parse_lines decimal_float [line_alpha_alp])
    /\ entries (parse_lines decimal_float [line_alpha_alp; line_alpha_xyz])
       = entries (parse_lines decimal_float [line_alpha_alp]) ++ [r2].
Proof.
  do 2 eexists. split; [vm_compute; reflexivity|].
  split; [vm_compute; reflexivity|]. split.
  - apply (within_file_duplicates decimal_float [line_alpha_alp] line_alpha_alp
             _ eq_refl).
    exists line_alpha_alp. eexists.
    split; [now left|]. split; [vm_compute; reflexivity|]. repeat split.
  - apply (within_file_duplicates decimal_float [line_alpha_alp] line_alpha_xyz
             _ eq_refl).
    intros l0 r0 [<-|[]] P. vm_compute in P. injection P as <-.
    left. discriminate.
Defined.

(** *** Running the updater twice *)

(** C5 fails on the program.  An entry whose company cell has an opening
    parenthesis that is never closed is added by the first run and added
    again by the second: the stored name keeps the parenthesis when it is
    normalized, the new name loses it. *)
Theorem second_run_adds_the_entry_again :
  let first := update_csv_file decimal_float [beta_stored] line_open_paren in
  let second :=
    update_csv_file decimal_float (csv_file first) line_open_paren in
  length (new_entries first) = 1%nat
  /\ new_entries second = new_entries first
  /\ duplicates second = []
  /\ length (csv_file second) = 3%nat.
Proof. vm_compute. repeat split. Qed.

(** *** Names that are compared alike *)

Lemma re_sub_spaces_app a b : re_sub_spaces (a ++ b) = re_sub_spaces a ++ re_sub_spaces b.
Proof. apply List.filter_app. Qed.

Lemma re_sub_spaces_lstrip s : re_sub_spaces (lstrip s) = re_sub_spaces s.
Proof.
  induction s as [|c s IH]; [reflexivity|]. cbn [lstrip].
  destruct (isspace c) eqn:E; [|reflexivity].
  rewrite IH. unfold re_sub_spaces. cbn [List.filter]. now rewrite E.
Qed.

Lemma re_sub_spaces_rev s : re_sub_spaces (rev s) = rev (re_sub_spaces s).
Proof.
  induction s as [|c s IH]; [reflexivity|]. cbn [rev].
  rewrite re_sub_spaces_app, IH. unfold re_sub_spaces at 2 3. cbn [List.filter].
  destruct (negb (isspace c)); cbn [rev]; [reflexivity|now rewrite app_nil_r].
Qed.

Lemma re_sub_spaces_strip s : re_sub_spaces (strip s) = re_sub_spaces s.
Proof.
  unfold strip, rstrip.
  now rewrite re_sub_spaces_rev, re_sub_spaces_lstrip, re_sub_spaces_rev,
    rev_involutive, re_sub_spaces_lstrip.
Qed.

Lemma re_sub_spaces_no_space s c : In c (re_sub_spaces s) -> isspace c = false.
Proof.
  unfold re_sub_spaces. intros H. apply filter_In in H as [_ H].
  now apply negb_true_iff.
Qed.

Lemma lstrip_no_space s : (forall c, In c s -> isspace c = false) -> lstrip s = s.
Proof.
  destruct s as [|c s]; [reflexivity|]. intros H. cbn [lstrip].
  now rewrite (H c (or_introl eq_refl)).
Qed.

Lemma strip_no_space s : (forall c, In c s -> isspace c = false) -> strip s = s.
Proof.
  intros H. unfold strip, rstrip. rewrite (lstrip_no_space s H).
  rewrite lstrip_no_space; [apply rev_involutive|].
  intros c Hc. apply H. now apply in_rev.
Qed.

Lemma has_char_false c s : has_char c s = false <-> ~ In c s.
Proof.
  unfold has_char. split.
  - intros H Hin. assert (existsb (fun x => (x =? c)%N) s = true); [|congruence].
    apply existsb_exists. exists c. split; [exact Hin|apply N.eqb_refl].
  - intros H. destruct (existsb _ s) eqn:E; [|reflexivity].
    apply existsb_exists in E as [x [Hx E]]. apply N.eqb_eq in E. now subst.
Qed.

Lemma has_char_re_sub_spaces c s :
  has_char c s = false -> has_char c (re_sub_spaces s) = false.
Proof.
  rewrite !has_char_false. intros H Hin. apply H.
  unfold re_sub_spaces in Hin. now apply filter_In in Hin.
Qed.

Lemma take_while_app_stop f a c rest :
  (forall x, In x a -> f x = true) -> f c = false ->
  take_while f (a ++ c :: rest) = a /\ drop_while f (a ++ c :: rest) = c :: rest.
Proof.
  intros Ha Hc. induction a as [|x a IH]; cbn [app take_while drop_while].
  - now rewrite Hc.
  - rewrite (Ha x (or_introl eq_refl)).
    destruct IH as [E1 E2]; [intros y Hy; apply Ha; now right|].
    now rewrite E1, E2.
Qed.

Lemma take_while_all f a :
  (forall x, In x a -> f x = true) -> take_while f a = a.
Proof.
  induction a as [|x a IH]; intros H; [reflexivity|]. cbn [take_while].
  rewrite (H x (or_introl eq_refl)), IH; [reflexivity|].
  intros y Hy. apply H. now right.
Qed.

Lemma not_lparen_of s x : has_char lparen s = false -> In x s -> not_lparen x = true.
Proof.
  intros H Hx. apply has_char_false in H. unfold not_lparen.
  apply negb_true_iff, N.eqb_neq. intros ->. contradiction.
Qed.

Lemma not_rparen_of s x : has_char rparen s = false -> In x s -> not_rparen x = true.
Proof.
  intros H Hx. apply has_char_false in H. unfold not_rparen.
  apply negb_true_iff, N.eqb_neq. intros ->. contradiction.
Qed.

Lemma re_sub_parens_from_skip l rest :
  re_sub_parens_from (length l) (l ++ rest) = re_sub_parens_from 0 rest.
Proof. induction l as [|c l IH]; [reflexivity|exact IH]. Qed.

Lemma re_sub_parens_prefix a rest :
  has_char lparen a = false ->
  re_sub_parens_from 0 (a ++ rest) = a ++ re_sub_parens_from 0 rest.
Proof.
  induction a as [|c a IH]; intros H; [reflexivity|].
  cbn [app re_sub_parens_from].
  assert (Hc : (c =? lparen)%N = false).
  { pose proof (not_lparen_of _ c H (or_introl eq_refl)) as Hn.
    now apply negb_true_iff in Hn. }
  rewrite Hc, IH; [reflexivity|].
  apply has_char_false. apply has_char_false in H. intros Hin. apply H. now right.
Qed.

Lemma re_sub_parens_plain a : has_char lparen a = false -> re_sub_parens a = a.
Proof.
  intros H. unfold re_sub_parens.
  rewrite <- (app_nil_r a) at 1. rewrite re_sub_parens_prefix by exact H.
  cbn. apply app_nil_r.
Qed.

(** A name without parentheses normalizes alike on both sides. *)
Lemma plain_name_well_shaped (r : row) :
  has_char lparen (company r) = false ->
  normalize_company_name (company r) = normalized_new r.
Proof.
  intros H. unfold normalized_new, re_match_name.
  rewrite (take_while_all not_lparen (company r)) by (intros x; apply not_lparen_of, H).
  destruct (company r) as [|c s] eqn:E; [reflexivity|]. rewrite <- E.
  unfold normalize_company_name. now rewrite re_sub_spaces_strip.
Qed.

(** So does a name of the shape ["Name (CODE)"]: a name without opening
    parenthesis, a space, and between parentheses a code that is not blank
    and has no closing parenthesis. *)
Lemma canonical_name_well_shaped (r : row) (name code : pystr) :
  company r = name ++ str " (" ++ code ++ str ")" ->
  name <> [] -> has_char lparen name = false ->
  has_char rparen code = false -> re_sub_spaces code <> [] ->
  normalize_company_name (company r) = normalized_new r.
Proof.
  intros E Hname Hl Hr Hcode. unfold normalized_new, re_match_name. rewrite E.
  change (name ++ str " (" ++ code ++ str ")")
    with (name ++ [32%N] ++ lparen :: code ++ [rparen]).
  rewrite app_assoc.
  destruct (take_while_app_stop not_lparen (name ++ [32%N]) lparen (code ++ [rparen]))
    as [T _].
  { intros x Hx. apply in_app_or in Hx as [Hx|[<-|[]]]; [|reflexivity].
    now apply (not_lparen_of name). }
  { reflexivity. }
  rewrite T.
  destruct (name ++ [32%N]) as [|c0 s0] eqn:En; [now destruct name|]. rewrite <- En.
  unfold normalize_company_name.
  rewrite re_sub_spaces_strip, !re_sub_spaces_app.
  change (re_sub_spaces [32%N]) with (@nil N). rewrite app_nil_r.
  change (re_sub_spaces (lparen :: code ++ [rparen]))
    with (lparen :: re_sub_spaces (code ++ [rparen])).
  rewrite re_sub_spaces_app. change (re_sub_spaces [rparen]) with [rparen].
  rewrite (re_sub_parens_plain (re_sub_spaces name))
    by now apply has_char_re_sub_spaces.
  unfold re_sub_parens.
  rewrite re_sub_parens_prefix by now apply has_char_re_sub_spaces.
  cbn [re_sub_parens_from]. rewrite N.eqb_refl.
  unfold paren_body_len.
  destruct (take_while_app_stop not_rparen (re_sub_spaces code) rparen [])
    as [T1 T2].
  { intros x Hx. apply (not_rparen_of (re_sub_spaces code)); [|exact Hx].
    now apply has_char_re_sub_spaces. }
  { reflexivity. }
  rewrite T1, T2.
  destruct (re_sub_spaces code) as [|c1 s1] eqn:Ec; [congruence|]. rewrite <- Ec.
  replace (S (length (re_sub_spaces code)))
    with (length (re_sub_spaces code ++ [rparen])) by (rewrite length_app; cbn; lia).
  rewrite <- (app_nil_r (re_sub_spaces code ++ [rparen])) at 2.
  rewrite re_sub_parens_from_skip. cbn [re_sub_parens_from]. now rewrite app_nil_r.
Qed.

(** *** The second run on names that are compared alike *)

Lemma consistent_date_idempotent c :
  consistent_date (consistent_date c) = consistent_date c.
Proof.
  destruct c as [s|]; [|reflexivity]. cbn [consistent_date].
  destruct (strptime s) as [d|] eqn:E; [|reflexivity].
  cbn [option_map consistent_date].
  now rewrite (strptime_strftime d (strptime_valid s d E)).
Qed.

Lemma with_consistent_date_idempotent r :
  with_consistent_date (with_consistent_date r) = with_consistent_date r.
Proof.
  unfold with_consistent_date. cbn. now rewrite consistent_date_idempotent.
Qed.

Lemma csv_insert_row_perm r l : Permutation (insert_row r l) (r :: l).
Proof.
  induction l as [|x l IH]; simpl; [reflexivity|].
  destruct (sort_date_lt _ _); [reflexivity|]. rewrite IH. apply perm_swap.
Qed.

Lemma csv_sort_values_perm l : Permutation (sort_values l) l.
Proof.
  unfold sort_values.
  assert (G : forall acc,
            Permutation (fold_left (fun acc r => insert_row r acc) l acc) (acc ++ l)).
  { induction l as [|r l IH]; intros acc; simpl.
    - now rewrite app_nil_r.
    - rewrite IH, csv_insert_row_perm. apply Permutation_middle. }
  apply (G []).
Qed.

(** The new entries of the loop are the rows without an exact match. *)
Lemma classify_new df_csv l acc :
  snd (fold_left (classify df_csv) l acc)
  = snd acc ++ List.filter (fun r => negb (existsb (is_exact_match r) df_csv)) l.
Proof.
  revert acc. induction l as [|r l IH]; intros acc; simpl.
  - now rewrite app_nil_r.
  - rewrite IH. unfold classify. rewrite is_duplicate_entry_exact.
    destruct (existsb (is_exact_match r) df_csv); cbn [negb snd fst].
    + reflexivity.
    + now rewrite <- app_assoc.
Qed.

Lemma parse_entry_dated py_float parts r :
  parse_entry py_float parts = Candidate r ->
  exists s d, ex_date r = Some s /\ strptime s = Some d.
Proof.
  unfold parse_entry. destruct (_ || _); [discriminate|].
  destruct (py_float _) as [q|]; [|discriminate].
  destruct (float_le q float_zero); [discriminate|].
  destruct (strptime (strip (part 2 parts))) as [d|] eqn:E; [|discriminate].
  destruct (strptime (strip (part 5 parts))); [|discriminate].
  destruct (_ <? _); [discriminate|].
  intros Hc. injection Hc as <-. cbn. eauto.
Qed.

Lemma entries_dated py_float lines r :
  In r (entries (parse_lines py_float lines)) ->
  exists s d, ex_date r = Some s /\ strptime s = Some d.
Proof.
  induction lines as [|line lines IH] using rev_ind; [intros []|].
  rewrite parse_lines_snoc. unfold parse_step.
  destruct (parse_line py_float line) as [|m|r2] eqn:P; try exact IH.
  unfold add_candidate. case_bool_decide as Hseen; cbn [entries]; [exact IH|].
  intros Hin. apply in_app_or in Hin as [Hin|[<-|[]]]; [now apply IH|].
  unfold parse_line in P. destruct (entry_cells line); [|discriminate].
  now apply parse_entry_dated in P.
Qed.

Lemma filter_none_nil {A} (f : A -> bool) l :
  (forall x, In x l -> f x = false) -> List.filter f l = [].
Proof.
  induction l as [|x l IH]; intros H; [reflexivity|].
  cbn [List.filter]. rewrite (H x (or_introl eq_refl)).
  apply IH. intros y Hy. apply H. now right.
Qed.

(** A float that is a number is within the tolerance of itself; NaN and
    the infinities are not. *)
Lemma within_tolerance_refl a : is_finite a = true -> within_tolerance a a = true.
Proof.
  destruct a as [[|]|s| |s m e]; try discriminate; intros _;
    try reflexivity.
  unfold within_tolerance, float_sub, SFsub.
  assert (E : SpecFloat.shl_align m e (Z.min e e) = (m, e)).
  { unfold SpecFloat.shl_align. rewrite Z.min_id, Z.sub_diag. reflexivity. }
  rewrite E. cbn [fst]. rewrite Z.sub_diag. reflexivity.
Qed.

(** Running the updater again on the frame that the first run leaves adds
    nothing, provided that every entry added by the first run has an amount
    that is a number and a company that normalizes, as a stored name, to
    what it normalizes to as a new name.  (The frame is taken as the first
    run holds it: what writing it to the file and reading it back does to
    its cells is not modelled.) *)
Theorem second_run_adds_nothing py_float df_csv content :
  let first := update_csv_file py_float df_csv content in
  (forall r, In r (new_entries first) ->
             normalize_company_name (company r) = normalized_new r
             /\ is_finite (dividend r) = true) ->
  new_entries (update_csv_file py_float (csv_file first) content) = [].
Proof.
  unfold update_csv_file, parse_md_file, parse_md_lines.
  set (found := entries (parse_lines py_float (split newline content))).
  assert (Hdated : forall r, In r found ->
            exists s d, ex_date r = Some s /\ strptime s = Some d)
    by (intros r; apply entries_dated).
  destruct found as [|r0 found0] eqn:Efound; [reflexivity|].
  rewrite <- Efound in *. clear Efound.
  set (df1 := List.map with_consistent_date df_csv).
  set (new := List.map with_consistent_date found).
  destruct (fold_left (classify df1) new ([], [])) as [dups1 new1] eqn:F1.
  assert (Hnew1 : new1 = List.filter
            (fun r => negb (existsb (is_exact_match r) df1)) new).
  { pose proof (classify_new df1 new ([], [])) as H. now rewrite F1 in H. }
  destruct new1 as [|n1 new1'] eqn:En1.
  - cbn [new_entries csv_file]. intros _. fold df1. rewrite F1. reflexivity.
  - rewrite <- En1 in *. clear En1. cbn [new_entries csv_file]. intros Hshape.
    set (df2 := List.map with_consistent_date (sort_values (df1 ++ new1))).
    destruct (fold_left (classify df2) new ([], [])) as [dups2 new2] eqn:F2.
    assert (Hnew2 : new2 = []).
    { pose proof (classify_new df2 new ([], [])) as H. rewrite F2 in H.
      cbn [snd app] in H. rewrite H. clear H.
      apply (filter_none_nil (fun r => negb (existsb (is_exact_match r) df2))).
      intros r Hr. apply negb_false_iff.
      destruct (existsb (is_exact_match r) df1) eqn:D1.
      - apply existsb_exists in D1 as [e [He Hm]].
        apply existsb_exists. exists e. split; [|exact Hm].
        unfold df2. apply in_map_iff in He as Hpre. destruct Hpre as [e0 [<- _]].
        rewrite <- with_consistent_date_idempotent. apply in_map.
        apply (Permutation_in _ (Permutation_sym (csv_sort_values_perm _))).
        apply in_or_app. now left.
      - assert (Hin1 : In r new1).
        { rewrite Hnew1. apply filter_In. split; [exact Hr|]. now rewrite D1. }
        apply existsb_exists. exists r. split.
        + unfold df2. apply in_map_iff in Hr as Hpre. destruct Hpre as [e0 [<- _]].
          rewrite <- with_consistent_date_idempotent. apply in_map.
          apply (Permutation_in _ (Permutation_sym (csv_sort_values_perm _))).
          apply in_or_app. right. exact Hin1.
        + unfold is_exact_match.
          rewrite (proj1 (Hshape r Hin1)), pystr_eqb_refl,
            (within_tolerance_refl _ (proj2 (Hshape r Hin1))).
          apply in_map_iff in Hr as [e0 [<- He0]].
          destruct (Hdated e0 He0) as (s & d & Es & Ed).
          cbn [with_consistent_date ex_date]. rewrite Es.
          cbn [consistent_date]. rewrite Ed.
          cbn [option_map cell_eqb andb]. now rewrite pystr_eqb_refl. }
    rewrite Hnew2. reflexivity.
Qed.

Lemma second_run_adds_nothing_witness :
  (forall r,
     In r (new_entries
             (update_csv_file decimal_float [beta_stored] line_alpha_alp)) ->
     normalize_company_name (company r) = normalized_new r
     /\ is_finite (dividend r) = true)
  /\ new_entries
       (update_csv_file decimal_float
          (csv_file (update_csv_file decimal_float [beta_stored] line_alpha_alp))
          line_alpha_alp)
     = [].
Proof.
  assert (H : forall r,
            In r (new_entries
                    (update_csv_file decimal_float [beta_stored] line_alpha_alp)) ->
            normalize_company_name (company r) = normalized_new r
            /\ is_finite (dividend r) = true).
  { intros r Hr. vm_compute in Hr. destruct Hr as [<-|[]]. split; reflexivity. }
  split; [exact H|].
  apply (second_run_adds_nothing decimal_float [beta_stored] line_alpha_alp).
  exact H.
Defined.

(** *** The entries of an update file *)

(** An amount that is not at most zero is a positive number, the positive
    infinity or NaN. *)
Lemma float_not_le_zero a :
  float_le a float_zero = false <->
  a = float_nan \/ float_lt float_zero a = true.
Proof.
  destruct a as [s|[|]| |[|] m e]; cbn; split; try easy; try (now right);
    try (now left); intros [H|H]; discriminate.
Qed.

Lemma parse_entry_valid py_float parts r :
  parse_entry py_float parts = Candidate r ->
  float_le (dividend r) float_zero = false
  /\ kind r = []
  /\ company r = company_with_acronym (strip (part 1 parts))
  /\ exists s d pd,
       ex_date r = Some s /\ s <> [] /\ strptime s = Some d
       /\ strptime (payment_date r) = Some pd
       /\ toordinal d <= toordinal pd
       /\ comfortable_date r = strftime_iso d.
Proof.
  unfold parse_entry.
  destruct (bool_decide (strip (part 3 parts) = [])) eqn:E1; [discriminate|].
  destruct (bool_decide (strip (part 2 parts) = [])) eqn:E2; [discriminate|].
  destruct (bool_decide (strip (part 5 parts) = [])) eqn:E3; [discriminate|].
  cbn [orb]. apply bool_decide_eq_false in E2.
  destruct (py_float _) as [q|]; [|discriminate].
  destruct (float_le q float_zero) eqn:Hq; [discriminate|].
  destruct (strptime (strip (part 2 parts))) as [d|] eqn:Ed; [|discriminate].
  destruct (strptime (strip (part 5 parts))) as [pd|] eqn:Ep; [|discriminate].
  destruct (toordinal pd <? toordinal d) eqn:L; [discriminate|].
  intros Hc. injection Hc as <-.
  cbn [dividend kind company ex_date payment_date comfortable_date].
  split; [exact Hq|].
  split; [reflexivity|]. split; [reflexivity|].
  exists (strip (part 2 parts)), d, pd. apply Z.ltb_ge in L. auto 10.
Qed.

Lemma entries_from_lines py_float lines r :
  In r (entries (parse_lines py_float lines)) ->
  exists line, In line lines /\ parse_line py_float line = Candidate r.
Proof.
  induction lines as [|line lines IH] using rev_ind; [intros []|].
  rewrite parse_lines_snoc. unfold parse_step.
  destruct (parse_line py_float line) as [|m|r2] eqn:P.
  - intros H. destruct (IH H) as [l [Hl Hp]]. exists l. split; [|exact Hp].
    apply in_or_app. now left.
  - cbn [entries]. intros H. destruct (IH H) as [l [Hl Hp]]. exists l.
    split; [|exact Hp]. apply in_or_app. now left.
  - unfold add_candidate. case_bool_decide as Hseen; cbn [entries].
    + intros H. destruct (IH H) as [l [Hl Hp]]. exists l. split; [|exact Hp].
      apply in_or_app. now left.
    + intros H. apply in_app_or in H as [H|[<-|[]]].
      * destruct (IH H) as [l [Hl Hp]]. exists l. split; [|exact Hp].
        apply in_or_app. now left.
      * exists line. split; [apply in_or_app; right; now left|exact P].
Qed.


(** Every entry the parser returns has an amount that is not at most zero
    (a positive number, the positive infinity or NaN, which the test
    [dividend <= 0] lets through), an empty type, an ex-dividend date and a
    payment date that are calendar dates in the format [%d.%m.%Y], the
    payment not before the ex-dividend date, and as comfortable date the
    ex-dividend date in ISO form. *)
Theorem accepted_entries_are_valid
  (py_float : pystr -> option pyfloat) (content : pystr) :
  Forall
    (fun r =>
       float_le (dividend r) float_zero = false
       /\ (dividend r = float_nan \/ float_lt float_zero (dividend r) = true)
       /\ kind r = []
       /\ exists s d pd,
            ex_date r = Some s /\ strptime s = Some d
            /\ strptime (payment_date r) = Some pd
            /\ toordinal d <= toordinal pd
            /\ comfortable_date r = strftime_iso d)
    (fst (parse_md_file py_float content)).
Proof.
  unfold parse_md_file, parse_md_lines. cbn [fst].
  apply Forall_forall. intros r Hr. apply list_elem_of_In in Hr.
  apply entries_from_lines in Hr as (line & _ & P).
  unfold parse_line in P. destruct (entry_cells line) as [parts|]; [|discriminate].
  apply parse_entry_valid in P as (H1 & H2 & _ & s & d & pd & H3 & _ & H4).
  split; [exact H1|]. split; [now apply float_not_le_zero|].
  split; [exact H2|]. exists s, d, pd. tauto.
Qed.

Lemma seen_entries_are_entry_keys py_float lines k :
  k ∈ seen_entries (parse_lines py_float lines)
  <-> In k (List.map entry_key (entries (parse_lines py_float lines))).
Proof.
  induction lines as [|line lines IH] using rev_ind.
  - cbn. split; [set_solver|intros []].
  - rewrite parse_lines_snoc. unfold parse_step.
    destruct (parse_line py_float line) as [|m|r]; try exact IH.
    unfold add_candidate. case_bool_decide as Hseen; cbn [seen_entries entries];
      [exact IH|].
    rewrite elem_of_union, elem_of_singleton, List.map_app, in_app_iff, IH.
    cbn. intuition.
Qed.


(** No two entries the parser returns have the same company, the same
    ex-dividend date as written and the same amount; and the count it
    returns is the number of these entries, so that the summary of the
    updater never has duplicates within the file to report. *)
Theorem accepted_entries_have_distinct_keys
  (py_float : pystr -> option pyfloat) (content : pystr) :
  List.NoDup (List.map entry_key (fst (parse_md_file py_float content)))
  /\ snd (parse_md_file py_float content)
     = length (fst (parse_md_file py_float content))
  /\ ForallOrdPairs
       (fun a b => ~ (company a = company b /\ ex_date a = ex_date b
                      /\ dividend a = dividend b))
       (fst (parse_md_file py_float content)).
Proof.
  unfold parse_md_file, parse_md_lines. cbn [fst snd].
  assert (Hnd : List.NoDup (List.map entry_key
             (entries (parse_lines py_float (split newline content))))).
  { induction (split newline content) as [|line lines IH] using rev_ind;
      [constructor|].
    rewrite parse_lines_snoc. unfold parse_step.
    destruct (parse_line py_float line) as [|m|r]; try exact IH.
    unfold add_candidate. case_bool_decide as Hseen; cbn [entries]; [exact IH|].
    rewrite List.map_app. apply NoDup_ListNoDup, NoDup_app.
    split; [now apply NoDup_ListNoDup|]. split; [|apply NoDup_singleton].
    intros k Hk Hk2. apply list_elem_of_singleton in Hk2 as ->.
    apply Hseen. apply seen_entries_are_entry_keys. now apply list_elem_of_In. }
  split; [exact Hnd|]. split; [reflexivity|].
  induction (entries _) as [|a l IH]; [constructor|].
  cbn [List.map] in Hnd. inversion Hnd as [|? ? Hnotin Hnd']; subst.
  constructor; [|now apply IH].
  apply List.Forall_forall. intros b Hb Heq. apply Hnotin.
  apply entry_key_eq in Heq. rewrite Heq. now apply in_map.
Qed.

(** *** Normalized names and the store *)

Lemma re_sub_parens_from_In k s x : In x (re_sub_parens_from k s) -> In x s.
Proof.
  revert k. induction s as [|c s IH]; intros k; [intros []|].
  cbn [re_sub_parens_from]. destruct k as [|k].
  - destruct (c =? lparen)%N.
    + destruct (paren_body_len s).
      * intros H. right. now apply IH in H.
      * intros [<-|H]; [now left|right; now apply IH in H].
    + intros [<-|H]; [now left|right; now apply IH in H].
  - intros H. right. now apply IH in H.
Qed.

Lemma drop_while_nil_iff f s : drop_while f s = [] <-> forall x, In x s -> f x = true.
Proof.
  induction s as [|c s IH]; cbn [drop_while].
  - split; [intros _ x []|reflexivity].
  - destruct (f c) eqn:E.
    + rewrite IH. split.
      * intros H x [<-|Hx]; auto.
      * intros H x Hx. apply H. now right.
    + split; [discriminate|]. intros H.
      rewrite (H c (or_introl eq_refl)) in E. discriminate.
Qed.

Lemma paren_body_len_None s :
  paren_body_len s = None <->
  take_while not_rparen s = [] \/ drop_while not_rparen s = [].
Proof.
  unfold paren_body_len.
  destruct (take_while not_rparen s), (drop_while not_rparen s); split;
    try discriminate; auto; intros [H|H]; discriminate.
Qed.

Lemma paren_body_len_after_sub s :
  paren_body_len s = None -> paren_body_len (re_sub_parens_from 0 s) = None.
Proof.
  rewrite !paren_body_len_None. intros [H|H].
  - left. destruct s as [|c s]; [reflexivity|].
    cbn [take_while] in H. destruct (not_rparen c) eqn:E; [discriminate|].
    cbn [re_sub_parens_from].
    assert (Hc : (c =? lparen)%N = false).
    { unfold not_rparen in E. apply negb_false_iff, N.eqb_eq in E. now subst. }
    rewrite Hc. cbn [take_while]. now rewrite E.
  - right. apply drop_while_nil_iff. intros x Hx.
    apply re_sub_parens_from_In in Hx.
    now apply (proj1 (drop_while_nil_iff _ _) H).
Qed.

(** What [re.sub] leaves holds no further match. *)
Lemma re_sub_parens_from_stable k s :
  re_sub_parens_from 0 (re_sub_parens_from k s) = re_sub_parens_from k s.
Proof.
  revert k. induction s as [|c s IH]; intros k; [reflexivity|].
  cbn [re_sub_parens_from]. destruct k as [|k]; [|apply IH].
  destruct (c =? lparen)%N eqn:Ec.
  - destruct (paren_body_len s) as [n|] eqn:P; [apply IH|].
    cbn [re_sub_parens_from]. rewrite Ec, (paren_body_len_after_sub s P).
    now rewrite IH.
  - cbn [re_sub_parens_from]. rewrite Ec. now rewrite IH.
Qed.

Lemma re_sub_spaces_fixed s :
  (forall c, In c s -> isspace c = false) -> re_sub_spaces s = s.
Proof.
  induction s as [|c s IH]; intros H; [reflexivity|].
  unfold re_sub_spaces. cbn [List.filter].
  rewrite (H c (or_introl eq_refl)). cbn [negb]. f_equal.
  apply IH. intros x Hx. apply H. now right.
Qed.

Lemma normalize_company_name_no_space name c :
  In c (normalize_company_name name) -> isspace c = false.
Proof.
  unfold normalize_company_name.
  assert (H : forall x, In x (re_sub_parens (re_sub_spaces name)) ->
                        isspace x = false).
  { intros x Hx. apply re_sub_parens_from_In in Hx.
    now apply re_sub_spaces_no_space in Hx. }
  rewrite (strip_no_space _ H). apply H.
Qed.


(** Normalizing a company name twice is normalizing it once; a normalized
    name holds no whitespace; and two names that differ in whitespace only
    normalize alike. *)
Theorem normalize_company_name_idempotent (name : pystr) :
  normalize_company_name (normalize_company_name name)
  = normalize_company_name name
  /\ (forall c, In c (normalize_company_name name) -> isspace c = false)
  /\ (forall other, re_sub_spaces other = re_sub_spaces name ->
                    normalize_company_name other = normalize_company_name name).
Proof.
  split; [|split; [apply normalize_company_name_no_space|]].
  - pose proof (normalize_company_name_no_space name) as Hns.
    unfold normalize_company_name in *.
    set (u := re_sub_parens (re_sub_spaces name)) in *.
    assert (Hu : forall x, In x u -> isspace x = false).
    { intros x Hx. apply re_sub_parens_from_In in Hx.
      now apply re_sub_spaces_no_space in Hx. }
    rewrite (strip_no_space u Hu), (re_sub_spaces_fixed u Hu).
    unfold u, re_sub_parens. rewrite re_sub_parens_from_stable.
    fold (re_sub_parens (re_sub_spaces name)). fold u.
    apply (strip_no_space u Hu).
  - intros other H. unfold normalize_company_name. now rewrite H.
Qed.


(** An entry is a duplicate of a store made of two parts exactly when it is
    a duplicate of one of the parts: each stored row is compared on its
    own. *)
Theorem duplicate_against_two_stores (r : row) (df1 df2 : list row) :
  fst (is_duplicate_entry r (df1 ++ df2))
  = fst (is_duplicate_entry r df1) || fst (is_duplicate_entry r df2).
Proof.
  rewrite !is_duplicate_entry_exact, existsb_app.
  destruct (existsb _ df1), (existsb _ df2); reflexivity.
Qed.

(** *** What a run does to the file *)



Lemma classify_duplicates df_csv l acc :
  fst (fold_left (classify df_csv) l acc)
  = fst acc
    ++ List.map (fun r => (r, Some ExactMatch))
         (List.filter (fun r => existsb (is_exact_match r) df_csv) l).
Proof.
  revert acc. induction l as [|r l IH]; intros acc; simpl.
  - now rewrite app_nil_r.
  - rewrite IH. unfold classify. rewrite is_duplicate_entry_exact.
    destruct (existsb (is_exact_match r) df_csv); cbn [negb snd fst List.map].
    + now rewrite <- app_assoc.
    + reflexivity.
Qed.

Lemma filter_split_length {A} (f : A -> bool) l :
  (length (List.filter f l) + length (List.filter (fun x => negb (f x)) l)
   = length l)%nat.
Proof.
  induction l as [|x l IH]; [reflexivity|]. cbn [List.filter].
  destruct (f x); cbn [negb length]; lia.
Qed.

Lemma update_csv_file_lists py_float df_csv content :
  let parsed :=
    List.map with_consistent_date (fst (parse_md_file py_float content)) in
  let stored := List.map with_consistent_date df_csv in
  let result := update_csv_file py_float df_csv content in
  new_entries result
  = List.filter (fun r => negb (existsb (is_exact_match r) stored)) parsed
  /\ duplicates result
     = List.map (fun r => (r, Some ExactMatch))
         (List.filter (fun r => existsb (is_exact_match r) stored) parsed).
Proof.
  unfold update_csv_file, parse_md_file. cbn [fst].
  set (found := entries (parse_md_lines py_float content)).
  destruct found as [|r0 found0] eqn:E; [split; reflexivity|].
  rewrite <- E. clear E.
  set (stored := List.map with_consistent_date df_csv).
  set (parsed := List.map with_consistent_date found).
  pose proof (classify_new stored parsed ([], [])) as Hn.
  pose proof (classify_duplicates stored parsed ([], [])) as Hd.
  destruct (fold_left (classify stored) parsed ([], [])) as [dups news].
  cbn [fst snd app] in Hn, Hd. subst dups.
  destruct news as [|n news]; cbn [new_entries duplicates];
    split; auto.
Qed.


(** A run splits the parsed entries, their dates rewritten, in two: those
    that are duplicates of the store (dates rewritten) and those that are
    not, each in the order of the file.  The reason given for a duplicate is
    always "exact match": the second test, over the rows of the same date,
    never finds what the first has not found. *)
Theorem update_splits_the_parsed_entries
  (py_float : pystr -> option pyfloat) (df_csv : list row) (content : pystr) :
  let parsed :=
    List.map with_consistent_date (fst (parse_md_file py_float content)) in
  let stored := List.map with_consistent_date df_csv in
  let result := update_csv_file py_float df_csv content in
  new_entries result
  = List.filter (fun r => negb (fst (is_duplicate_entry r stored))) parsed
  /\ List.map fst (duplicates result)
     = List.filter (fun r => fst (is_duplicate_entry r stored)) parsed
  /\ Forall (fun d => snd d = Some ExactMatch) (duplicates result)
  /\ (length (duplicates result) + length (new_entries result)
      = length parsed)%nat.
Proof.
  intros parsed stored result.
  destruct (update_csv_file_lists py_float df_csv content) as [Hn Hd].
  fold parsed stored result in Hn, Hd.
  assert (Ef : forall r, fst (is_duplicate_entry r stored)
                         = existsb (is_exact_match r) stored).
  { intros r. rewrite is_duplicate_entry_exact.
    now destruct (existsb (is_exact_match r) stored). }
  repeat split.
  - rewrite Hn. apply filter_ext. intros r. now rewrite Ef.
  - rewrite Hd, List.map_map. cbn [fst]. rewrite List.map_id.
    apply filter_ext. intros r. now rewrite Ef.
  - rewrite Hd. apply Forall_forall. intros d Hin.
    apply list_elem_of_In, in_map_iff in Hin as (r & <- & _). reflexivity.
  - rewrite Hn, Hd, length_map. apply filter_split_length.
Qed.

Lemma update_csv_file_store py_float df_csv content :
  let result := update_csv_file py_float df_csv content in
  match new_entries result with
  | [] => csv_file result = df_csv
  | _ => csv_file result
         = sort_values (List.map with_consistent_date df_csv
                        ++ new_entries result)
  end.
Proof.
  unfold update_csv_file.
  destruct (parse_md_file py_float content) as [found total].
  destruct found as [|r0 found0] eqn:E; [reflexivity|].
  rewrite <- E. clear E.
  destruct (fold_left _ _ _) as [dups news].
  destruct news; reflexivity.
Qed.


(** A run never loses a stored row: without new entries the frame is left as
    it was read, and otherwise the new frame holds the stored rows, their
    dates rewritten, and the new entries, each as often as before. *)
Theorem stored_rows_are_never_lost
  (py_float : pystr -> option pyfloat) (df_csv : list row) (content : pystr) :
  let result := update_csv_file py_float df_csv content in
  match new_entries result with
  | [] => csv_file result = df_csv
  | _ => Permutation (csv_file result)
           (List.map with_consistent_date df_csv ++ new_entries result)
  end
  /\ length (csv_file result)
     = (length df_csv + length (new_entries result))%nat.
Proof.
  intros result. pose proof (update_csv_file_store py_float df_csv content) as H.
  cbv zeta in H.
  fold result in H.
  destruct (new_entries result) as [|n news]; cbv beta iota in H.
  - rewrite H. split; [reflexivity|]. cbn [length]. lia.
  - rewrite H. split; [apply csv_sort_values_perm|].
    rewrite (Permutation_length (csv_sort_values_perm _)).
    now rewrite length_app, length_map.
Qed.

Lemma sort_date_lt_false a b :
  sort_date_lt (sort_date a) (sort_date b) = false -> date_not_after b a.
Proof.
  unfold date_not_after, sort_date_lt.
  destruct (sort_date a), (sort_date b); try discriminate; try easy.
  intros H. apply Z.ltb_ge in H. exact H.
Qed.

Lemma sort_date_lt_true a b :
  sort_date_lt (sort_date a) (sort_date b) = true -> date_not_after a b.
Proof.
  unfold date_not_after, sort_date_lt.
  destruct (sort_date a), (sort_date b); try discriminate; try easy.
  intros H. apply Z.ltb_lt in H. lia.
Qed.

Lemma date_not_after_trans a b c :
  date_not_after a b -> date_not_after b c -> date_not_after a c.
Proof.
  unfold date_not_after.
  destruct (sort_date a), (sort_date b), (sort_date c); try easy. lia.
Qed.

Lemma csv_insert_row_sorted r l :
  StronglySorted date_not_after l ->
  StronglySorted date_not_after (insert_row r l).
Proof.
  induction 1 as [|x l Hs IH Hx]; cbn [insert_row].
  - constructor; [constructor|constructor].
  - destruct (sort_date_lt (sort_date r) (sort_date x)) eqn:E.
    + apply sort_date_lt_true in E. constructor.
      * now constructor.
      * constructor; [exact E|].
        rewrite List.Forall_forall in *. intros y Hy.
        eapply date_not_after_trans; [exact E|now apply Hx].
    + apply sort_date_lt_false in E. constructor; [exact IH|].
      rewrite List.Forall_forall in *. intros y Hy.
      apply (Permutation_in _ (csv_insert_row_perm r l)) in Hy as [<-|Hy];
        [exact E|now apply Hx].
Qed.

Lemma csv_sort_values_sorted l : StronglySorted date_not_after (sort_values l).
Proof.
  unfold sort_values.
  assert (G : forall acc, StronglySorted date_not_after acc ->
            StronglySorted date_not_after
              (fold_left (fun acc r => insert_row r acc) l acc)).
  { induction l as [|r l IH]; intros acc Hacc; [exact Hacc|].
    cbn [fold_left]. apply IH. now apply csv_insert_row_sorted. }
  apply G. constructor.
Qed.


(** When a run adds entries, the rows it writes are sorted by ex-dividend
    date, the rows without a date last. *)
Theorem rewritten_file_is_sorted_by_date
  (py_float : pystr -> option pyfloat) (df_csv : list row) (content : pystr) :
  let result := update_csv_file py_float df_csv content in
  new_entries result <> [] ->
  StronglySorted date_not_after (csv_file result).
Proof.
  intros result Hne.
  pose proof (update_csv_file_store py_float df_csv content) as H.
  cbv zeta in H.
  fold result in H. destruct (new_entries result); [contradiction|].
  cbv beta iota in H. rewrite H. apply csv_sort_values_sorted.
Qed.

Lemma rewritten_file_is_sorted_by_date_witness :
  new_entries (update_csv_file decimal_float [beta_stored] line_alpha_alp)
  <> []
  /\ StronglySorted date_not_after
       (csv_file (update_csv_file decimal_float [beta_stored] line_alpha_alp)).
Proof.
  split; [vm_compute; discriminate|].
  apply (rewritten_file_is_sorted_by_date
           decimal_float [beta_stored] line_alpha_alp).
  vm_compute. discriminate.
Defined.

Lemma consistent_date_canonical c : canonical_date_cell (consistent_date c).
Proof.
  destruct c as [s|]; [|exact I]. cbn [consistent_date].
  destruct (strptime s) as [d|] eqn:E; [|exact I].
  exists d. split; [now apply strptime_valid in E|reflexivity].
Qed.


(** When a run adds entries, every date it writes is missing or a calendar
    date with two-digit day and month, which rewriting leaves as it is; and
    the missing dates are as many as the stored rows whose date is not
    one. *)
Theorem rewritten_dates_are_canonical
  (py_float : pystr -> option pyfloat) (df_csv : list row) (content : pystr) :
  let result := update_csv_file py_float df_csv content in
  new_entries result <> [] ->
  Forall (fun r => canonical_date_cell (ex_date r)
                   /\ consistent_date (ex_date r) = ex_date r)
         (csv_file result)
  /\ length (List.filter (fun r => bool_decide (ex_date r = None))
                         (csv_file result))
     = length (List.filter (fun r => bool_decide (sort_date r = None)) df_csv).
Proof.
  intros result Hne.
  pose proof (update_csv_file_store py_float df_csv content) as H.
  cbv zeta in H.
  destruct (update_csv_file_lists py_float df_csv content) as [Hn _].
  fold result in H, Hn. destruct (new_entries result) as [|n news] eqn:En;
    [contradiction|].
  cbv beta iota in H.
  assert (Hall : forall r,
            In r (List.map with_consistent_date df_csv ++ n :: news) ->
            exists r0, r = with_consistent_date r0).
  { intros r Hin. apply in_app_or in Hin as [Hin|Hin].
    - apply in_map_iff in Hin as (r0 & <- & _). eauto.
    - rewrite Hn in Hin. apply filter_In in Hin as [Hin _].
      apply in_map_iff in Hin as (r0 & <- & _). eauto. }
  split.
  - apply Forall_forall. intros r Hin. apply list_elem_of_In in Hin.
    rewrite H in Hin.
    apply (Permutation_in _ (csv_sort_values_perm _)) in Hin.
    destruct (Hall r Hin) as (r0 & ->). cbn [with_consistent_date ex_date].
    split; [apply consistent_date_canonical|apply consistent_date_idempotent].
  - rewrite H.
    rewrite (filter_length_perm _ _ _ (csv_sort_values_perm _)).
    rewrite List.filter_app, length_app.
    assert (Hnew : List.filter (fun r => bool_decide (ex_date r = None))
                     (n :: news) = []).
    { apply filter_none_nil. intros r Hin. rewrite Hn in Hin.
      apply filter_In in Hin as [Hin _].
      apply in_map_iff in Hin as (r0 & <- & Hin0).
      unfold parse_md_file, parse_md_lines in Hin0. cbn [fst] in Hin0.
      apply entries_dated in Hin0 as (s & d & Es & Ed).
      cbn [with_consistent_date ex_date]. rewrite Es. cbn [consistent_date].
      rewrite Ed. reflexivity. }
    rewrite Hnew. cbn [length]. rewrite Nat.add_0_r.
    clear. induction df_csv as [|r l IH]; [reflexivity|].
    cbn [List.map List.filter].
    assert (E : bool_decide (ex_date (with_consistent_date r) = None)
                = bool_decide (sort_date r = None)).
    { unfold sort_date. cbn [with_consistent_date ex_date].
      destruct (ex_date r) as [s|]; [|reflexivity]. cbn [consistent_date].
      destruct (strptime s); reflexivity. }
    rewrite E. destruct (bool_decide (sort_date r = None)); cbn [length];
      now rewrite IH.
Qed.

Lemma rewritten_dates_are_canonical_witness :
  new_entries
    (update_csv_file decimal_float [beta_stored] line_alpha_short_date)
  <> []
  /\ Forall (fun r => canonical_date_cell (ex_date r)
                      /\ consistent_date (ex_date r) = ex_date r)
       (csv_file
          (update_csv_file decimal_float [beta_stored] line_alpha_short_date)).
Proof.
  split; [vm_compute; discriminate|].
  apply (rewritten_dates_are_canonical
           decimal_float [beta_stored] line_alpha_short_date).
  vm_compute. discriminate.
Defined.

Import Fixer.

(** *** The name fixer *)




Lemma lstrip_In s x : In x (lstrip s) -> In x s.
Proof.
  induction s as [|c s IH]; [intros []|]. cbn [lstrip].
  destruct (isspace c); [|auto]. intros H. right. now apply IH.
Qed.

Lemma strip_In s x : In x (strip s) -> In x s.
Proof.
  unfold strip, rstrip. intros H. apply in_rev in H. apply lstrip_In in H.
  apply in_rev in H. now apply lstrip_In in H.
Qed.

Lemma take_while_holds f s x : In x (take_while f s) -> f x = true.
Proof.
  induction s as [|c s IH]; [intros []|]. cbn [take_while].
  destruct (f c) eqn:E; [|intros []]. intros [<-|H]; auto.
Qed.

Lemma take_while_In f s x : In x (take_while f s) -> In x s.
Proof.
  induction s as [|c s IH]; [intros []|]. cbn [take_while].
  destruct (f c) eqn:E; [|intros []]. intros [<-|H]; [now left|right; auto].
Qed.

Lemma after_prefix_star_head c s :
  c <> star -> after_prefix [star; star] (c :: s) = None.
Proof.
  intros H. cbn [after_prefix]. destruct (star =? c)%N eqn:E; [|reflexivity].
  apply N.eqb_eq in E. congruence.
Qed.

Lemma re_match_markdown_groups s g1 g2 :
  re_match_markdown s = Some (g1, g2) ->
  (forall x, In x g1 -> x <> star) /\ (forall x, In x g2 -> x <> rbracket)
  /\ g1 <> [] /\ g2 <> [] /\ exists rest, s = star :: star :: rest.
Proof.
  unfold re_match_markdown.
  destruct (after_prefix [star; star] s) as [s1|] eqn:E0; [|discriminate].
  destruct (take_while not_star s1) as [|a g] eqn:E1; [discriminate|].
  destruct (after_prefix _ (drop_while _ _)) as [s2|]; [|discriminate].
  destruct (after_prefix _ (lstrip s2)) as [s3|]; [|discriminate].
  destruct (take_while not_rbracket s3) as [|b h] eqn:E2; [discriminate|].
  destruct (drop_while not_rbracket s3); [discriminate|].
  intros H. injection H as <- <-. repeat split; try discriminate.
  - intros x Hx. rewrite <- E1 in Hx. apply take_while_holds in Hx.
    unfold not_star in Hx. now apply negb_true_iff, N.eqb_neq in Hx.
  - intros x Hx. rewrite <- E2 in Hx. apply take_while_holds in Hx.
    unfold not_rbracket in Hx. now apply negb_true_iff, N.eqb_neq in Hx.
  - destruct s as [|c1 [|c2 s]]; cbn [after_prefix] in E0; try discriminate.
    + destruct (star =? c1)%N; discriminate.
    + destruct (star =? c1)%N eqn:A1; [|discriminate].
      destruct (star =? c2)%N eqn:A2; [|discriminate].
      apply N.eqb_eq in A1, A2. subst. eauto.
Qed.

(** A fixed name has lost its markdown. *)
Lemma new_name_fixed s n : new_name s = Some n -> new_name n = None.
Proof.
  unfold new_name at 1.
  destruct (re_match_markdown s) as [[g1 g2]|] eqn:E; [|discriminate].
  apply re_match_markdown_groups in E as (H1 & _).
  intros H. injection H as <-. unfold new_name, re_match_markdown.
  destruct (strip g1) as [|c t] eqn:Es.
  - reflexivity.
  - cbn [app]. rewrite after_prefix_star_head; [reflexivity|].
    apply H1, strip_In. rewrite Es. now left.
Qed.

Lemma new_name_differs s n : new_name s = Some n -> n <> s.
Proof.
  intros H E. subst n. rewrite (new_name_fixed s s H) in H. discriminate.
Qed.



Lemma fix_company_names_fold df acc :
  fold_left fix_row df acc
  = (fst acc ++ List.map fix_one df,
     (snd acc + length (List.filter has_markdown df))%nat).
Proof.
  revert acc. induction df as [|r df IH]; intros [rows n]; cbn [fold_left].
  - cbn. now rewrite app_nil_r, Nat.add_0_r.
  - rewrite IH. unfold fix_row, fix_one, has_markdown.
    cbn [List.map List.filter fst snd].
    destruct (new_name (company r)); cbn [fst snd length];
      rewrite <- app_assoc; cbn [app]; f_equal; lia.
Qed.

Lemma fix_company_names_map df :
  fix_company_names_in_csv df
  = (List.map fix_one df, length (List.filter has_markdown df)).
Proof. unfold fix_company_names_in_csv. now rewrite fix_company_names_fold. Qed.

Lemma fix_one_fixed r : new_name (company (fix_one r)) = None.
Proof.
  unfold fix_one. destruct (new_name (company r)) as [n|] eqn:E; [|exact E].
  cbn [set_company company]. now apply new_name_fixed in E.
Qed.

Lemma fix_one_id r : new_name (company r) = None -> fix_one r = r.
Proof. unfold fix_one. now intros ->. Qed.


(** A second pass of the fixer finds nothing to change, and writes no
    file: a fixed name never starts with a star. *)
Theorem fixing_twice_changes_nothing (df : list row) :
  let fixed := fst (fix_company_names_in_csv df) in
  fix_company_names_in_csv fixed = (fixed, 0%nat)
  /\ saved_file fixed = None.
Proof.
  cbv zeta.
  assert (E : fix_company_names_in_csv (fst (fix_company_names_in_csv df))
              = (fst (fix_company_names_in_csv df), 0%nat)).
  { rewrite (fix_company_names_map df). cbn [fst].
    rewrite fix_company_names_map. f_equal.
    - rewrite List.map_map. apply List.map_ext. intros r.
      apply fix_one_id, fix_one_fixed.
    - rewrite filter_none_nil; [reflexivity|].
      intros r Hin. apply in_map_iff in Hin as (r0 & <- & _).
      unfold has_markdown. now rewrite fix_one_fixed. }
  split; [exact E|]. unfold saved_file. now rewrite E.
Qed.

Lemma fix_one_columns r :
  ex_date (fix_one r) = ex_date r /\ dividend (fix_one r) = dividend r
  /\ kind (fix_one r) = kind r /\ payment_date (fix_one r) = payment_date r
  /\ yield (fix_one r) = yield r
  /\ comfortable_date (fix_one r) = comfortable_date r
  /\ (startswith [star; star] (company r) = false -> fix_one r = r).
Proof.
  unfold fix_one. destruct (new_name (company r)) as [n|] eqn:E;
    repeat split; intros Hs.
  unfold new_name in E.
  destruct (re_match_markdown (company r)) as [[g1 g2]|] eqn:M;
    [|discriminate].
  apply re_match_markdown_groups in M as (_ & _ & _ & _ & rest & Hr).
  rewrite Hr in Hs. vm_compute in Hs. discriminate.
Qed.

Lemma no_change_iff df :
  length (List.filter has_markdown df) = 0%nat <-> List.map fix_one df = df.
Proof.
  induction df as [|r df IH]; [easy|]. cbn [List.map List.filter].
  unfold has_markdown at 1, fix_one at 1.
  destruct (new_name (company r)) as [n|] eqn:E.
  - split; [discriminate|]. intros H. injection H as H _. exfalso.
    apply (new_name_differs _ _ E).
    now rewrite <- H.
  - rewrite IH. split; [now intros ->|]. intros H. now injection H.
Qed.


(** The fixer keeps the rows and their order, and every column but the
    company; it leaves alone every row whose company does not start with two
    stars; it changes at most as many names as there are rows; and it writes
    the file exactly when some row differs. *)
Theorem fixer_changes_names_only (df : list row) :
  let fixed := fst (fix_company_names_in_csv df) in
  let changes_made := snd (fix_company_names_in_csv df) in
  Forall2 (fun r r' =>
             ex_date r' = ex_date r /\ dividend r' = dividend r
             /\ kind r' = kind r /\ payment_date r' = payment_date r
             /\ yield r' = yield r
             /\ comfortable_date r' = comfortable_date r
             /\ (startswith [star; star] (company r) = false -> r' = r))
          df fixed
  /\ (changes_made <= length df)%nat
  /\ (changes_made = 0%nat <-> fixed = df)
  /\ (saved_file df = None <-> fixed = df).
Proof.
  cbv zeta. unfold saved_file. rewrite fix_company_names_map. cbn [fst snd].
  pose proof (no_change_iff df) as Hiff.
  split; [|split; [|split; [exact Hiff|split]]].
  - clear. induction df as [|r df IH]; [constructor|]. cbn [List.map].
    constructor; [apply fix_one_columns|apply IH].
  - clear. induction df as [|r df IH]; [reflexivity|].
    cbn [List.filter length]. destruct (has_markdown r); cbn [length]; lia.
  - destruct (0 <? _)%nat eqn:E; [discriminate|].
    intros _. apply Hiff. apply Nat.ltb_ge in E. lia.
  - intros H. apply Hiff in H. now rewrite H.
Qed.

Lemma lstrip_app_nonspace u b v :
  isspace b = false -> lstrip (u ++ b :: v) = lstrip u ++ b :: v.
Proof.
  intros Hb. induction u as [|c u IH]; cbn [app lstrip].
  - now rewrite Hb.
  - destruct (isspace c); [exact IH|reflexivity].
Qed.

Lemma rstrip_app_nonspace p b t :
  isspace b = false -> rstrip (p ++ b :: t) = p ++ b :: rstrip t.
Proof.
  intros Hb. unfold rstrip. rewrite rev_app_distr. cbn [rev].
  rewrite <- app_assoc. cbn [app].
  rewrite (lstrip_app_nonspace _ _ _ Hb), rev_app_distr. cbn [rev].
  rewrite rev_involutive, <- app_assoc. reflexivity.
Qed.

Lemma strip_between a p b t :
  isspace a = false -> isspace b = false ->
  strip (a :: p ++ b :: t) = a :: p ++ b :: rstrip t.
Proof.
  intros Ha Hb. unfold strip. cbn [lstrip]. rewrite Ha.
  change (a :: p ++ b :: t) with ((a :: p) ++ b :: t).
  now rewrite (rstrip_app_nonspace _ _ _ Hb).
Qed.

Lemma strip_head a t :
  isspace a = false -> strip (a :: t) = a :: rstrip t.
Proof.
  intros Ha. unfold strip. cbn [lstrip]. rewrite Ha.
  apply (rstrip_app_nonspace [] a t Ha).
Qed.

Lemma not_star_of s x : has_char star s = false -> In x s -> not_star x = true.
Proof.
  intros H Hx. apply has_char_false in H. unfold not_star.
  apply negb_true_iff, N.eqb_neq. intros ->. contradiction.
Qed.

Lemma not_rbracket_of s x :
  has_char rbracket s = false -> In x s -> not_rbracket x = true.
Proof.
  intros H Hx. apply has_char_false in H. unfold not_rbracket.
  apply negb_true_iff, N.eqb_neq. intros ->. contradiction.
Qed.

Lemma has_char_app c a b : has_char c (a ++ b) = has_char c a || has_char c b.
Proof. apply existsb_app. Qed.

(** The markdown name: two stars, a name, two stars, blanks, and in a
    parenthesis a bracketed acronym. *)
Lemma new_name_markdown name ws acr rest :
  name <> [] -> acr <> [] ->
  has_char star name = false -> has_char rbracket acr = false ->
  (forall c, In c ws -> isspace c = true) ->
  new_name ([star; star] ++ name ++ [star; star] ++ ws
            ++ [lparen; lbracket] ++ acr ++ rbracket :: rest)
  = Some (strip name ++ str " (" ++ strip acr ++ str ")").
Proof.
  intros Hname Hacr Hs Hb Hws. unfold new_name, re_match_markdown.
  cbn [app after_prefix]. rewrite N.eqb_refl.
  destruct (take_while_app_stop not_star name star
              (star :: ws ++ lparen :: lbracket :: acr ++ rbracket :: rest))
    as [T D]; [intros x; apply not_star_of, Hs|reflexivity|].
  rewrite T, D. destruct name as [|n0 name]; [contradiction|].
  cbn [after_prefix]. rewrite N.eqb_refl.
  assert (L : lstrip (ws ++ lparen :: lbracket :: acr ++ rbracket :: rest)
              = lparen :: lbracket :: acr ++ rbracket :: rest).
  { clear - Hws. induction ws as [|c ws IH]; [reflexivity|].
    cbn [app lstrip]. rewrite (Hws c (or_introl eq_refl)).
    apply IH. intros x Hx. apply Hws. now right. }
  rewrite L. cbn [after_prefix]. rewrite !N.eqb_refl.
  destruct (take_while_app_stop not_rbracket acr rbracket rest)
    as [T2 D2]; [intros x; apply not_rbracket_of, Hb|reflexivity|].
  rewrite T2, D2. destruct acr as [|a0 acr]; [contradiction|]. reflexivity.
Qed.


Lemma markdown_cell_shape name acr link :
  markdown_cell name acr link
  = (star :: star :: name ++ [star; star; 32%N])
    ++ lparen :: (lbracket :: acr ++ rbracket :: lparen :: link)
    ++ [rparen; rparen].
Proof.
  unfold markdown_cell. cbn [str List.map list_ascii_of_string app].
  change (N_of_ascii "*") with star.
  cbn. rewrite <- !app_assoc. cbn [app].
  repeat (f_equal; try (rewrite <- !app_assoc; cbn [app])).
Qed.

(** What the updater makes of a markdown cell. *)
Lemma company_with_acronym_markdown name acr link :
  has_char lparen name = false -> has_char rparen acr = false ->
  has_char rparen link = false ->
  company_with_acronym (markdown_cell name acr link)
  = stored_markdown name acr link.
Proof.
  intros Hlp Hrp Hlink. unfold company_with_acronym.
  rewrite markdown_cell_shape.
  set (g1 := star :: star :: name ++ [star; star; 32%N]).
  set (g2 := lbracket :: acr ++ rbracket :: lparen :: link).
  assert (Hl : has_char lparen (g1 ++ lparen :: g2 ++ [rparen; rparen]) = true).
  { rewrite has_char_app. cbn [has_char existsb].
    rewrite N.eqb_refl. cbn. apply orb_true_r. }
  assert (Hr : has_char rparen (g1 ++ lparen :: g2 ++ [rparen; rparen]) = true).
  { change (g1 ++ lparen :: g2 ++ [rparen; rparen])
      with (g1 ++ (lparen :: g2) ++ [rparen; rparen]).
    rewrite !has_char_app. cbn. rewrite !orb_true_r. reflexivity. }
  rewrite Hl, Hr. cbn [andb]. unfold re_match_company.
  destruct (take_while_app_stop not_lparen g1 lparen (g2 ++ [rparen; rparen]))
    as [T D].
  { intros x Hx. unfold g1 in Hx.
    destruct Hx as [<-|[<-|Hx]]; try reflexivity.
    apply in_app_or in Hx as [Hx|Hx]; [now apply (not_lparen_of name)|].
    destruct Hx as [<-|[<-|[<-|[]]]]; reflexivity. }
  { reflexivity. }
  rewrite T, D.
  change (g2 ++ [rparen; rparen]) with (g2 ++ rparen :: [rparen]).
  destruct (take_while_app_stop not_rparen g2 rparen [rparen]) as [T2 D2].
  { intros x Hx. unfold g2 in Hx. destruct Hx as [<-|Hx]; [reflexivity|].
    apply in_app_or in Hx as [Hx|Hx]; [now apply (not_rparen_of acr)|].
    destruct Hx as [<-|[<-|Hx]]; try reflexivity.
    now apply (not_rparen_of link). }
  { reflexivity. }
  rewrite T2, D2.
  change (strip g1 ++ str " (" ++ strip g2 ++ str ")"
          = stored_markdown name acr link).
  assert (S1 : strip g1 = star :: star :: name ++ [star; star]).
  { unfold g1.
    replace (star :: star :: name ++ [star; star; 32%N])
      with (star :: (star :: name ++ [star]) ++ star :: [32%N])
      by (cbn [app]; now rewrite <- app_assoc).
    rewrite strip_between by reflexivity.
    change (rstrip [32%N]) with (@nil N). cbn [app].
    now rewrite <- app_assoc. }
  assert (S2 : strip g2 = lbracket :: acr ++ rbracket :: rstrip (lparen :: link)).
  { unfold g2. now rewrite strip_between by reflexivity. }
  rewrite S1, S2. unfold stored_markdown.
  cbn [str List.map list_ascii_of_string app].
  change (N_of_ascii "*") with star. cbn.
  rewrite <- !app_assoc. cbn [app].
  repeat (f_equal; try (rewrite <- !app_assoc; cbn [app])).
Qed.

(** What the fixer makes of it. *)
Lemma new_name_stored_markdown name acr link :
  name <> [] -> acr <> [] ->
  has_char star name = false -> has_char rbracket acr = false ->
  new_name (stored_markdown name acr link)
  = Some (strip name ++ str " (" ++ strip acr ++ str ")").
Proof.
  intros Hname Hacr Hstar Hrb.
  rewrite <- (new_name_markdown name [32%N] acr
                (rstrip (lparen :: link) ++ [rparen]) Hname Hacr Hstar Hrb).
  - reflexivity.
  - intros c [<-|[]]. reflexivity.
Qed.

Lemma strip_markdown_cell name acr link :
  strip (markdown_cell name acr link) = markdown_cell name acr link.
Proof.
  rewrite markdown_cell_shape.
  replace ((star :: star :: name ++ [star; star; 32%N])
           ++ lparen :: (lbracket :: acr ++ rbracket :: lparen :: link)
           ++ [rparen; rparen])
    with (star :: (star :: name ++ [star; star; 32%N]
                   ++ lparen :: (lbracket :: acr ++ rbracket :: lparen :: link)
                   ++ [rparen])
          ++ rparen :: []).
  - now rewrite strip_between by reflexivity.
  - cbn [app]. rewrite <- !app_assoc. cbn [app].
    repeat (f_equal; try (rewrite <- !app_assoc; cbn [app])).
Qed.

(** A line of an update file whose company cell is in markdown, the name in
    bold followed by the acronym as a link, and which the parser accepts,
    leaves in the result of the parser an entry whose company is the cell
    cut at its first closing parenthesis; and the fixer rewrites that
    company to the name followed by the acronym in parentheses. *)
Theorem markdown_cell_is_stored_then_fixed
  (py_float : pystr -> option pyfloat) (content line : pystr)
  (parts : list pystr) (r : row) (name acr link : pystr) :
  name <> [] -> acr <> [] ->
  has_char star name = false -> has_char lparen name = false ->
  has_char rbracket acr = false -> has_char rparen acr = false ->
  has_char rparen link = false ->
  In line (split newline content) ->
  entry_cells line = Some parts ->
  part 1 parts = markdown_cell name acr link ->
  parse_line py_float line = Candidate r ->
  exists stored,
    In stored (fst (parse_md_file py_float content))
    /\ company stored = stored_markdown name acr link
    /\ List.map company (fst (fix_company_names_in_csv [stored]))
       = [strip name ++ str " (" ++ strip acr ++ str ")"].
Proof.
  intros Hname Hacr Hstar Hlp Hrb Hrp Hlink Hin Hcells Hcell P.
  assert (Hc : company r = stored_markdown name acr link).
  { unfold parse_line in P. rewrite Hcells in P.
    apply parse_entry_valid in P as (_ & _ & -> & _).
    rewrite Hcell, strip_markdown_cell.
    now apply company_with_acronym_markdown. }
  assert (Hseen : entry_key r
                  ∈ seen_entries (parse_lines py_float (split newline content))).
  { apply seen_entries_spec. eauto. }
  apply seen_entries_are_entry_keys, in_map_iff in Hseen
    as (stored & Hkey & Hstored).
  apply entry_key_eq in Hkey as (Hcompany & _).
  exists stored. split; [exact Hstored|]. split; [congruence|].
  rewrite fix_company_names_map. cbn [fst List.map]. unfold fix_one.
  rewrite Hcompany, Hc, (new_name_stored_markdown name acr link) by assumption.
  reflexivity.
Qed.

Lemma markdown_cell_is_stored_then_fixed_witness :
  exists parts r,
    In line_markdown (split newline line_markdown)
    /\ entry_cells line_markdown = Some parts
    /\ part 1 parts = markdown_cell name_alpha code_alp link_alp
    /\ parse_line decimal_float line_markdown = Candidate r
    /\ exists stored,
         In stored (fst (parse_md_file decimal_float line_markdown))
         /\ company stored = stored_markdown name_alpha code_alp link_alp
         /\ List.map company (fst (fix_company_names_in_csv [stored]))
            = [alpha].
Proof.
  do 2 eexists.
  split; [now left|]. split; [vm_compute; reflexivity|].
  split; [reflexivity|]. split; [vm_compute; reflexivity|].
  eapply (markdown_cell_is_stored_then_fixed
            decimal_float line_markdown line_markdown _ _
            name_alpha code_alp link_alp);
    first [discriminate|reflexivity|now left|vm_compute; reflexivity].
Defined.

Lemma normalize_company_name_In name x :
  In x (normalize_company_name name) -> In x name.
Proof.
  unfold normalize_company_name. intros H. apply strip_In in H.
  unfold re_sub_parens in H.
  apply re_sub_parens_from_In in H. unfold re_sub_spaces in H.
  now apply filter_In in H.
Qed.

Lemma normalize_company_name_head c t :
  isspace c = false -> c <> lparen ->
  exists t', normalize_company_name (c :: t) = c :: t'.
Proof.
  intros Hc Hl. unfold normalize_company_name, re_sub_spaces, re_sub_parens.
  cbn [List.filter]. rewrite Hc. cbn [negb re_sub_parens_from].
  apply N.eqb_neq in Hl. rewrite Hl. rewrite (strip_head _ _ Hc). eauto.
Qed.


(** A new entry whose company starts with a star is no duplicate of a store
    whose companies hold no star.  So once the fixer has rewritten the
    stored names, the updater no longer finds the markdown entries of an
    update file in the store. *)
Theorem starred_entry_matches_no_plain_row
  (r : row) (df_csv : list row) (rest : pystr) :
  company r = star :: rest ->
  (forall e, In e df_csv -> has_char star (company e) = false) ->
  is_duplicate_entry r df_csv = (false, None).
Proof.
  intros Hr Hplain. rewrite is_duplicate_entry_exact.
  assert (Hnew : In star (normalized_new r)).
  { unfold normalized_new, re_match_name. rewrite Hr. cbn [take_while].
    change (not_lparen star) with true. cbv iota.
    rewrite (strip_head star _ eq_refl).
    destruct (normalize_company_name_head star
                (rstrip (take_while not_lparen rest)) eq_refl) as [t' ->];
      [discriminate|now left]. }
  destruct (existsb (is_exact_match r) df_csv) eqn:E; [|reflexivity].
  apply existsb_exists in E as (e & Hin & He). unfold is_exact_match in He.
  apply andb_true_iff in He as [He _]. apply andb_true_iff in He as [He _].
  apply pystr_eqb_eq in He. rewrite <- He in Hnew.
  apply normalize_company_name_In in Hnew.
  specialize (Hplain e Hin). apply has_char_false in Hplain. contradiction.
Qed.

Lemma starred_entry_matches_no_plain_row_witness :
  company alpha_starred = star :: tl (company alpha_starred)
  /\ (forall e, In e [alpha_new] -> has_char star (company e) = false)
  /\ is_duplicate_entry alpha_starred [alpha_new] = (false, None).
Proof.
  split; [reflexivity|]. split; [intros e [<-|[]]; reflexivity|].
  apply (starred_entry_matches_no_plain_row
           alpha_starred [alpha_new] (tl (company alpha_starred)));
    [reflexivity|intros e [<-|[]]; reflexivity].
Defined.
